(** * img2dataset: the asynchronous shard downloader

    A shallow embedding of [img2dataset/async_downloader.py] and the
    properties of it that the specification states.

    Conventions.
    - Python [int] is [Z]; text is [string], read as a [str] whose code
      points are below 256 (Latin-1), one character for each code point:
      [lower] and [strip] are [str.lower] and [str.strip] on these strings,
      where lower-casing acts character by character. Text with other code
      points is outside the embedding. A response body is a [string] of
      bytes.
    - A Python exception (an instance of [Exception]) is [exn]; a computation
      that may raise returns a [result].
    - Collaborators whose code lives outside the module (the HTTP session, the
      resizer, the sample writer, the hash and EXIF libraries, the shard
      storage, the statistics writer) are parameters. *)

From Stdlib Require Import ZArith List String Ascii Bool Lia Permutation FinFun.
Import ListNotations.

Open Scope Z_scope.

(** ** Exceptions and results *)

Inductive exn : Type :=
| Exception (description : string).

(** [str(err)] *)
Definition str (e : exn) : string :=
  match e with Exception d => d end.

Inductive result (A : Type) : Type :=
| Ok (a : A)
| Raise (e : exn).
Arguments Ok {A} a.
Arguments Raise {A} e.

Definition bind {A B} (m : result A) (k : A -> result B) : result B :=
  match m with
  | Ok a => k a
  | Raise e => Raise e
  end.

(** ** Python string operations, on code points below 256 *)

Module PyStr.

(** [c.isspace()] for a code point below 256: the controls 9 to 13 and 28
    to 31, the space, NEXT LINE (133) and NO-BREAK SPACE (160). These are
    the characters that [str.strip()] removes. *)
Definition isspace (c : ascii) : bool :=
  let n := nat_of_ascii c in
  (((9 <=? n) && (n <=? 13)) || ((28 <=? n) && (n <=? 32))
   || (n =? 133) || (n =? 160))%nat.

(** [c.lower()] for a code point below 256: the letters A to Z and the
    capital letters 192 to 222 of Latin-1, but for the multiplication sign
    (215), move up by 32; every other character is kept. *)
Definition lower_char (c : ascii) : ascii :=
  let n := nat_of_ascii c in
  if (((65 <=? n) && (n <=? 90))
      || ((192 <=? n) && (n <=? 222) && negb (n =? 215)))%nat
  then ascii_of_nat (n + 32) else c.

(** [s.lower()] *)
Fixpoint lower (s : string) : string :=
  match s with
  | EmptyString => EmptyString
  | String c s' => String (lower_char c) (lower s')
  end.

Fixpoint lstrip (s : string) : string :=
  match s with
  | EmptyString => EmptyString
  | String c s' => if isspace c then lstrip s' else s
  end.

Fixpoint rstrip (s : string) : string :=
  match s with
  | EmptyString => EmptyString
  | String c s' =>
      match rstrip s' with
      | EmptyString => if isspace c then EmptyString else String c EmptyString
      | r => String c r
      end
  end.

(** [s.strip()] *)
Definition strip (s : string) : string := rstrip (lstrip s).

(** The text before the first [sep] and, when there is a [sep], the text
    after it. *)
Fixpoint partition (sep : ascii) (s : string) : string * option string :=
  match s with
  | EmptyString => (EmptyString, None)
  | String c s' =>
      if Ascii.eqb c sep then (EmptyString, Some s')
      else let (a, b) := partition sep s' in (String c a, b)
  end.

(** [s.split(sep, 1)] *)
Definition split1 (sep : ascii) (s : string) : list string :=
  match partition sep s with
  | (a, None) => [a]
  | (a, Some b) => [a; b]
  end.

(** [s.split(sep)] *)
Fixpoint split (sep : ascii) (s : string) : list string :=
  match s with
  | EmptyString => [EmptyString]
  | String c s' =>
      if Ascii.eqb c sep then EmptyString :: split sep s'
      else match split sep s' with
           | h :: t => String c h :: t
           | [] => [String c EmptyString]
           end
  end.

(** [x in xs] for a set (or list) of strings *)
Definition mem (x : string) (xs : list string) : bool :=
  existsb (String.eqb x) xs.

(** A string of [n] zeros. *)
Fixpoint zeros (n : nat) : string :=
  match n with
  | O => EmptyString
  | S n' => String "0"%char (zeros n')
  end.

Definition digit_char (d : Z) : ascii := ascii_of_nat (48 + Z.to_nat d).

(** The decimal digits of [n >= 0], most significant first; [fuel] bounds
    the number of digits. *)
Fixpoint digits_fuel (fuel : nat) (n : Z) : string :=
  match fuel with
  | O => EmptyString
  | S fuel' =>
      String.append
        (if n / 10 =? 0 then EmptyString else digits_fuel fuel' (n / 10))
        (String (digit_char (n mod 10)) EmptyString)
  end.

(** [n] has at most [log2 n + 1] decimal digits. *)
Definition digits (n : Z) : string :=
  digits_fuel (S (Z.to_nat (Z.log2 n))) n.

(** [format(n, "0{width}d")] for an [int] [n] and [width >= 0]: sign, then
    zeros up to [width] characters in all, then the digits. The width is a
    minimum: longer numbers are never cut. *)
Definition format_0d (n : Z) (width : Z) : string :=
  let sign := if n <? 0 then String "-"%char EmptyString else EmptyString in
  let ds := digits (Z.abs n) in
  let pad := Z.to_nat (width - Z.of_nat (String.length sign)
                             - Z.of_nat (String.length ds)) in
  String.append sign (String.append (zeros pad) ds).

Definition is_digit (c : ascii) : bool :=
  let n := nat_of_ascii c in ((48 <=? n) && (n <=? 57))%nat.

Fixpoint all_digits (s : string) : bool :=
  match s with
  | EmptyString => true
  | String c s' => is_digit c && all_digits s'
  end.

(** Reading a string of decimal digits, most significant first, onto the
    value [v] read so far. *)
Fixpoint value_from (v : Z) (s : string) : Z :=
  match s with
  | EmptyString => v
  | String c s' => value_from (10 * v + (Z.of_nat (nat_of_ascii c) - 48)) s'
  end.

(** [int(s)] for a non-empty string of decimal digits *)
Definition decimal_value (s : string) : option Z :=
  match s with
  | EmptyString => None
  | _ => if all_digits s then Some (value_from 0 s) else None
  end.

End PyStr.

(** ** Policy filter: [is_disallowed] *)

(** A multi-valued header collection ([CIMultiDictProxy]): names and values
    in the order received. *)
Definition headers_t : Type := list (string * string).

(** [headers.getall(name, [])]: the values of every header named [name], the
    name compared without regard to case. *)
Definition getall (name : string) (headers : headers_t) : list string :=
  map snd
    (filter (fun kv => String.eqb (PyStr.lower (fst kv)) (PyStr.lower name))
       headers).

(** [ua_token == user_agent_token], the left side a [str] *)
Definition token_eqb (ua_token : string) (user_agent_token : option string)
  : bool :=
  match user_agent_token with
  | Some t => String.eqb ua_token t
  | None => false
  end.

(** The body of the loop of [is_disallowed] for one header value: [true] when
    the [return True] is reached. The string operations of the body raise on
    no [str], so the [except] clause is not entered. *)
Definition value_disallowed (user_agent_token : option string)
    (disallowed_header_directives : list string) (values : string) : bool :=
  let uatoken_directives := PyStr.split1 ":"%char values in
  let directives :=
    map (fun x => PyStr.lower (PyStr.strip x))
      (PyStr.split ","%char (last uatoken_directives EmptyString)) in
  let ua_token :=
    if (List.length uatoken_directives =? 2)%nat
    then Some (PyStr.lower (hd EmptyString uatoken_directives))
    else None in
  (match ua_token with
   | None => true
   | Some t => token_eqb t user_agent_token
   end)
  && existsb (fun x => PyStr.mem x disallowed_header_directives) directives.

Fixpoint scan_values (user_agent_token : option string)
    (disallowed_header_directives : list string) (vs : list string) : bool :=
  match vs with
  | [] => false
  | values :: vs' =>
      if value_disallowed user_agent_token disallowed_header_directives values
      then true
      else scan_values user_agent_token disallowed_header_directives vs'
  end.

Definition is_disallowed (headers : headers_t)
    (user_agent_token : option string)
    (disallowed_header_directives : list string) : bool :=
  scan_values user_agent_token disallowed_header_directives
    (getall "X-Robots-Tag" headers).

(** The normalisation of [AsyncDownloader.__init__] (lines 120-125). *)
Definition init_user_agent_token (user_agent_token : option string)
  : option string :=
  option_map (fun t => PyStr.lower (PyStr.strip t)) user_agent_token.

Definition init_disallowed_header_directives (ds : option (list string))
  : option (list string) :=
  option_map (map (fun d => PyStr.lower (PyStr.strip d))) ds.

(** The matching rule in the words of the specification: the token and every
    directive are lower-cased and trimmed; a value matches when the token is
    absent or is the configured token, and a directive is disallowed. *)
Definition spec_value_matches (user_agent_token : option string)
    (disallowed : list string) (value : string) : bool :=
  let (first, rest) := PyStr.partition ":"%char value in
  let token :=
    match rest with
    | Some _ => Some (PyStr.lower (PyStr.strip first))
    | None => None
    end in
  let directive_list := match rest with Some r => r | None => first end in
  let directives :=
    map (fun x => PyStr.lower (PyStr.strip x))
      (PyStr.split ","%char directive_list) in
  (match token with
   | None => true
   | Some t => token_eqb t user_agent_token
   end)
  && existsb (fun x => PyStr.mem x disallowed) directives.

Definition spec_is_disallowed (headers : headers_t)
    (user_agent_token : option string) (disallowed : list string) : bool :=
  existsb (spec_value_matches user_agent_token disallowed)
    (getall "X-Robots-Tag" headers).

(** ** Fetcher: [download_image] and [download_image_with_retry] *)

(** A Python value held in a row cell or a metadata record. *)
Inductive pyval : Type :=
| PNone
| PInt (z : Z)
| PStr (s : string)
| PBytes (b : string)
| PObject (repr : string).

(** What the HTTP session does on one request: [session.get(url)] raises on
    entering the [async with], or it yields a response with [headers], whose
    [read()] returns the body or raises, and whose release on leaving the
    [async with] may raise. *)
Inductive session_behaviour : Type :=
| GetRaises (err : exn)
| Responds (headers : headers_t) (read : result string) (aexit : option exn).

(** A fetch outcome, the triple [(key, img_stream, err)]. *)
Definition outcome : Type := Z * option string * option string.

Definition rejected_message : string :=
  "Use of image disallowed by X-Robots-Tag directive".

(** Truth value of [disallowed_header_directives]: [None] and the empty set
    are false. *)
Definition truthy (ds : option (list string)) : bool :=
  match ds with
  | Some (_ :: _) => true
  | _ => false
  end.

Definition directive_set (ds : option (list string)) : list string :=
  match ds with
  | Some l => l
  | None => []
  end.

(** Calls that [download_image] makes, in order. *)
Inductive fetch_event : Type :=
| PolicyFilterCalled
| BodyRead
| StreamClosed.

(** [download_image]: the outcome, and the calls made on the way. An
    exception raised in the [async with] block is first offered to the
    release of the response; what leaves the block, from the block or from
    the release, is caught by the [except] clause. *)
Definition download_image (row : Z * pyval) (session : session_behaviour)
    (user_agent_token : option string)
    (disallowed_header_directives : option (list string))
  : outcome * list fetch_event :=
  let (key, url) := row in
  match session with
  | GetRaises err => ((key, None, Some (str err)), [])
  | Responds headers read aexit =>
      if truthy disallowed_header_directives then
        if is_disallowed headers user_agent_token
             (directive_set disallowed_header_directives)
        then
          match aexit with
          | None => ((key, None, Some rejected_message), [PolicyFilterCalled])
          | Some err => ((key, None, Some (str err)), [PolicyFilterCalled])
          end
        else
          match read, aexit with
          | Ok body, None =>
              ((key, Some body, None), [PolicyFilterCalled; BodyRead])
          | Ok body, Some err =>
              ((key, None, Some (str err)),
               [PolicyFilterCalled; BodyRead; StreamClosed])
          | Raise err, None =>
              ((key, None, Some (str err)), [PolicyFilterCalled; BodyRead])
          | Raise _, Some err =>
              ((key, None, Some (str err)), [PolicyFilterCalled; BodyRead])
          end
      else
        match read, aexit with
        | Ok body, None => ((key, Some body, None), [BodyRead])
        | Ok body, Some err =>
            ((key, None, Some (str err)), [BodyRead; StreamClosed])
        | Raise err, None => ((key, None, Some (str err)), [BodyRead])
        | Raise _, Some err => ((key, None, Some (str err)), [BodyRead])
        end
  end.

(** The [for _ in range(...)] loop of [download_image_with_retry] with [n]
    iterations left, [i] requests already made and [last] the triple bound by
    the previous iteration. [session i] is what the session does on request
    number [i] (from 0). Returns the bound triple and the number of requests
    made. *)
Fixpoint retry_loop (n : nat) (i : nat) (last : option outcome)
    (row : Z * pyval) (session : nat -> session_behaviour)
    (user_agent_token : option string)
    (disallowed_header_directives : option (list string))
  : option outcome * nat :=
  match n with
  | O => (last, i)
  | S n' =>
      let o := fst (download_image row (session i) user_agent_token
                      disallowed_header_directives) in
      match o with
      | (_, Some _, _) => (Some o, S i)
      | (_, None, _) =>
          retry_loop n' (S i) (Some o) row session user_agent_token
            disallowed_header_directives
      end
  end.

(** [download_image_with_retry], inside the semaphore: the item put on the
    queue and the number of calls of [download_image]. With no iteration
    ([retries + 1 <= 0]) the names [key], [img_stream] and [err] are unbound
    at the [queue.put] and the coroutine raises. *)
Definition download_image_with_retry (row : Z * pyval)
    (session : nat -> session_behaviour) (retries : Z)
    (user_agent_token : option string)
    (disallowed_header_directives : option (list string))
  : result outcome * nat :=
  match retry_loop (Z.to_nat (retries + 1)) 0 None row session
          user_agent_token disallowed_header_directives with
  | (Some o, calls) => (Ok o, calls)
  | (None, calls) =>
      (Raise (Exception "local variable 'key' referenced before assignment"),
       calls)
  end.

(** [img_stream is not None] for the triple [o] *)
Definition has_payload (o : outcome) : bool :=
  match o with
  | (_, Some _, _) => true
  | (_, None, _) => false
  end.

(** The outcome of request number [i] for [row]. *)
Definition attempt (row : Z * pyval) (session : nat -> session_behaviour)
    (user_agent_token : option string)
    (disallowed_header_directives : option (list string)) (i : nat)
  : outcome :=
  fst (download_image row (session i) user_agent_token
         disallowed_header_directives).

(** The session raises [e] at some point of the request. *)
Definition raises (session : session_behaviour) (e : exn) : Prop :=
  match session with
  | GetRaises err => err = e
  | Responds _ read aexit => read = Raise e \/ aexit = Some e
  end.

(** ** Key codec: [compute_key] *)

(** [10**oom_sample_per_shard] is a [float] for a negative exponent, which
    the format code [d] refuses; a negative [key_format] gives a format
    specification that does not parse. *)
Definition compute_key (key shard_id oom_sample_per_shard oom_shard_count : Z)
  : result string :=
  if oom_sample_per_shard <? 0 then
    Raise (Exception "Unknown format code 'd' for object of type 'float'")
  else
    let true_key := 10 ^ oom_sample_per_shard * shard_id + key in
    let key_format := oom_sample_per_shard + oom_shard_count in
    if key_format <? 0 then Raise (Exception "Invalid format specifier")
    else Ok (PyStr.format_0d true_key key_format).

(** ** Lists, tuples and dicts *)

(** [l[i]] on a list or tuple: a negative index counts from the end, an
    index out of range raises [IndexError]. *)
Definition py_index {A} (l : list A) (i : Z) : result A :=
  let n := Z.of_nat (List.length l) in
  let j := if i <? 0 then i + n else i in
  if (0 <=? j) && (j <? n) then
    match nth_error l (Z.to_nat j) with
    | Some x => Ok x
    | None => Raise (Exception "list index out of range")
    end
  else Raise (Exception "list index out of range").

(** [l.index(x)] *)
Fixpoint index_from (x : string) (l : list string) (i : Z) : result Z :=
  match l with
  | [] => Raise (Exception "value is not in list")
  | y :: l' => if String.eqb y x then Ok i else index_from x l' (i + 1)
  end.

Definition list_index (x : string) (l : list string) : result Z :=
  index_from x l 0.

(** [list(enumerate(l))] *)
Fixpoint enumerate_from {A} (i : Z) (l : list A) : list (Z * A) :=
  match l with
  | [] => []
  | x :: l' => (i, x) :: enumerate_from (i + 1) l'
  end.

Definition enumerate {A} (l : list A) : list (Z * A) := enumerate_from 0 l.

(** [zip] applied to the unpacked columns: the rows of a list of columns,
    as many as the shortest column has. *)
Fixpoint zip_star {A} (cols : list (list A)) : list (list A) :=
  match cols with
  | [] => []
  | [c] => map (fun x => [x]) c
  | c :: cs => map (fun xr => fst xr :: snd xr) (combine c (zip_star cs))
  end.

(** A [dict] with string keys, in insertion order. *)
Definition dict : Type := list (string * pyval).

(** [d[k] = v] *)
Fixpoint dict_set (k : string) (v : pyval) (d : dict) : dict :=
  match d with
  | [] => [(k, v)]
  | (k', v') :: d' =>
      if String.eqb k' k then (k, v) :: d' else (k', v') :: dict_set k v d'
  end.

(** [d[k]], raising [KeyError] *)
Fixpoint dict_get {V} (k : string) (d : list (string * V)) : result V :=
  match d with
  | [] => Raise (Exception k)
  | (k', v) :: d' => if String.eqb k' k then Ok v else dict_get k d'
  end.

Definition opt_str (o : option string) : pyval :=
  match o with
  | Some s => PStr s
  | None => PNone
  end.

(** [[f(x) for x in l]] where [f] may raise *)
Fixpoint traverse {A B} (f : A -> result B) (l : list A) : result (list B) :=
  match l with
  | [] => Ok []
  | x :: l' => bind (f x) (fun y => bind (traverse f l') (fun ys => Ok (y :: ys)))
  end.

(** ** Collaborators *)

(** The arguments of one [sample_writer.write(img_str, key, caption, meta)]. *)
Record write_args : Type := {
  w_img : pyval;
  w_key : string;
  w_caption : pyval;
  w_meta : dict
}.

(** The sample writer class, with state [W]: the constructor, [write] and
    [close]; each may raise. *)
Record SampleWriter (W : Type) : Type := {
  sw_new : Z -> string -> bool -> Z -> list (string * string) -> string
           -> result W;
  sw_write : W -> write_args -> W * option exn;
  sw_close : W -> W * option exn
}.
Arguments sw_new {W} _ _ _ _ _ _ _.
Arguments sw_write {W} _ _ _.
Arguments sw_close {W} _ _.

(** What the resizer returns:
    [(img, width, height, original_width, original_height, error_message)]. *)
Record resized : Type := {
  img : pyval;
  width : pyval;
  height : pyval;
  original_width : pyval;
  original_height : pyval;
  resize_error : option string
}.

(** The fields of [AsyncDownloader]. *)
Record AsyncDownloader (W : Type) : Type := {
  sample_writer_class : SampleWriter W;
  resizer : string -> pyval -> result resized;
  thread_count : Z;
  save_caption : bool;
  extract_exif : bool;
  output_folder : string;
  column_list : list string;
  timeout : Z;
  number_sample_per_shard : Z;
  oom_shard_count : Z;
  compute_hash : option string;
  encode_format : string;
  retries : Z;
  user_agent_token : option string;
  disallowed_header_directives : option (list string);
  blurring_bbox_col : option string
}.
Arguments sample_writer_class {W} _.
Arguments resizer {W} _ _ _.
Arguments thread_count {W} _.
Arguments save_caption {W} _.
Arguments extract_exif {W} _.
Arguments output_folder {W} _.
Arguments column_list {W} _.
Arguments timeout {W} _.
Arguments number_sample_per_shard {W} _.
Arguments oom_shard_count {W} _.
Arguments compute_hash {W} _.
Arguments encode_format {W} _.
Arguments retries {W} _.
Arguments user_agent_token {W} _.
Arguments disallowed_header_directives {W} _.
Arguments blurring_bbox_col {W} _.

(** [AsyncDownloader.__init__]: the arguments are stored as given, but for
    the token and the directives, which are trimmed and lower-cased. *)
Definition init {W} (args : AsyncDownloader W) : AsyncDownloader W :=
  {| sample_writer_class := sample_writer_class args;
     resizer := resizer args;
     thread_count := thread_count args;
     save_caption := save_caption args;
     extract_exif := extract_exif args;
     output_folder := output_folder args;
     column_list := column_list args;
     timeout := timeout args;
     number_sample_per_shard := number_sample_per_shard args;
     oom_shard_count := oom_shard_count args;
     compute_hash := compute_hash args;
     encode_format := encode_format args;
     retries := retries args;
     user_agent_token := init_user_agent_token (user_agent_token args);
     disallowed_header_directives :=
       init_disallowed_header_directives (disallowed_header_directives args);
     blurring_bbox_col := blurring_bbox_col args |}.

(** The arguments of [write_stats], the two clock readings left out. *)
Record stats : Type := {
  st_output_folder : string;
  st_shard_id : Z;
  st_count : Z;
  st_successes : Z;
  st_failed_to_download : Z;
  st_failed_to_resize : Z;
  st_status_dict : list string;
  st_oom_shard_count : Z
}.

(** The libraries and services the module calls.
    - [read_shard path]: [fs.open] and [pa.ipc.open_file(f).read_all()], the
      schema and the columns of the table;
    - [http key i]: what the session does on request number [i] for the row
      [key];
    - [ceil_log10 n]: [math.ceil(math.log10(n))], a floating point
      computation, which raises for [n <= 0];
    - [hashlib name]: [getattr(hashlib, name)], absent for an unknown name,
      composed with [hexdigest];
    - [exif_json bytes]: the JSON text of the EXIF tags, absent when the
      extraction raises;
    - [write_stats] and [fs_rm]: the statistics writer and [fs.rm]. *)
Record World : Type := {
  read_shard : string
               -> result (list (string * string) * list (string * list pyval));
  http : Z -> nat -> session_behaviour;
  ceil_log10 : Z -> result Z;
  hashlib : string -> option (string -> string);
  exif_json : string -> option string;
  write_stats : stats -> option exn;
  fs_rm : string -> option exn
}.

(** ** Outcome processor: the body of the loop of [save_task] *)

(** What [save_task] reads and writes: the three tallies, the status counter,
    the sample writer, and two records kept for the proofs, the calls of
    [sample_writer.write] with the local key being processed and the lines
    printed by the [except] clause, both oldest first. The [CappedCounter] is
    defined in [logger.py]; it is kept as the labels passed to its
    [increment], oldest first. *)
Record consumer (W : Type) : Type := {
  successes : Z;
  failed_to_download : Z;
  failed_to_resize : Z;
  status_dict : list string;
  sample_writer : W;
  writes : list (Z * write_args);
  printed : list (Z * exn)
}.
Arguments successes {W} _.
Arguments failed_to_download {W} _.
Arguments failed_to_resize {W} _.
Arguments status_dict {W} _.
Arguments sample_writer {W} _.
Arguments writes {W} _.
Arguments printed {W} _.

(** Code that updates the consumer's variables and may raise. *)
Definition M (W A : Type) : Type := consumer W -> consumer W * result A.

Definition ret {W A} (a : A) : M W A := fun c => (c, Ok a).

Definition raise {W A} (e : exn) : M W A := fun c => (c, Raise e).

Definition lift {W A} (r : result A) : M W A := fun c => (c, r).

Definition bindM {W A B} (m : M W A) (k : A -> M W B) : M W B :=
  fun c =>
    match m c with
    | (c', Ok a) => k a c'
    | (c', Raise e) => (c', Raise e)
    end.

Notation "x <- m ;; k" := (bindM m (fun x => k))
  (at level 61, m at next level, right associativity).
Notation "m ;; k" := (bindM m (fun _ => k))
  (at level 61, right associativity).

Section SaveTask.

Context {W : Type}.
Variable self : AsyncDownloader W.
Variable world : World.

(** Variables of [download_shard] that the closures capture. *)
Variable shard_id : Z.
Variable shard_to_dl : list (Z * list pyval).
Variable oom_sample_per_shard : Z.
Variable caption_indice : option Z.
Variable bbox_indice : option Z.

(** [failed_to_download += 1] *)
Definition add_failed_to_download : M W unit :=
  fun c =>
    ({| successes := successes c;
        failed_to_download := failed_to_download c + 1;
        failed_to_resize := failed_to_resize c;
        status_dict := status_dict c;
        sample_writer := sample_writer c;
        writes := writes c;
        printed := printed c |}, Ok tt).

(** [failed_to_resize += 1] *)
Definition add_failed_to_resize : M W unit :=
  fun c =>
    ({| successes := successes c;
        failed_to_download := failed_to_download c;
        failed_to_resize := failed_to_resize c + 1;
        status_dict := status_dict c;
        sample_writer := sample_writer c;
        writes := writes c;
        printed := printed c |}, Ok tt).

(** [successes += 1] *)
Definition add_successes : M W unit :=
  fun c =>
    ({| successes := successes c + 1;
        failed_to_download := failed_to_download c;
        failed_to_resize := failed_to_resize c;
        status_dict := status_dict c;
        sample_writer := sample_writer c;
        writes := writes c;
        printed := printed c |}, Ok tt).

(** [status_dict.increment(label)] *)
Definition status_increment (label : string) : M W unit :=
  fun c =>
    ({| successes := successes c;
        failed_to_download := failed_to_download c;
        failed_to_resize := failed_to_resize c;
        status_dict := status_dict c ++ [label];
        sample_writer := sample_writer c;
        writes := writes c;
        printed := printed c |}, Ok tt).

(** [sample_data[caption_indice] if caption_indice is not None else None] *)
Definition caption_of (sample_data : list pyval) : result pyval :=
  match caption_indice with
  | Some i => py_index sample_data i
  | None => Ok PNone
  end.

(** [sample_writer.write(img, str_key, caption, meta)] while the row [key]
    is processed: the caption argument is evaluated, then the call is made
    and recorded, whether it returns or raises. *)
Definition write (key : Z) (img_str : pyval) (str_key : string)
    (sample_data : list pyval) (meta : dict) : M W unit :=
  caption <- lift (caption_of sample_data) ;;
  fun c =>
    let args := {| w_img := img_str; w_key := str_key;
                   w_caption := caption; w_meta := meta |} in
    let (w', r) := sw_write (sample_writer_class self) (sample_writer c) args in
    ({| successes := successes c;
        failed_to_download := failed_to_download c;
        failed_to_resize := failed_to_resize c;
        status_dict := status_dict c;
        sample_writer := w';
        writes := writes c ++ [(key, args)];
        printed := printed c |},
     match r with
     | None => Ok tt
     | Some e => Raise e
     end).

(** [{self.column_list[i]: sample_data[i] for i in range(len(...))}] *)
Fixpoint row_dict (cols : list string) (i : Z) (sample_data : list pyval)
    (d : dict) : result dict :=
  match cols with
  | [] => Ok d
  | col :: cols' =>
      bind (py_index sample_data i)
        (fun v => row_dict cols' (i + 1) sample_data (dict_set col v d))
  end.

(** The metadata record as first built (lines 223-236). *)
Definition new_meta (sample_data : list pyval) (str_key : string)
    (error_message : option string) : result dict :=
  bind (row_dict (column_list self) 0 sample_data [])
    (fun d =>
       let d := dict_set "key" (PStr str_key) d in
       let d := dict_set "status" PNone d in
       let d := dict_set "error_message" (opt_str error_message) d in
       let d := dict_set "width" PNone d in
       let d := dict_set "height" PNone d in
       let d := dict_set "original_width" PNone d in
       let d := dict_set "original_height" PNone d in
       let d := if extract_exif self then dict_set "exif" PNone d else d in
       let d := match compute_hash self with
                | Some name => dict_set name PNone d
                | None => d
                end in
       Ok d).

(** The [try] block of [save_task] for one dequeued triple (lines 221-309).
    Closing the payload stream is not recorded. *)
Definition save_body (key : Z) (img_stream : option string)
    (error_message : option string) : M W unit :=
  entry <- lift (py_index shard_to_dl key) ;;
  let sample_data := snd entry in
  str_key <- lift (compute_key key shard_id oom_sample_per_shard
                     (oom_shard_count self)) ;;
  meta <- lift (new_meta sample_data str_key error_message) ;;
  match error_message with
  | Some msg =>
      add_failed_to_download ;;
      status_increment msg ;;
      let meta := dict_set "status" (PStr "failed_to_download") meta in
      write key PNone str_key sample_data meta
  | None =>
      (* img_stream.seek(0) *)
      stream <- lift (match img_stream with
                      | Some b => Ok b
                      | None =>
                          Raise (Exception
                                   "'NoneType' object has no attribute 'seek'")
                      end) ;;
      bbox_list <- lift (match bbox_indice with
                         | Some i => py_index sample_data i
                         | None => Ok PNone
                         end) ;;
      r <- lift (resizer self stream bbox_list) ;;
      match resize_error r with
      | Some msg =>
          add_failed_to_resize ;;
          status_increment msg ;;
          let meta := dict_set "status" (PStr "failed_to_resize") meta in
          let meta := dict_set "error_message" (PStr msg) meta in
          write key PNone str_key sample_data meta
      | None =>
          add_successes ;;
          status_increment "success" ;;
          let meta :=
            if extract_exif self
            then dict_set "exif" (opt_str (exif_json world stream)) meta
            else meta in
          meta <- match compute_hash self with
                  | Some name =>
                      match hashlib world name with
                      | Some digest =>
                          ret (dict_set name (PStr (digest stream)) meta)
                      | None =>
                          raise (Exception
                                   "module 'hashlib' has no attribute")
                      end
                  | None => ret meta
                  end ;;
          let meta := dict_set "status" (PStr "success") meta in
          let meta := dict_set "width" (width r) meta in
          let meta := dict_set "height" (height r) meta in
          let meta := dict_set "original_width" (original_width r) meta in
          let meta := dict_set "original_height" (original_height r) meta in
          write key (img r) str_key sample_data meta
      end
  end.

(** How a row is counted. *)
Inductive status : Type :=
| Success
| FailedToDownload
| FailedToResize.

(** The part of the [try] block that decides how the row is counted
    (lines 221-222, 223-236, 237, 249-259): the status and the label given
    to the status counter, or the exception raised before the row is
    counted. *)
Definition classify (key : Z) (img_stream : option string)
    (error_message : option string) : result (status * string) :=
  bind (py_index shard_to_dl key) (fun entry =>
  let sample_data := snd entry in
  bind (compute_key key shard_id oom_sample_per_shard (oom_shard_count self))
    (fun str_key =>
  bind (new_meta sample_data str_key error_message) (fun _ =>
  match error_message with
  | Some msg => Ok (FailedToDownload, msg)
  | None =>
      bind (match img_stream with
            | Some b => Ok b
            | None =>
                Raise (Exception "'NoneType' object has no attribute 'seek'")
            end) (fun stream =>
      bind (match bbox_indice with
            | Some i => py_index sample_data i
            | None => Ok PNone
            end) (fun bbox_list =>
      bind (resizer self stream bbox_list) (fun r =>
      match resize_error r with
      | Some msg => Ok (FailedToResize, msg)
      | None => Ok (Success, "success"%string)
      end)))
  end))).

(** The three tallies, and the tallies after one row is counted. *)
Definition tallies (c : consumer W) : Z * Z * Z :=
  (successes c, failed_to_download c, failed_to_resize c).

Definition bump (st : status) (t : Z * Z * Z) : Z * Z * Z :=
  let '(s, d, r) := t in
  match st with
  | Success => (s + 1, d, r)
  | FailedToDownload => (s, d + 1, r)
  | FailedToResize => (s, d, r + 1)
  end.

(** The [except] clause: the traceback and the line
    [Sample {key} failed to download: {err}]. *)
Definition print_failure (key : Z) (err : exn) (c : consumer W)
  : consumer W :=
  {| successes := successes c;
     failed_to_download := failed_to_download c;
     failed_to_resize := failed_to_resize c;
     status_dict := status_dict c;
     sample_writer := sample_writer c;
     writes := writes c;
     printed := printed c ++ [(key, err)] |}.

(** One pass of the loop for a triple that is not the sentinel: the [try]
    block, and the [except] clause when it raises. The exception is
    returned for the record; the loop does not see it. *)
Definition save_item (o : outcome) (c : consumer W)
  : consumer W * option exn :=
  let '(key, img_stream, error_message) := o in
  match save_body key img_stream error_message c with
  | (c', Ok _) => (c', None)
  | (c', Raise err) => (print_failure key err c', Some err)
  end.

End SaveTask.

(** ** Pipeline coordinator: the event loop of [run] *)

(** A [download_image_with_retry] coroutine: waiting for the semaphore,
    holding it, returned, or ended by an exception. *)
Inductive task_state : Type :=
| Waiting
| Running
| Finished
| Crashed.

(** An item of the queue; [Sentinel] is [("finish", "finish", "finish")]. The
    test of line 218 holds for no fetched triple, whose key is an [int]. *)
Inductive item : Type :=
| Fetched (o : outcome)
| Sentinel.

(** [download_task]: awaiting [gather], awaiting [data_queue.join()],
    returned, or ended by an exception of a gathered coroutine. *)
Inductive download_task_state : Type :=
| Gathering
| Joining
| Returned
| Died.

(** The state of the event loop. [unfinished_tasks] is the counter of the
    [asyncio.Queue]: [put] adds one, [task_done] takes one, [join] waits for
    zero. *)
Record loop (W : Type) : Type := {
  tasks : list task_state;
  semaphore : Z;
  data_queue : list item;
  unfinished_tasks : Z;
  download_task : download_task_state;
  save_task_returned : bool;
  cons : consumer W
}.
Arguments tasks {W} _.
Arguments semaphore {W} _.
Arguments data_queue {W} _.
Arguments unfinished_tasks {W} _.
Arguments download_task {W} _.
Arguments save_task_returned {W} _.
Arguments cons {W} _.

(** The steps the scheduler chooses between. *)
Inductive event : Type :=
| Acquire (i : nat)
| Complete (i : nat)
| PutSentinel
| JoinReturns
| Get.

(** The local variables of [download_shard] once the shard is loaded. *)
Record shard_locals (W : Type) : Type := {
  l_shard_id : Z;
  l_shard_path : string;
  l_schema : list (string * string);
  l_shard_to_dl : list (Z * list pyval);
  l_count : Z;
  l_caption_indice : option Z;
  l_bbox_indice : option Z;
  l_key_url_list : list (Z * pyval);
  l_sample_writer : W;
  l_oom_sample_per_shard : Z
}.
Arguments l_shard_id {W} _.
Arguments l_shard_path {W} _.
Arguments l_schema {W} _.
Arguments l_shard_to_dl {W} _.
Arguments l_count {W} _.
Arguments l_caption_indice {W} _.
Arguments l_bbox_indice {W} _.
Arguments l_key_url_list {W} _.
Arguments l_sample_writer {W} _.
Arguments l_oom_sample_per_shard {W} _.

Fixpoint set_nth {A} (i : nat) (x : A) (l : list A) : list A :=
  match l, i with
  | [], _ => []
  | _ :: l', O => x :: l'
  | y :: l', S i' => y :: set_nth i' x l'
  end.

Definition is_finished (t : task_state) : bool :=
  match t with
  | Finished => true
  | _ => false
  end.

(** The schedule that fetches the rows one after the other, from row [i]
    on, then puts the sentinel and consumes the queue. *)
Fixpoint fetch_all (i : nat) (n : nat) : list event :=
  match n with
  | O => []
  | S n' => Acquire i :: Complete i :: fetch_all (S i) n'
  end.

Definition sequential (n : nat) : list event :=
  fetch_all 0 n ++ PutSentinel :: repeat Get (S n).

(** The keys of the fetched triples of a queue. *)
Fixpoint queue_keys (q : list item) : list Z :=
  match q with
  | [] => []
  | Fetched o :: q' => fst (fst o) :: queue_keys q'
  | Sentinel :: q' => queue_keys q'
  end.

(** The keys of the rows whose coroutine has put nothing on the queue. *)
Fixpoint open_keys (ts : list task_state) (rows : list (Z * pyval))
  : list Z :=
  match ts, rows with
  | t :: ts', row :: rows' =>
      if is_finished t then open_keys ts' rows'
      else fst row :: open_keys ts' rows'
  | _, _ => []
  end.

Section Pipeline.

Context {W : Type}.
Variable self : AsyncDownloader W.
Variable world : World.
Variable loc : shard_locals W.

(** The state when [run] has made the semaphore and the queue and has
    scheduled [download_task]. *)
Definition loop_start : loop W :=
  {| tasks := map (fun _ => Waiting) (l_key_url_list loc);
     semaphore := thread_count self;
     data_queue := [];
     unfinished_tasks := 0;
     download_task := Gathering;
     save_task_returned := false;
     cons := {| successes := 0;
                failed_to_download := 0;
                failed_to_resize := 0;
                status_dict := [];
                sample_writer := l_sample_writer loc;
                writes := [];
                printed := [] |} |}.

(** What coroutine number [i] puts on the queue. *)
Definition fetch (row : Z * pyval) : result outcome :=
  fst (download_image_with_retry row (http world (fst row)) (retries self)
         (user_agent_token self) (disallowed_header_directives self)).

(** One step of the event loop, when it is enabled.
    - [Acquire i]: coroutine [i] enters the semaphore.
    - [Complete i]: coroutine [i] has made its requests, which touch
      nothing the other coroutines see; it puts its triple and leaves the
      semaphore, or it raises, which ends the [gather] of [download_task].
    - [PutSentinel]: all coroutines have returned; [download_task] puts the
      sentinel and starts to wait on [join].
    - [JoinReturns]: the counter of the queue is zero.
    - [Get]: [save_task] takes the head of the queue: on the sentinel it
      leaves the loop, before the [try] statement; on any other triple it
      runs the body and, in the [finally] clause, [task_done]. *)
Definition step (ev : event) (l : loop W) : option (loop W) :=
  match ev with
  | Acquire i =>
      match nth_error (tasks l) i with
      | Some Waiting =>
          if 0 <? semaphore l then
            Some {| tasks := set_nth i Running (tasks l);
                    semaphore := semaphore l - 1;
                    data_queue := data_queue l;
                    unfinished_tasks := unfinished_tasks l;
                    download_task := download_task l;
                    save_task_returned := save_task_returned l;
                    cons := cons l |}
          else None
      | _ => None
      end
  | Complete i =>
      match nth_error (tasks l) i, nth_error (l_key_url_list loc) i with
      | Some Running, Some row =>
          match fetch row with
          | Ok o =>
              Some {| tasks := set_nth i Finished (tasks l);
                      semaphore := semaphore l + 1;
                      data_queue := data_queue l ++ [Fetched o];
                      unfinished_tasks := unfinished_tasks l + 1;
                      download_task := download_task l;
                      save_task_returned := save_task_returned l;
                      cons := cons l |}
          | Raise _ =>
              Some {| tasks := set_nth i Crashed (tasks l);
                      semaphore := semaphore l + 1;
                      data_queue := data_queue l;
                      unfinished_tasks := unfinished_tasks l;
                      download_task :=
                        match download_task l with
                        | Gathering => Died
                        | s => s
                        end;
                      save_task_returned := save_task_returned l;
                      cons := cons l |}
          end
      | _, _ => None
      end
  | PutSentinel =>
      match download_task l with
      | Gathering =>
          if forallb is_finished (tasks l) then
            Some {| tasks := tasks l;
                    semaphore := semaphore l;
                    data_queue := data_queue l ++ [Sentinel];
                    unfinished_tasks := unfinished_tasks l + 1;
                    download_task := Joining;
                    save_task_returned := save_task_returned l;
                    cons := cons l |}
          else None
      | _ => None
      end
  | JoinReturns =>
      match download_task l with
      | Joining =>
          if unfinished_tasks l =? 0 then
            Some {| tasks := tasks l;
                    semaphore := semaphore l;
                    data_queue := data_queue l;
                    unfinished_tasks := unfinished_tasks l;
                    download_task := Returned;
                    save_task_returned := save_task_returned l;
                    cons := cons l |}
          else None
      | _ => None
      end
  | Get =>
      if save_task_returned l then None
      else
        match data_queue l with
        | [] => None
        | Sentinel :: q =>
            Some {| tasks := tasks l;
                    semaphore := semaphore l;
                    data_queue := q;
                    unfinished_tasks := unfinished_tasks l;
                    download_task := download_task l;
                    save_task_returned := true;
                    cons := cons l |}
        | Fetched o :: q =>
            Some {| tasks := tasks l;
                    semaphore := semaphore l;
                    data_queue := q;
                    unfinished_tasks := unfinished_tasks l - 1;
                    download_task := download_task l;
                    save_task_returned := save_task_returned l;
                    cons := fst (save_item self world (l_shard_id loc)
                                   (l_shard_to_dl loc)
                                   (l_oom_sample_per_shard loc)
                                   (l_caption_indice loc)
                                   (l_bbox_indice loc) o (cons l)) |}
        end
  end.

(** The state after coroutine [i] has entered the semaphore, and after it
    has put the triple [o]. *)
Definition acquired (i : nat) (l : loop W) : loop W :=
  {| tasks := set_nth i Running (tasks l);
     semaphore := semaphore l - 1;
     data_queue := data_queue l;
     unfinished_tasks := unfinished_tasks l;
     download_task := download_task l;
     save_task_returned := save_task_returned l;
     cons := cons l |}.

Definition completed (i : nat) (o : outcome) (l : loop W) : loop W :=
  {| tasks := set_nth i Finished (tasks l);
     semaphore := semaphore l + 1;
     data_queue := data_queue l ++ [Fetched o];
     unfinished_tasks := unfinished_tasks l + 1;
     download_task := download_task l;
     save_task_returned := save_task_returned l;
     cons := cons l |}.

(** The steps of a schedule, in order; [None] when one is not enabled. *)
Fixpoint exec (sched : list event) (l : loop W) : option (loop W) :=
  match sched with
  | [] => Some l
  | ev :: sched' =>
      match step ev l with
      | Some l' => exec sched' l'
      | None => None
      end
  end.

(** The states of the event loop that a shard run can be in. *)
Definition reachable (l : loop W) : Prop :=
  exists sched, exec sched loop_start = Some l.

(** The sentinel is put once, after every triple, when all coroutines
    have returned; it is the last item the consumer takes. *)
Definition queue_shape (l : loop W) : Prop :=
  match download_task l with
  | Gathering | Died =>
      save_task_returned l = false /\ ~ In Sentinel (data_queue l)
  | Joining =>
      forallb is_finished (tasks l) = true
      /\ if save_task_returned l then data_queue l = []
         else exists q, data_queue l = q ++ [Sentinel] /\ ~ In Sentinel q
  | Returned => False
  end.

(** What holds of every state of the event loop:
    - there is a coroutine for every row of the work list;
    - the counter of the queue is the number of items on it, plus one
      for the sentinel once [save_task] has taken it;
    - the queue has the shape above;
    - every key of the work list is accounted for once: it was passed to
      the writer, or it was skipped by a pass of the loop that printed a
      failure, or it is on the queue, or its coroutine has put nothing. *)
Definition loop_invariant (l : loop W) : Prop :=
  List.length (tasks l) = List.length (l_key_url_list loc)
  /\ unfinished_tasks l
     = Z.of_nat (List.length (data_queue l))
       + (if save_task_returned l then 1 else 0)
  /\ queue_shape l
  /\ exists skipped,
      Permutation
        (map fst (writes (cons l)) ++ skipped
           ++ queue_keys (data_queue l)
           ++ open_keys (tasks l) (l_key_url_list loc))
        (map fst (l_key_url_list loc))
      /\ incl skipped (map fst (printed (cons l))).

End Pipeline.

(** ** Shard runner: [download_shard] and [__call__] *)

(** How a call ends: it returns, it raises, or, under the schedule given, the
    event loop has not brought [run] to its end. *)
Inductive completion (A : Type) : Type :=
| Returns (a : A)
| Raises (e : exn)
| Pending.
Arguments Returns {A} a.
Arguments Raises {A} e.
Arguments Pending {A}.

(** Calls of [download_shard] that have returned, after the prologue. *)
Inductive effect : Type :=
| SaveTaskReturned
| WriterClosed
| StatsWritten (s : stats)
| ShardRemoved (path : string).

(** A run of [download_shard]: how it ends, the calls made, oldest first, and
    the state the event loop was left in. *)
Record shard_run (W : Type) : Type := {
  outcome_of : completion unit;
  effects : list effect;
  last_loop : option (loop W)
}.
Arguments outcome_of {W} _.
Arguments effects {W} _.
Arguments last_loop {W} _.

Section ShardRunner.

Context {W : Type}.
Variable self : AsyncDownloader W.
Variable world : World.

(** The output schema (lines 152-166). *)
Definition output_schema (schema : list (string * string))
  : list (string * string) :=
  let schema :=
    schema ++ [("key", "string"); ("status", "string");
               ("error_message", "string"); ("width", "int32");
               ("height", "int32"); ("original_width", "int32");
               ("original_height", "int32")]%string in
  let schema :=
    if extract_exif self then schema ++ [("exif", "string")]%string
    else schema in
  match compute_hash self with
  | Some name => schema ++ [(name, "string"%string)]
  | None => schema
  end.

(** Lines 146-193: the shard is read, the rows and the work list are built,
    the writer is made and the digit width is computed. *)
Definition prepare (row : Z * string) : result (shard_locals W) :=
  let (shard_id, shard_file) := row in
  bind (read_shard world shard_file) (fun table =>
  let schema := output_schema (fst table) in
  bind (traverse (fun col => dict_get col (snd table)) (column_list self))
    (fun cols =>
  let shard_to_dl := enumerate (zip_star cols) in
  let count := Z.of_nat (List.length shard_to_dl) in
  bind (list_index "url" (column_list self)) (fun url_indice =>
  let caption_indice :=
    if PyStr.mem "caption" (column_list self) then
      match list_index "caption" (column_list self) with
      | Ok i => Some i
      | Raise _ => None
      end
    else None in
  bind (match blurring_bbox_col self with
        | Some col => bind (list_index col (column_list self))
                        (fun i => Ok (Some i))
        | None => Ok None
        end) (fun bbox_indice =>
  bind (traverse (fun kx => bind (py_index (snd kx) url_indice)
                              (fun url => Ok (fst kx, url)))
          shard_to_dl) (fun key_url_list =>
  bind (sw_new (sample_writer_class self) shard_id (output_folder self)
          (save_caption self) (oom_shard_count self) schema
          (encode_format self)) (fun sample_writer =>
  bind (ceil_log10 world (number_sample_per_shard self))
    (fun oom_sample_per_shard =>
  Ok {| l_shard_id := shard_id;
        l_shard_path := shard_file;
        l_schema := schema;
        l_shard_to_dl := shard_to_dl;
        l_count := count;
        l_caption_indice := caption_indice;
        l_bbox_indice := bbox_indice;
        l_key_url_list := key_url_list;
        l_sample_writer := sample_writer;
        l_oom_sample_per_shard := oom_sample_per_shard |}))))))).

(** [asyncio.run(run())] under a schedule: [asyncio.Semaphore] refuses a
    negative value; [run] awaits [save_task] alone and then closes the
    writer; leaving, the event loop cancels what is left of
    [download_task]. *)
Definition asyncio_run (loc : shard_locals W) (sched : list event)
  : completion (loop W) * list effect :=
  if thread_count self <? 0 then
    (Raises (Exception "Semaphore initial value must be >= 0"), [])
  else
    match exec self world loc sched (loop_start self loc) with
    | Some l =>
        if save_task_returned l then
          match sw_close (sample_writer_class self)
                  (sample_writer (cons l)) with
          | (_, None) => (Returns l, [SaveTaskReturned; WriterClosed])
          | (_, Some err) => (Raises err, [SaveTaskReturned])
          end
        else (Pending, [])
    | None => (Pending, [])
    end.

(** The arguments of [write_stats] (lines 327-338). *)
Definition shard_stats (loc : shard_locals W) (c : consumer W) : stats :=
  {| st_output_folder := output_folder self;
     st_shard_id := l_shard_id loc;
     st_count := l_count loc;
     st_successes := successes c;
     st_failed_to_download := failed_to_download c;
     st_failed_to_resize := failed_to_resize c;
     st_status_dict := status_dict c;
     st_oom_shard_count := oom_shard_count self |}.

Definition download_shard (sched : list event) (row : Z * string)
  : shard_run W :=
  match prepare row with
  | Raise err =>
      {| outcome_of := Raises err; effects := []; last_loop := None |}
  | Ok loc =>
      match asyncio_run loc sched with
      | (Pending, effs) =>
          {| outcome_of := Pending; effects := effs; last_loop := None |}
      | (Raises err, effs) =>
          {| outcome_of := Raises err; effects := effs; last_loop := None |}
      | (Returns l, effs) =>
          let s := shard_stats loc (cons l) in
          match write_stats world s with
          | Some err =>
              {| outcome_of := Raises err; effects := effs;
                 last_loop := Some l |}
          | None =>
              match fs_rm world (l_shard_path loc) with
              | Some err =>
                  {| outcome_of := Raises err;
                     effects := effs ++ [StatsWritten s];
                     last_loop := Some l |}
              | None =>
                  {| outcome_of := Returns tt;
                     effects :=
                       effs ++ [StatsWritten s;
                                ShardRemoved (l_shard_path loc)];
                     last_loop := Some l |}
              end
          end
      end
  end.

(** [AsyncDownloader.__call__]: the pair returned and, from the [except]
    clause, the shard id and the error printed. *)
Definition call (sched : list event) (row : Z * string)
  : completion (bool * (Z * string)) * option (Z * exn) :=
  match outcome_of (download_shard sched row) with
  | Returns _ => (Returns (true, row), None)
  | Raises err => (Returns (false, row), Some (fst row, err))
  | Pending => (Pending, None)
  end.

End ShardRunner.

(** ** A small installation, for examples

    A writer that keeps what it is given in a list, a resizer that returns
    the bytes as they are and refuses the empty payload, and a world with
    one shard of two rows. *)

Module Demo.

Definition writer : SampleWriter (list write_args) :=
  {| sw_new := fun _ _ _ _ _ _ => Ok [];
     sw_write := fun w a => (w ++ [a], None);
     sw_close := fun w => (w, None) |}.

(** A writer whose [write] always raises. *)
Definition full_writer : SampleWriter (list write_args) :=
  {| sw_new := fun _ _ _ _ _ _ => Ok [];
     sw_write := fun w a => (w, Some (Exception "No space left on device"));
     sw_close := fun w => (w, None) |}.

Definition resize (stream : string) (bbox_list : pyval) : result resized :=
  match stream with
  | EmptyString =>
      Ok {| img := PNone; width := PNone; height := PNone;
            original_width := PNone; original_height := PNone;
            resize_error := Some "cannot identify image file"%string |}
  | _ =>
      Ok {| img := PBytes stream; width := PInt 1; height := PInt 1;
            original_width := PInt 1; original_height := PInt 1;
            resize_error := None |}
  end.

Definition downloader (w : SampleWriter (list write_args)) (r : Z)
  : AsyncDownloader (list write_args) :=
  init {| sample_writer_class := w;
          resizer := resize;
          thread_count := 1;
          save_caption := false;
          extract_exif := false;
          output_folder := "out";
          column_list := ["url"%string];
          timeout := 10;
          number_sample_per_shard := 100;
          oom_shard_count := 1;
          compute_hash := None;
          encode_format := "jpg";
          retries := r;
          user_agent_token := None;
          disallowed_header_directives := None;
          blurring_bbox_col := None |}.

Definition refused : session_behaviour :=
  GetRaises (Exception "Connection refused").

Definition timed_out : session_behaviour :=
  GetRaises (Exception "Timeout").

Definition reset : session_behaviour :=
  Responds [] (Raise (Exception "Connection reset")) None.

Definition served (body : string) : session_behaviour :=
  Responds [] (Ok body) None.

(** Row 0 is served at the third request; row 1 is never served. *)
Definition sessions (key : Z) (i : nat) : session_behaviour :=
  if key =? 0 then
    match i with
    | O => refused
    | S O => timed_out
    | _ => served "abc"
    end
  else
    match i with
    | O => refused
    | S O => timed_out
    | _ => reset
    end.

(** [ceil(log10(n))] is taken exact on the sizes used here. *)
Definition log10_up (n : Z) : result Z :=
  if n <=? 0 then Raise (Exception "math domain error")
  else if n <=? 1 then Ok 0
  else if n <=? 10 then Ok 1
  else if n <=? 100 then Ok 2
  else Ok 3.

Definition table (path : string)
  : result (list (string * string) * list (string * list pyval)) :=
  if String.eqb path "two.feather" then
    Ok ([("url", "string")],
        [("url", [PStr "http://a/0.jpg"; PStr "http://a/1.jpg"])])%string
  else if String.eqb path "empty.feather" then
    Ok ([("url", "string")], [("url", [])])%string
  else Raise (Exception "No such file or directory").

Definition world : World :=
  {| read_shard := table;
     http := sessions;
     ceil_log10 := log10_up;
     hashlib := fun _ => None;
     exif_json := fun _ => None;
     write_stats := fun _ => None;
     fs_rm := fun _ => None |}.

(** The two rows are fetched one after the other, then consumed. *)
Definition in_turn : list event :=
  [Acquire 0; Complete 0; Acquire 1; Complete 1; PutSentinel; Get; Get; Get].

(** Row 1 arrives first and is consumed while row 0 is in flight. *)
Definition out_of_turn : list event :=
  [Acquire 1; Complete 1; Get; Acquire 0; Complete 0; Get; PutSentinel; Get].

(** The locals of [download_shard] for shard 3, the shard of two rows. *)
Definition locals (w : SampleWriter (list write_args))
  : shard_locals (list write_args) :=
  {| l_shard_id := 3;
     l_shard_path := "two.feather";
     l_schema := output_schema (downloader w 2) [("url", "string")]%string;
     l_shard_to_dl := [(0, [PStr "http://a/0.jpg"]);
                       (1, [PStr "http://a/1.jpg"])];
     l_count := 2;
     l_caption_indice := None;
     l_bbox_indice := None;
     l_key_url_list := [(0, PStr "http://a/0.jpg");
                        (1, PStr "http://a/1.jpg")];
     l_sample_writer := [];
     l_oom_sample_per_shard := 2 |}.

(** The event loop with the failure of row 1 on the queue. *)
Definition row1_queued (w : SampleWriter (list write_args))
  : loop (list write_args) :=
  {| tasks := [Waiting; Finished];
     semaphore := 1;
     data_queue := [Fetched (1, None, Some "Connection reset"%string)];
     unfinished_tasks := 1;
     download_task := Gathering;
     save_task_returned := false;
     cons := cons (loop_start (downloader w 2) (locals w)) |}.

(** The event loop after [in_turn]. *)
Definition after_in_turn : loop (list write_args) :=
  match exec (downloader writer 2) world (locals writer) in_turn
          (loop_start (downloader writer 2) (locals writer)) with
  | Some l => l
  | None => loop_start (downloader writer 2) (locals writer)
  end.

End Demo.


(** A string that does not begin with white space. *)
Definition clean_start (s : string) : bool :=
  match s with
  | EmptyString => true
  | String c _ => negb (PyStr.isspace c)
  end.

(** [value] has no colon, so names no token. *)
Definition names_no_token (value : string) : bool :=
  match snd (PyStr.partition ":" value) with
  | None => true
  | Some _ => false
  end.

(** The token of [value] has no white space around it; a value with no
    colon names no token. *)
Definition token_is_trimmed (value : string) : bool :=
  match PyStr.partition ":" value with
  | (token, Some _) => String.eqb (PyStr.strip token) token
  | (_, None) => true
  end.

(** The status tag written for a row. *)
Definition status_name (st : status) : string :=
  match st with
  | Success => "success"
  | FailedToDownload => "failed_to_download"
  | FailedToResize => "failed_to_resize"
  end.

(** A record given to the writer is well formed: its status tag is one of
    the three, the payload is null unless the status is [success], and,
    unless the hash is stored under the name [key], its [key] field is the
    sample key. *)
Definition record_ok {W} (self : AsyncDownloader W) (a : write_args) : Prop :=
  exists st,
    dict_get "status" (w_meta a) = Ok (PStr (status_name st))
    /\ (st <> Success -> w_img a = PNone)
    /\ (compute_hash self <> Some "key"%string ->
        dict_get "key" (w_meta a) = Ok (PStr (w_key a))).

(** The downloader with another resizer. *)
Definition with_resizer {W} (r : string -> pyval -> result resized)
    (self : AsyncDownloader W) : AsyncDownloader W :=
  {| sample_writer_class := sample_writer_class self;
     resizer := r;
     thread_count := thread_count self;
     save_caption := save_caption self;
     extract_exif := extract_exif self;
     output_folder := output_folder self;
     column_list := column_list self;
     timeout := timeout self;
     number_sample_per_shard := number_sample_per_shard self;
     oom_shard_count := oom_shard_count self;
     compute_hash := compute_hash self;
     encode_format := encode_format self;
     retries := retries self;
     user_agent_token := user_agent_token self;
     disallowed_header_directives := disallowed_header_directives self;
     blurring_bbox_col := blurring_bbox_col self |}.

(** The downloader with another size of the semaphore. *)
Definition with_thread_count {W} (n : Z) (self : AsyncDownloader W)
  : AsyncDownloader W :=
  {| sample_writer_class := sample_writer_class self;
     resizer := resizer self;
     thread_count := n;
     save_caption := save_caption self;
     extract_exif := extract_exif self;
     output_folder := output_folder self;
     column_list := column_list self;
     timeout := timeout self;
     number_sample_per_shard := number_sample_per_shard self;
     oom_shard_count := oom_shard_count self;
     compute_hash := compute_hash self;
     encode_format := encode_format self;
     retries := retries self;
     user_agent_token := user_agent_token self;
     disallowed_header_directives := disallowed_header_directives self;
     blurring_bbox_col := blurring_bbox_col self |}.


(** ** [make_headers] *)

Definition user_agent_product : string :=
  "Mozilla/5.0 (X11; Ubuntu; Linux x86_64; rv:72.0) Gecko/20100101 Firefox/72.0".

(** [make_headers]: the token is added when it is neither [None] nor the
    empty string. *)
Definition make_headers (user_agent_token : option string)
  : list (string * string) :=
  let user_agent_string := user_agent_product in
  let user_agent_string :=
    match user_agent_token with
    | None | Some EmptyString => user_agent_string
    | Some token =>
        String.append user_agent_string
          (String.append " (compatible; "
             (String.append token
                "; +https://github.com/rom1504/img2dataset)"))
    end in
  [("User-Agent"%string, user_agent_string)].

(** ** Measures of the event loop *)

Definition is_waiting (t : task_state) : bool :=
  match t with
  | Waiting => true
  | _ => false
  end.

Definition is_running (t : task_state) : bool :=
  match t with
  | Running => true
  | _ => false
  end.

Definition is_crashed (t : task_state) : bool :=
  match t with
  | Crashed => true
  | _ => false
  end.

(** The number of coroutines in a state. *)
Definition count_tasks (p : task_state -> bool) (ts : list task_state) : Z :=
  Z.of_nat (List.length (filter p ts)).

(** An upper bound of the number of steps the event loop can still take:
    three for a coroutine that waits (enter, put, be consumed), two for one
    that holds the semaphore, one for each item of the queue, three while
    [download_task] has its sentinel to put and one while it waits on
    [join]. *)
Definition steps_left {W} (l : loop W) : Z :=
  3 * count_tasks is_waiting (tasks l)
  + 2 * count_tasks is_running (tasks l)
  + Z.of_nat (List.length (data_queue l))
  + match download_task l with
    | Gathering | Died => 3
    | Joining => 1
    | Returned => 0
    end.

(** The sum of the three tallies. *)
Definition counted {W} (c : consumer W) : Z :=
  successes c + failed_to_download c + failed_to_resize c.

(** What the tallies satisfy at every moment: they count the labels given
    to the status counter, no tally is negative, and every call of the
    writer was counted. *)
Definition tallies_sound {W} (c : consumer W) : Prop :=
  counted c = Z.of_nat (List.length (status_dict c))
  /\ Z.of_nat (List.length (writes c)) <= counted c
  /\ 0 <= successes c /\ 0 <= failed_to_download c
  /\ 0 <= failed_to_resize c.

(** ** Reading a sample key back *)

(** The shard id and the local key of a sample key, for [ws] digits per
    row. *)
Definition decode_key (ws : Z) (str_key : string) : option (Z * Z) :=
  match PyStr.decimal_value str_key with
  | Some v => Some (v / 10 ^ ws, v mod 10 ^ ws)
  | None => None
  end.

(** * Properties *)

(** ** Decimal rendering *)

Module PyStrFacts.
Import PyStr.

Example strip_spaces : strip "  no index  "%string = "no index"%string.
Proof. reflexivity. Qed.

Example lower_mixed : lower "NoAI-7"%string = "noai-7"%string.
Proof. reflexivity. Qed.

Example split1_colons :
  split1 ":" "a:b:c"%string = ["a"; "b:c"]%string
  /\ split1 ":" "abc"%string = ["abc"%string]
  /\ split1 ":" ":x"%string = [""; "x"]%string.
Proof. repeat split. Qed.

Example split_commas :
  split "," "a,,b"%string = ["a"; ""; "b"]%string
  /\ split "," ""%string = [""%string].
Proof. repeat split. Qed.

Example format_0d_examples :
  format_0d 5 3 = "005"%string
  /\ format_0d 12345 3 = "12345"%string
  /\ format_0d (-5) 5 = "-0005"%string
  /\ format_0d 0 0 = "0"%string.
Proof. repeat split. Qed.

Lemma length_append (s t : string) :
  String.length (String.append s t) = (String.length s + String.length t)%nat.
Proof. induction s as [|c s IH]; simpl; [reflexivity | now rewrite IH]. Qed.

Lemma value_from_append (s t : string) (v : Z) :
  value_from v (String.append s t) = value_from (value_from v s) t.
Proof. revert v; induction s as [|c s IH]; intro v; simpl; auto. Qed.

Lemma all_digits_append (s t : string) :
  all_digits (String.append s t) = all_digits s && all_digits t.
Proof.
  induction s as [|c s IH]; simpl; [reflexivity|].
  now rewrite IH, andb_assoc.
Qed.

Lemma length_zeros (n : nat) : String.length (zeros n) = n.
Proof. induction n; simpl; congruence. Qed.

Lemma all_digits_zeros (n : nat) : all_digits (zeros n) = true.
Proof. induction n; simpl; auto. Qed.

Lemma value_from_zeros (n : nat) : value_from 0 (zeros n) = 0.
Proof. induction n; simpl; auto. Qed.

Lemma code_digit_char (d : Z) :
  0 <= d < 10 -> Z.of_nat (nat_of_ascii (digit_char d)) = 48 + d.
Proof.
  intros Hd. unfold digit_char.
  rewrite nat_ascii_embedding by lia. lia.
Qed.

Lemma is_digit_digit_char (d : Z) :
  0 <= d < 10 -> is_digit (digit_char d) = true.
Proof.
  intros Hd. unfold is_digit.
  pose proof (code_digit_char d Hd) as Hc.
  apply andb_true_iff; split; apply Nat.leb_le; lia.
Qed.

Lemma value_digits_fuel (fuel : nat) :
  forall n, 0 <= n < 2 ^ Z.of_nat fuel ->
            value_from 0 (digits_fuel fuel n) = n.
Proof.
  induction fuel as [|fuel IH]; intros n Hn.
  - simpl in *. lia.
  - cbn [digits_fuel]. rewrite value_from_append.
    assert (Hmod : 0 <= n mod 10 < 10) by (apply Z.mod_pos_bound; lia).
    assert (Hdm : n = 10 * (n / 10) + n mod 10) by (apply Z.div_mod; lia).
    cbn [value_from]. rewrite code_digit_char by assumption.
    destruct (Z.eqb_spec (n / 10) 0) as [Hq|Hq].
    + cbn [value_from]. lia.
    + rewrite IH; [lia|].
      rewrite Nat2Z.inj_succ, Z.pow_succ_r in Hn by lia.
      split; [apply Z.div_pos; lia|].
      apply Z.div_lt_upper_bound; lia.
Qed.

Lemma all_digits_digits_fuel (fuel : nat) :
  forall n, 0 <= n -> all_digits (digits_fuel fuel n) = true.
Proof.
  induction fuel as [|fuel IH]; intros n Hn; [reflexivity|].
  cbn [digits_fuel]. rewrite all_digits_append.
  apply andb_true_iff; split.
  - destruct (n / 10 =? 0); [reflexivity|].
    apply IH. apply Z.div_pos; lia.
  - cbn [all_digits]. rewrite is_digit_digit_char; [reflexivity|].
    apply Z.mod_pos_bound; lia.
Qed.

Lemma length_digits_fuel_pos (fuel : nat) (n : Z) :
  (1 <= String.length (digits_fuel (S fuel) n))%nat.
Proof. cbn [digits_fuel]. rewrite length_append. simpl. lia. Qed.

Lemma length_digits_fuel_le (fuel : nat) :
  forall n k, 0 <= n < 10 ^ Z.of_nat k -> (1 <= k)%nat ->
              (String.length (digits_fuel fuel n) <= k)%nat.
Proof.
  induction fuel as [|fuel IH]; intros n k Hn Hk; [simpl; lia|].
  cbn [digits_fuel]. rewrite length_append. cbn [String.length].
  destruct (Z.eqb_spec (n / 10) 0) as [Hq|Hq]; [simpl; lia|].
  destruct k as [|k]; [lia|].
  rewrite Nat2Z.inj_succ, Z.pow_succ_r in Hn by lia.
  assert (Hq' : 0 <= n / 10 < 10 ^ Z.of_nat k).
  { split; [apply Z.div_pos; lia|]. apply Z.div_lt_upper_bound; lia. }
  destruct k as [|k].
  - simpl in Hq'. lia.
  - specialize (IH (n / 10) (S k) Hq'). lia.
Qed.

Lemma digits_enough_fuel (n : Z) :
  0 <= n -> 0 <= n < 2 ^ Z.of_nat (S (Z.to_nat (Z.log2 n))).
Proof.
  intros Hn. split; [assumption|].
  rewrite Nat2Z.inj_succ, Z2Nat.id by apply Z.log2_nonneg.
  destruct (Z.eq_dec n 0) as [->|Hz]; [reflexivity|].
  apply Z.log2_spec. lia.
Qed.

Lemma value_digits (n : Z) : 0 <= n -> value_from 0 (digits n) = n.
Proof.
  intros Hn. apply value_digits_fuel, digits_enough_fuel, Hn.
Qed.

(** The rendering of a number that is not negative: zeros, then digits. *)
Lemma format_0d_nonneg (n width : Z) :
  0 <= n ->
  format_0d n width =
    String.append
      (zeros (Z.to_nat (width - Z.of_nat (String.length (digits n)))))
      (digits n).
Proof.
  intros Hn. unfold format_0d.
  destruct (Z.ltb_spec n 0) as [?|_]; [lia|].
  rewrite Z.abs_eq by assumption. cbn [String.length String.append].
  now rewrite Z.sub_0_r.
Qed.

Lemma format_0d_value (n width : Z) :
  0 <= n -> decimal_value (format_0d n width) = Some n.
Proof.
  intros Hn. rewrite format_0d_nonneg by assumption.
  set (z := zeros _).
  assert (Hlen : (1 <= String.length (String.append z (digits n)))%nat).
  { rewrite length_append.
    pose proof (length_digits_fuel_pos (Z.to_nat (Z.log2 n)) n).
    unfold digits. lia. }
  unfold decimal_value.
  destruct (String.append z (digits n)) eqn:E; [simpl in Hlen; lia|].
  rewrite <- E, all_digits_append. unfold z.
  rewrite all_digits_zeros. unfold digits at 1.
  rewrite all_digits_digits_fuel by assumption. cbn [andb].
  now rewrite value_from_append, value_from_zeros, value_digits.
Qed.

Lemma format_0d_length (n width : Z) :
  0 <= n < 10 ^ width -> 1 <= width ->
  Z.of_nat (String.length (format_0d n width)) = width.
Proof.
  intros Hn Hw. rewrite format_0d_nonneg by lia.
  rewrite length_append, length_zeros.
  assert (Hle : (String.length (digits n) <= Z.to_nat width)%nat).
  { apply length_digits_fuel_le; [|lia]. now rewrite Z2Nat.id by lia. }
  lia.
Qed.

End PyStrFacts.

(** ** Key codec *)

Lemma true_key_bounds (key shard_id ws wc : Z) :
  0 <= ws -> 0 <= wc ->
  0 <= shard_id < 10 ^ wc -> 0 <= key < 10 ^ ws ->
  0 <= 10 ^ ws * shard_id + key < 10 ^ (ws + wc).
Proof.
  intros Hws Hwc Hs Hk. rewrite Z.pow_add_r by assumption.
  assert (HP : 0 < 10 ^ ws) by (apply Z.pow_pos_nonneg; lia).
  assert (Hm : 10 ^ ws * shard_id <= 10 ^ ws * (10 ^ wc - 1))
    by (apply Z.mul_le_mono_nonneg_l; lia).
  assert (H0 : 0 <= 10 ^ ws * shard_id) by (apply Z.mul_nonneg_nonneg; lia).
  rewrite Z.mul_sub_distr_l in Hm. lia.
Qed.

Lemma true_key_injective (key shard_id key' shard_id' b : Z) :
  0 <= key < b -> 0 <= key' < b ->
  b * shard_id + key = b * shard_id' + key' ->
  shard_id = shard_id' /\ key = key'.
Proof.
  intros Hk Hk' E.
  destruct (Z.lt_trichotomy shard_id shard_id') as [Hlt|[Heq|Hgt]].
  - assert (Hm : b * (shard_id + 1) <= b * shard_id')
      by (apply Z.mul_le_mono_nonneg_l; lia).
    rewrite Z.mul_add_distr_l in Hm. lia.
  - subst shard_id'. lia.
  - assert (Hm : b * (shard_id' + 1) <= b * shard_id)
      by (apply Z.mul_le_mono_nonneg_l; lia).
    rewrite Z.mul_add_distr_l in Hm. lia.
Qed.

Lemma format_0d_length_max (n width : Z) :
  0 <= width -> 0 <= n < 10 ^ width ->
  Z.of_nat (String.length (PyStr.format_0d n width)) = Z.max 1 width.
Proof.
  intros Hw Hn. destruct (Z.eq_dec width 0) as [->|Hpos].
  - assert (n = 0) by (simpl in Hn; lia). subst n. reflexivity.
  - rewrite PyStrFacts.format_0d_length by lia. lia.
Qed.

(** C5, as the code has it. For shard ids and local keys that are not
    negative and fit the widths [wc] and [ws], [compute_key] returns a string
    of decimal digits whose value is [10^ws * shard_id + key] and whose
    length is [ws + wc], or one character when both widths are zero; and two
    pairs with the same string are the same pair. *)
Theorem compute_key_padded_injective
    (key shard_id key' shard_id' ws wc : Z) :
  0 <= ws -> 0 <= wc ->
  0 <= shard_id < 10 ^ wc -> 0 <= key < 10 ^ ws ->
  0 <= shard_id' < 10 ^ wc -> 0 <= key' < 10 ^ ws ->
  (exists s,
      compute_key key shard_id ws wc = Ok s
      /\ Z.of_nat (String.length s) = Z.max 1 (ws + wc)
      /\ PyStr.decimal_value s = Some (10 ^ ws * shard_id + key))
  /\ (compute_key key shard_id ws wc = compute_key key' shard_id' ws wc ->
      shard_id = shard_id' /\ key = key').
Proof.
  intros Hws Hwc Hs Hk Hs' Hk'.
  pose proof (true_key_bounds key shard_id ws wc Hws Hwc Hs Hk) as Ht.
  pose proof (true_key_bounds key' shard_id' ws wc Hws Hwc Hs' Hk') as Ht'.
  unfold compute_key.
  destruct (Z.ltb_spec ws 0) as [?|_]; [lia|].
  destruct (Z.ltb_spec (ws + wc) 0) as [?|_]; [lia|].
  split.
  - eexists; split; [reflexivity|]. split.
    + apply format_0d_length_max; lia.
    + apply PyStrFacts.format_0d_value; lia.
  - intros E. injection E as E.
    apply (f_equal PyStr.decimal_value) in E.
    rewrite !PyStrFacts.format_0d_value in E by lia.
    injection E as E.
    apply (true_key_injective key shard_id key' shard_id' (10 ^ ws)); auto.
Qed.

(** Shard 3, rows 7 and 42, two digits for the row and one for the shard. *)
Lemma compute_key_padded_injective_witness :
  (exists s,
      compute_key 7 3 2 1 = Ok s
      /\ Z.of_nat (String.length s) = Z.max 1 (2 + 1)
      /\ PyStr.decimal_value s = Some (10 ^ 2 * 3 + 7))
  /\ (compute_key 7 3 2 1 = compute_key 42 3 2 1 -> 3 = 3 /\ 7 = 42).
Proof.
  apply (compute_key_padded_injective 7 3 42 3 2 1); simpl; lia.
Defined.

(** C5, as stated, fails when both widths are zero: the only pair of the
    domain is shard 0, row 0, and its key is the one character ["0"], not
    the empty string. *)
Lemma compute_key_zero_widths :
  0 <= 0 < 10 ^ 0
  /\ compute_key 0 0 0 0 = Ok "0"%string
  /\ Z.of_nat (String.length "0") <> 0 + 0.
Proof. repeat split; simpl; lia. Qed.

(** With a width too small the key is longer than the width, not cut. *)
Example compute_key_wide : compute_key 7 123 2 1 = Ok "12307"%string.
Proof. reflexivity. Qed.

(** ** Fetcher *)

(** C3. Whatever the session does, [download_image] returns a triple with
    the key of the row and exactly one of payload and error, and what the
    session does fixes the triple:
    - the response is not refused by the policy filter, its body is read
      and it is released: the whole body and no error;
    - the response is refused by the policy filter and released: no payload
      and the fixed message;
    - [session.get], the read of the body or the release raises: no payload
      and the text of the exception that leaves the [async with] block,
      which is the exception of the release when the release raises. *)
Theorem download_image_outcome (key : Z) (url : pyval)
    (session : session_behaviour) (user_agent_token : option string)
    (disallowed_header_directives : option (list string)) :
  let o := fst (download_image (key, url) session user_agent_token
                  disallowed_header_directives) in
  let refused headers :=
    truthy disallowed_header_directives
    && is_disallowed headers user_agent_token
         (directive_set disallowed_header_directives) in
  (exists payload error,
      o = (key, payload, error) /\ (payload = None <-> error <> None))
  /\ ((exists headers body,
          session = Responds headers (Ok body) None
          /\ refused headers = false
          /\ o = (key, Some body, None))
      \/ (exists headers read,
             session = Responds headers read None
             /\ refused headers = true
             /\ o = (key, None, Some rejected_message))
      \/ (exists err,
             (session = GetRaises err
              \/ (exists headers read,
                     session = Responds headers read (Some err))
              \/ (exists headers,
                     session = Responds headers (Raise err) None
                     /\ refused headers = false))
             /\ o = (key, None, Some (str err)))).
Proof.
  cbn zeta. unfold download_image.
  assert (Hone : forall d : string,
             @None string = None <-> Some d <> None)
    by (intros d; split; [discriminate|reflexivity]).
  assert (Hbody : forall body : string,
             Some body = None <-> @None string <> None)
    by (intros body; split; [discriminate|intros H; now contradiction H]).
  destruct session as [err|headers read aexit].
  - split; [do 2 eexists; split; [reflexivity|apply Hone]|].
    right. right. exists err. split; [now left|reflexivity].
  - destruct (truthy disallowed_header_directives) eqn:Ht;
      [destruct (is_disallowed headers user_agent_token
                   (directive_set disallowed_header_directives)) eqn:Hd|].
    + (* refused *)
      destruct aexit as [e2|]; cbn [fst].
      * split; [do 2 eexists; split; [reflexivity|apply Hone]|].
        right. right. exists e2. split; [|reflexivity].
        right. left. now exists headers, read.
      * split; [do 2 eexists; split; [reflexivity|apply Hone]|].
        right. left. exists headers, read.
        split; [reflexivity|]. split; [now rewrite Hd|reflexivity].
    + (* let through *)
      destruct read as [body|e1]; destruct aexit as [e2|]; cbn [fst].
      * split; [do 2 eexists; split; [reflexivity|apply Hone]|].
        right. right. exists e2. split; [|reflexivity].
        right. left. now exists headers, (Ok body).
      * split; [do 2 eexists; split; [reflexivity|apply Hbody]|].
        left. exists headers, body.
        split; [reflexivity|]. split; [now rewrite Hd|reflexivity].
      * split; [do 2 eexists; split; [reflexivity|apply Hone]|].
        right. right. exists e2. split; [|reflexivity].
        right. left. now exists headers, (Raise e1).
      * split; [do 2 eexists; split; [reflexivity|apply Hone]|].
        right. right. exists e1. split; [|reflexivity].
        right. right. exists headers. split; [reflexivity|now rewrite Hd].
    + (* no directive set: the filter is not asked *)
      destruct read as [body|e1]; destruct aexit as [e2|]; cbn [fst].
      * split; [do 2 eexists; split; [reflexivity|apply Hone]|].
        right. right. exists e2. split; [|reflexivity].
        right. left. now exists headers, (Ok body).
      * split; [do 2 eexists; split; [reflexivity|apply Hbody]|].
        left. exists headers, body. now split.
      * split; [do 2 eexists; split; [reflexivity|apply Hone]|].
        right. right. exists e2. split; [|reflexivity].
        right. left. now exists headers, (Raise e1).
      * split; [do 2 eexists; split; [reflexivity|apply Hone]|].
        right. right. exists e1. split; [|reflexivity].
        right. right. exists headers. now split.
Qed.

Lemma download_image_key (row : Z * pyval) (session : session_behaviour)
    (tok : option string) (dis : option (list string)) :
  fst (fst (fst (download_image row session tok dis))) = fst row.
Proof.
  destruct row as [key url]. unfold download_image.
  destruct session as [err|headers [body|e1] [e2|]]; [reflexivity|..];
    destruct (truthy dis); try reflexivity;
    destruct (is_disallowed _ _ _); reflexivity.
Qed.

(** C10. With no directive set, or an empty one, [download_image] does not
    call the policy filter, and its outcome is the body of the response or
    the text of an exception that the session raised. *)
Theorem download_image_without_directives (key : Z) (url : pyval)
    (session : session_behaviour) (user_agent_token : option string)
    (configured : option (list string)) :
  configured = None \/ configured = Some [] ->
  let run := download_image (key, url) session user_agent_token
               (init_disallowed_header_directives configured) in
  ~ In PolicyFilterCalled (snd run)
  /\ ((exists headers body,
          session = Responds headers (Ok body) None
          /\ fst run = (key, Some body, None))
      \/ (exists e, raises session e /\ fst run = (key, None, Some (str e)))).
Proof.
  intros Hc run.
  assert (Hf : truthy (init_disallowed_header_directives configured) = false)
    by (destruct Hc; subst; reflexivity).
  subst run. unfold download_image. rewrite Hf.
  destruct session as [err|headers read aexit].
  - split; [intros []|]. right. exists err. now split.
  - destruct read as [body|e1]; destruct aexit as [e2|]; cbn [fst snd].
    + split; [intros [H|[H|[]]]; discriminate|].
      right. exists e2. split; [right; reflexivity|reflexivity].
    + split; [intros [H|[]]; discriminate|].
      left. exists headers, body. now split.
    + split; [intros [H|[]]; discriminate|].
      right. exists e2. split; [right; reflexivity|reflexivity].
    + split; [intros [H|[]]; discriminate|].
      right. exists e1. split; [left; reflexivity|reflexivity].
Qed.

(** A response that carries the opt-out header, fetched with an empty
    directive set: the body is returned. *)
Lemma download_image_without_directives_witness :
  let run := download_image (5, PStr "http://a/5.jpg")
               (Responds [("X-Robots-Tag", "noindex")]%string (Ok "abc"%string)
                  None)
               (Some "mybot"%string)
               (init_disallowed_header_directives (Some [])) in
  ~ In PolicyFilterCalled (snd run)
  /\ ((exists headers body,
          Responds [("X-Robots-Tag", "noindex")]%string (Ok "abc"%string) None
          = Responds headers (Ok body) None
          /\ fst run = (5, Some body, None))
      \/ (exists e,
             raises (Responds [("X-Robots-Tag", "noindex")]%string
                       (Ok "abc"%string) None) e
             /\ fst run = (5, None, Some (str e)))).
Proof.
  apply (download_image_without_directives 5 (PStr "http://a/5.jpg")
           (Responds [("X-Robots-Tag", "noindex")]%string (Ok "abc"%string)
              None)
           (Some "mybot"%string) (Some [])).
  right. reflexivity.
Defined.

(** The same response with the directive configured is rejected, and the
    policy filter is called. *)
Example download_image_rejected :
  download_image (5, PStr "http://a/5.jpg")
    (Responds [("X-Robots-Tag", "noindex")]%string (Ok "abc"%string) None)
    (Some "mybot"%string)
    (init_disallowed_header_directives (Some [" NoIndex "%string]))
  = ((5, None, Some rejected_message), [PolicyFilterCalled]).
Proof. reflexivity. Qed.

Section Retry.

Variable row : Z * pyval.
Variable session : nat -> session_behaviour.
Variable tok : option string.
Variable dis : option (list string).

(** The loop makes its requests in order, stops after the first with a
    payload, and leaves bound the triple of the last request made. *)
Lemma retry_loop_spec (n : nat) :
  forall i last,
    let res := fst (retry_loop n i last row session tok dis) in
    let calls := snd (retry_loop n i last row session tok dis) in
    (i <= calls <= i + n)%nat
    /\ (forall j, (i <= j)%nat -> (j < calls - 1)%nat ->
                  has_payload (attempt row session tok dis j) = false)
    /\ (calls = i -> res = last /\ n = O)
    /\ ((i < calls)%nat ->
        res = Some (attempt row session tok dis (calls - 1))
        /\ (has_payload (attempt row session tok dis (calls - 1)) = true \/ calls = (i + n)%nat)).
Proof.
  induction n as [|n IH]; intros i last; cbn zeta.
  - cbn [retry_loop fst snd].
    split; [lia|]. split; [intros; lia|]. split; [auto|lia].
  - cbn [retry_loop]. fold (attempt row session tok dis i).
    destruct (attempt row session tok dis i) as [[k [b|]] e] eqn:Ei.
    + cbn [fst snd].
      split; [lia|]. split; [intros; lia|]. split; [lia|].
      intros _. replace (S i - 1)%nat with i by lia. rewrite Ei.
      split; [reflexivity|left; reflexivity].
    + match goal with
      | |- context [retry_loop n (S i) ?l _ _ _ _] =>
          specialize (IH (S i) l); cbn zeta in IH;
          destruct (retry_loop n (S i) l row session tok dis) as [res calls]
      end.
      cbn [fst snd] in *. destruct IH as (Hb & Hfail & Hsame & Hmore).
      split; [lia|]. split; [|split; [lia|]].
      * intros j Hj1 Hj2. destruct (Nat.eq_dec j i) as [->|Hne].
        -- now rewrite Ei.
        -- apply Hfail; lia.
      * intros _. destruct (Nat.eq_dec calls (S i)) as [Hc|Hc].
        -- destruct (Hsame Hc) as [-> ->]. subst calls.
           replace (S i - 1)%nat with i by lia. rewrite Ei.
           split; [reflexivity|right; lia].
        -- destruct Hmore as [-> [Hp|Hl]]; [lia| |].
           ++ split; [reflexivity|now left].
           ++ split; [reflexivity|right; lia].
Qed.

(** With [retries >= 0] the loop runs at least once, so a triple is bound
    and put on the queue. *)
Lemma retry_puts (retries : Z) :
  0 <= retries ->
  exists o,
    fst (download_image_with_retry row session retries tok dis) = Ok o.
Proof.
  intros Hr. unfold download_image_with_retry.
  pose proof (retry_loop_spec (Z.to_nat (retries + 1)) 0 None) as H.
  cbn zeta in H.
  destruct (retry_loop (Z.to_nat (retries + 1)) 0 None row session tok dis)
    as [[o|] calls]; cbn [fst snd] in *; [now exists o|].
  destruct H as (_ & _ & Hsame & Hmore).
  destruct calls as [|calls].
  - destruct (Hsame eq_refl) as [_ Hz]. lia.
  - destruct Hmore as [E _]; [lia|discriminate].
Qed.

End Retry.




(** [retries = 2]: two failures and a success give the success; three
    failures give the third failure. *)
Example retry_fail_fail_succeed :
  download_image_with_retry (0, PStr "http://a/0.jpg") (Demo.sessions 0) 2
    None None
  = (Ok (0, Some "abc"%string, None), 3%nat).
Proof. reflexivity. Qed.

Example retry_fail_fail_fail :
  download_image_with_retry (1, PStr "http://a/1.jpg") (Demo.sessions 1) 2
    None None
  = (Ok (1, None, Some "Connection reset"%string), 3%nat).
Proof. reflexivity. Qed.

(** A success at the first request is not followed by another request. *)
Example retry_stops_at_success :
  download_image_with_retry (0, PStr "http://a/0.jpg")
    (fun _ => Demo.served "abc") 2 None None
  = (Ok (0, Some "abc"%string, None), 1%nat).
Proof. reflexivity. Qed.

(** Below zero retries nothing is requested and nothing is put. *)
Example retry_negative :
  exists e,
    download_image_with_retry (0, PStr "http://a/0.jpg") (Demo.sessions 0) (-1)
      None None
    = (Raise e, 0%nat).
Proof. eexists. reflexivity. Qed.

(** ** Policy filter *)

(** The rule that [is_disallowed] applies to one header value: the token is
    lower-cased as it stands; the directives are trimmed and lower-cased. *)
Lemma value_disallowed_rule (tok : option string) (dis : list string)
    (v : string) :
  value_disallowed tok dis v =
    (let (first, rest) := PyStr.partition ":" v in
     (match rest with
      | Some _ => token_eqb (PyStr.lower first) tok
      | None => true
      end)
     && existsb (fun x => PyStr.mem x dis)
          (map (fun x => PyStr.lower (PyStr.strip x))
             (PyStr.split ","
                (match rest with Some r => r | None => first end)))).
Proof.
  unfold value_disallowed, PyStr.split1.
  destruct (PyStr.partition ":" v) as [first [rest|]]; reflexivity.
Qed.

Lemma scan_values_existsb (tok : option string) (dis : list string)
    (vs : list string) :
  scan_values tok dis vs = existsb (value_disallowed tok dis) vs.
Proof.
  induction vs as [|v vs IH]; simpl; [reflexivity|].
  rewrite IH. now destruct (value_disallowed tok dis v).
Qed.

(** The code and the rule of the specification agree on a value whose token
    has no white space around it. *)
Lemma value_disallowed_trimmed_token (tok : option string)
    (dis : list string) (v : string) :
  PyStr.strip (fst (PyStr.partition ":" v)) = fst (PyStr.partition ":" v) ->
  value_disallowed tok dis v = spec_value_matches tok dis v.
Proof.
  intros Ht. rewrite value_disallowed_rule. unfold spec_value_matches.
  destruct (PyStr.partition ":" v) as [first [rest|]]; cbn [fst] in Ht;
    [now rewrite Ht|reflexivity].
Qed.

(** The examples of the specification. *)
Example is_disallowed_token :
  is_disallowed [("X-Robots-Tag", "mybot: noindex")]%string
    (Some "mybot"%string) ["noindex"%string] = true.
Proof. reflexivity. Qed.

Example is_disallowed_other_token :
  is_disallowed [("X-Robots-Tag", "mybot: noindex")]%string
    (Some "otherbot"%string) ["noindex"%string] = false.
Proof. reflexivity. Qed.

Example is_disallowed_no_token :
  is_disallowed [("X-Robots-Tag", "noindex")]%string
    (Some "mybot"%string) ["noindex"%string] = true.
Proof. reflexivity. Qed.

Example is_disallowed_case_and_space :
  is_disallowed
    [("Content-Type", "image/png"); ("x-robots-tag", "MyBot: nofollow , NoAI ")]%string
    (init_user_agent_token (Some " MyBot "%string))
    (directive_set (init_disallowed_header_directives (Some [" NoAI"%string])))
  = true.
Proof. reflexivity. Qed.

(** C6. The token of a header value is lower-cased but not trimmed: on the
    value [mybot : noindex], with the token [mybot] and the directive
    [noindex] configured, the code finds no match, where the rule of the
    specification, which trims the token, finds one. *)
Theorem is_disallowed_token_not_trimmed :
  is_disallowed [("X-Robots-Tag", "mybot : noindex")]%string
    (init_user_agent_token (Some "mybot"%string))
    (directive_set (init_disallowed_header_directives (Some ["noindex"%string])))
  = false
  /\ spec_is_disallowed [("X-Robots-Tag", "mybot : noindex")]%string
       (init_user_agent_token (Some "mybot"%string))
       (directive_set
          (init_disallowed_header_directives (Some ["noindex"%string])))
     = true.
Proof. split; reflexivity. Qed.

(** ** Outcome processor *)

Section SaveTaskFacts.

Context {W : Type}.
Variable self : AsyncDownloader W.
Variable world : World.
Variable shard_id : Z.
Variable shard_to_dl : list (Z * list pyval).
Variable oom_sample_per_shard : Z.
Variable caption_indice : option Z.
Variable bbox_indice : option Z.

Lemma bindM_lift {A B} (r : result A) (k : A -> M W B) (c : consumer W) :
  bindM (lift r) k c =
    match r with
    | Ok a => k a c
    | Raise e => (c, Raise e)
    end.
Proof. unfold bindM, lift. now destruct r. Qed.

(** What a call of [write] leaves behind: the tallies, the status counter
    and the printed lines are as before; at most one call of the writer is
    recorded, for [key], and exactly one when [write] returns. *)
Lemma write_effect (key : Z) (img_str : pyval) (str_key : string)
    (sample_data : list pyval) (meta : dict) (c c' : consumer W)
    (r : result unit) :
  write self caption_indice key img_str str_key sample_data meta c = (c', r) ->
  tallies c' = tallies c
  /\ status_dict c' = status_dict c
  /\ printed c' = printed c
  /\ exists ws, writes c' = writes c ++ ws
                /\ (List.length ws <= 1)%nat
                /\ (forall w, In w ws ->
                              fst w = key /\ w_key (snd w) = str_key)
                /\ (r = Ok tt -> List.length ws = 1%nat).
Proof.
  unfold write. rewrite bindM_lift.
  destruct (caption_of caption_indice sample_data) as [caption|e].
  - destruct (sw_write _ _ _) as [w' [e|]]; intros E; injection E as <- <-;
      (repeat split; try reflexivity);
      eexists; (split; [reflexivity|]); cbn [List.length];
      (split; [lia|]); (split; [|reflexivity]);
      intros w [<-|[]]; split; reflexivity.
  - intros E; injection E as <- <-. repeat split; try reflexivity.
    exists []. rewrite app_nil_r. split; [reflexivity|].
    split; [simpl; lia|]. split; [intros w []|discriminate].
Qed.

Local Ltac raised_early E :=
  injection E as <- <-;
  split; [reflexivity|]; split; [|split; reflexivity];
  exists []; rewrite app_nil_r; split; [reflexivity|];
  split; [simpl; lia|]; split; [intros ? []|discriminate].

Local Ltac after_write E :=
  apply write_effect in E; unfold tallies in E |- *; cbn in E;
  destruct E as (Ht & Hs & Hp & ws & Hw & Hl & Hk & H1);
  split; [exact Hp|]; split; [|split; [exact Ht|exact Hs]];
  exists ws; split; [exact Hw|]; split; [exact Hl|]; split; [|exact H1];
  let w := fresh "w" in
  let Hin := fresh "Hin" in
  intros w Hin; destruct (Hk w Hin) as [Hk1 Hk2]; rewrite Hk1, Hk2;
  split; reflexivity.

(** What the [try] block leaves behind. An exception raised before the row
    is counted leaves every variable as it was; once the row is counted,
    its tally and its label stay, whether the rest of the block returns or
    raises. No line is printed by the block itself, and the writer is
    called at most once, exactly once when the block returns. *)
Lemma save_body_effect (key : Z) (img_stream error_message : option string)
    (c c' : consumer W) (r : result unit) :
  save_body self world shard_id shard_to_dl oom_sample_per_shard
    caption_indice bbox_indice key img_stream error_message c = (c', r) ->
  printed c' = printed c
  /\ (exists ws, writes c' = writes c ++ ws
                 /\ (List.length ws <= 1)%nat
                 /\ (forall w, In w ws ->
                               fst w = key
                               /\ Ok (w_key (snd w))
                                  = compute_key key shard_id
                                      oom_sample_per_shard
                                      (oom_shard_count self))
                 /\ (r = Ok tt -> List.length ws = 1%nat))
  /\ match classify self shard_id shard_to_dl oom_sample_per_shard
              bbox_indice key img_stream error_message with
     | Raise x => r = Raise x /\ c' = c
     | Ok (st, label) =>
         tallies c' = bump st (tallies c)
         /\ status_dict c' = status_dict c ++ [label]
     end.
Proof.
  unfold save_body, classify. intros E.
  rewrite bindM_lift in E.
  destruct (py_index shard_to_dl key) as [entry|e]; cbn [bind];
    [|raised_early E].
  rewrite bindM_lift in E.
  destruct (compute_key key shard_id oom_sample_per_shard
              (oom_shard_count self)) as [str_key|e]; cbn [bind];
    [|raised_early E].
  rewrite bindM_lift in E.
  destruct (new_meta self (snd entry) str_key error_message) as [meta|e];
    cbn [bind]; [|raised_early E].
  destruct error_message as [msg|].
  - unfold bindM at 1 in E. cbn [add_failed_to_download] in E.
    unfold bindM at 1 in E. cbn [status_increment] in E.
    after_write E.
  - rewrite bindM_lift in E.
    destruct img_stream as [stream|]; cbn [bind]; [|raised_early E].
    rewrite bindM_lift in E.
    destruct (match bbox_indice with
              | Some i => py_index (snd entry) i
              | None => Ok PNone
              end) as [bbox_list|e]; cbn [bind]; [|raised_early E].
    rewrite bindM_lift in E.
    destruct (resizer self stream bbox_list) as [rs|e]; cbn [bind];
      [|raised_early E].
    destruct (resize_error rs) as [msg|].
    + unfold bindM at 1 in E. cbn [add_failed_to_resize] in E.
      unfold bindM at 1 in E. cbn [status_increment] in E.
      after_write E.
    + unfold bindM at 1 in E. cbn [add_successes] in E.
      unfold bindM at 1 in E. cbn [status_increment] in E.
      destruct (compute_hash self) as [name|].
      * destruct (hashlib world name) as [digest|].
        -- unfold bindM at 1 in E. cbn [ret] in E. after_write E.
        -- unfold bindM at 1 in E. cbn [raise] in E.
           injection E as <- <-. unfold tallies. cbn.
           split; [reflexivity|]. split; [|split; reflexivity].
           exists []. rewrite app_nil_r. split; [reflexivity|].
           split; [simpl; lia|]. split; [intros ? []|discriminate].
      * unfold bindM at 1 in E. cbn [ret] in E. after_write E.
Qed.

End SaveTaskFacts.

Example demo_locals :
  prepare (Demo.downloader Demo.writer 2) Demo.world (3, "two.feather"%string)
  = Ok (Demo.locals Demo.writer).
Proof. reflexivity. Qed.

Example demo_row1_queued :
  exec (Demo.downloader Demo.full_writer 2) Demo.world
    (Demo.locals Demo.full_writer) [Acquire 1; Complete 1]
    (loop_start (Demo.downloader Demo.full_writer 2)
       (Demo.locals Demo.full_writer))
  = Some (Demo.row1_queued Demo.full_writer).
Proof. reflexivity. Qed.

Section SaveItemFacts.

Context {W : Type}.
Variable self : AsyncDownloader W.
Variable world : World.
Variable loc : shard_locals W.

(** One pass of the loop of [save_task]: a pass that raises prints one
    line, with the key; a pass that does not raise calls the writer once.
    No pass calls the writer twice. The tallies follow [classify]. *)
Lemma save_item_effect (o : outcome) (c c' : consumer W) (x : option exn) :
  save_item self world (l_shard_id loc) (l_shard_to_dl loc)
    (l_oom_sample_per_shard loc) (l_caption_indice loc) (l_bbox_indice loc)
    o c = (c', x) ->
  printed c' = printed c ++ match x with
                            | Some err => [(fst (fst o), err)]
                            | None => []
                            end
  /\ (exists ws, writes c' = writes c ++ ws
                 /\ (List.length ws <= 1)%nat
                 /\ (forall w, In w ws ->
                               fst w = fst (fst o)
                               /\ Ok (w_key (snd w))
                                  = compute_key (fst (fst o)) (l_shard_id loc)
                                      (l_oom_sample_per_shard loc)
                                      (oom_shard_count self))
                 /\ (x = None -> List.length ws = 1%nat))
  /\ match classify self (l_shard_id loc) (l_shard_to_dl loc)
              (l_oom_sample_per_shard loc) (l_bbox_indice loc)
              (fst (fst o)) (snd (fst o)) (snd o) with
     | Raise e =>
         x = Some e /\ tallies c' = tallies c
         /\ status_dict c' = status_dict c /\ writes c' = writes c
     | Ok (st, label) =>
         tallies c' = bump st (tallies c)
         /\ status_dict c' = status_dict c ++ [label]
     end.
Proof.
  unfold save_item. destruct o as [[key img_stream] msg].
  cbn [fst snd].
  destruct (save_body self world (l_shard_id loc) (l_shard_to_dl loc)
              (l_oom_sample_per_shard loc) (l_caption_indice loc)
              (l_bbox_indice loc) key img_stream msg c) as [c1 r] eqn:E.
  apply save_body_effect in E. destruct E as (Hp & Hws & Hcl).
  destruct r as [[]|err]; intros E; injection E as <- <-.
  - rewrite app_nil_r. split; [exact Hp|]. split.
    + destruct Hws as (ws & Hw & Hl & Hk & H1). exists ws.
      split; [exact Hw|]. split; [exact Hl|]. split; [exact Hk|auto].
    + destruct (classify _ _ _ _ _ _ _ _) as [[st label]|e];
        [exact Hcl|destruct Hcl; discriminate].
  - unfold print_failure; cbn [printed writes status_dict]. split.
    + now rewrite Hp.
    + split.
      * destruct Hws as (ws & Hw & Hl & Hk & H1). exists ws.
        split; [exact Hw|]. split; [exact Hl|]. split; [exact Hk|].
        discriminate.
      * destruct (classify _ _ _ _ _ _ _ _) as [[st label]|e].
        -- exact Hcl.
        -- destruct Hcl as [He ->]. injection He as ->. auto.
Qed.

End SaveItemFacts.

(** C7, as the code has it. A triple at the head of the queue is taken,
    processed and acknowledged, and the loop goes on, whether the processing
    raises or not. When it raises, one line is printed with the key. The
    tallies and the status counter are untouched when the exception is
    raised before the row is counted (row lookup, key, metadata, stream,
    bounding box, resizer); when it is raised later (hash, caption, writer),
    the tally and the label of the row have been added and stay. *)
Theorem get_when_processing_raises {W : Type} (self : AsyncDownloader W)
    (world : World) (loc : shard_locals W) (l : loop W)
    (key : Z) (img_stream error_message : option string) (q : list item) :
  save_task_returned l = false ->
  data_queue l = Fetched (key, img_stream, error_message) :: q ->
  exists l',
    step self world loc Get l = Some l'
    /\ save_task_returned l' = false
    /\ data_queue l' = q
    /\ unfinished_tasks l' = unfinished_tasks l - 1
    /\ forall err,
        snd (save_item self world (l_shard_id loc) (l_shard_to_dl loc)
               (l_oom_sample_per_shard loc) (l_caption_indice loc)
               (l_bbox_indice loc) (key, img_stream, error_message) (cons l))
        = Some err ->
        printed (cons l') = printed (cons l) ++ [(key, err)]
        /\ match classify self (l_shard_id loc) (l_shard_to_dl loc)
                   (l_oom_sample_per_shard loc) (l_bbox_indice loc)
                   key img_stream error_message with
           | Raise e =>
               e = err
               /\ tallies (cons l') = tallies (cons l)
               /\ status_dict (cons l') = status_dict (cons l)
               /\ writes (cons l') = writes (cons l)
           | Ok (st, label) =>
               tallies (cons l') = bump st (tallies (cons l))
               /\ status_dict (cons l') = status_dict (cons l) ++ [label]
           end.
Proof.
  intros Hrun Hq. unfold step. rewrite Hrun, Hq.
  eexists. split; [reflexivity|]. cbn [save_task_returned data_queue
                                       unfinished_tasks cons].
  split; [reflexivity|]. split; [reflexivity|]. split; [reflexivity|].
  intros err Herr.
  destruct (save_item self world (l_shard_id loc) (l_shard_to_dl loc)
              (l_oom_sample_per_shard loc) (l_caption_indice loc)
              (l_bbox_indice loc) (key, img_stream, error_message) (cons l))
    as [c' x] eqn:E.
  cbn [fst snd] in *. subst x.
  apply save_item_effect in E. cbn [fst snd] in E.
  destruct E as (Hp & _ & Hcl). split; [exact Hp|].
  destruct (classify _ _ _ _ _ _ _ _) as [[st label]|e]; [exact Hcl|].
  destruct Hcl as (He & Ht & Hs & Hw). injection He as ->. auto.
Qed.

(** The failure of row 1 is taken from the queue by a consumer whose writer
    raises. *)
Lemma get_when_processing_raises_witness :
  exists l',
    step (Demo.downloader Demo.full_writer 2) Demo.world
      (Demo.locals Demo.full_writer) Get (Demo.row1_queued Demo.full_writer)
    = Some l'
    /\ save_task_returned l' = false
    /\ data_queue l' = []
    /\ unfinished_tasks l'
       = unfinished_tasks (Demo.row1_queued Demo.full_writer) - 1
    /\ forall err,
        snd (save_item (Demo.downloader Demo.full_writer 2) Demo.world
               (l_shard_id (Demo.locals Demo.full_writer))
               (l_shard_to_dl (Demo.locals Demo.full_writer))
               (l_oom_sample_per_shard (Demo.locals Demo.full_writer))
               (l_caption_indice (Demo.locals Demo.full_writer))
               (l_bbox_indice (Demo.locals Demo.full_writer))
               (1, None, Some "Connection reset"%string)
               (cons (Demo.row1_queued Demo.full_writer)))
        = Some err ->
        printed (cons l')
        = printed (cons (Demo.row1_queued Demo.full_writer)) ++ [(1, err)]
        /\ match classify (Demo.downloader Demo.full_writer 2)
                   (l_shard_id (Demo.locals Demo.full_writer))
                   (l_shard_to_dl (Demo.locals Demo.full_writer))
                   (l_oom_sample_per_shard (Demo.locals Demo.full_writer))
                   (l_bbox_indice (Demo.locals Demo.full_writer))
                   1 None (Some "Connection reset"%string) with
           | Raise e =>
               e = err
               /\ tallies (cons l')
                  = tallies (cons (Demo.row1_queued Demo.full_writer))
               /\ status_dict (cons l')
                  = status_dict (cons (Demo.row1_queued Demo.full_writer))
               /\ writes (cons l')
                  = writes (cons (Demo.row1_queued Demo.full_writer))
           | Ok (st, label) =>
               tallies (cons l')
               = bump st (tallies (cons (Demo.row1_queued Demo.full_writer)))
               /\ status_dict (cons l')
                  = status_dict (cons (Demo.row1_queued Demo.full_writer))
                      ++ [label]
           end.
Proof.
  apply (get_when_processing_raises (Demo.downloader Demo.full_writer 2)
           Demo.world (Demo.locals Demo.full_writer)
           (Demo.row1_queued Demo.full_writer)
           1 None (Some "Connection reset"%string) []);
    reflexivity.
Defined.

(** C7, as stated, fails: the writer raises on the record of a failed
    download; the exception is caught and printed, and the row has been
    counted in [failed_to_download] and in the status counter. *)
Lemma write_failure_is_counted :
  let c := cons (Demo.row1_queued Demo.full_writer) in
  let r := save_item (Demo.downloader Demo.full_writer 2) Demo.world 3
             [(0, [PStr "http://a/0.jpg"]); (1, [PStr "http://a/1.jpg"])]
             2 None None (1, None, Some "Connection reset"%string) c in
  snd r = Some (Exception "No space left on device")
  /\ printed (fst r) = [(1, Exception "No space left on device")]
  /\ failed_to_download (fst r) = failed_to_download c + 1
  /\ status_dict (fst r) = status_dict c ++ ["Connection reset"%string].
Proof. repeat split. Qed.

(** The same on the success path: the hash algorithm is unknown; the row is
    counted as a success and nothing is written. *)
Example unknown_hash_is_counted :
  let d := Demo.downloader Demo.writer 2 in
  let d' :=
    {| sample_writer_class := sample_writer_class d; resizer := resizer d;
       thread_count := 1; save_caption := false; extract_exif := false;
       output_folder := "out"; column_list := ["url"%string]; timeout := 10;
       number_sample_per_shard := 100; oom_shard_count := 1;
       compute_hash := Some "md6"%string; encode_format := "jpg";
       retries := 2; user_agent_token := None;
       disallowed_header_directives := None; blurring_bbox_col := None |} in
  let c := cons (Demo.row1_queued Demo.writer) in
  let r := save_item d' Demo.world 3
             [(0, [PStr "http://a/0.jpg"]); (1, [PStr "http://a/1.jpg"])]
             2 None None (0, Some "abc"%string, None) c in
  (exists e, snd r = Some e)
  /\ successes (fst r) = 1
  /\ status_dict (fst r) = ["success"%string]
  /\ writes (fst r) = [].
Proof. repeat split. eexists. reflexivity. Qed.

(** An exception of the resizer is raised before the row is counted. *)
Example resizer_failure_is_not_counted :
  let d := Demo.downloader Demo.writer 2 in
  let d' :=
    {| sample_writer_class := sample_writer_class d;
       resizer := fun _ _ => Raise (Exception "decoder crashed");
       thread_count := 1; save_caption := false; extract_exif := false;
       output_folder := "out"; column_list := ["url"%string]; timeout := 10;
       number_sample_per_shard := 100; oom_shard_count := 1;
       compute_hash := None; encode_format := "jpg";
       retries := 2; user_agent_token := None;
       disallowed_header_directives := None; blurring_bbox_col := None |} in
  let c := cons (Demo.row1_queued Demo.writer) in
  save_item d' Demo.world 3
    [(0, [PStr "http://a/0.jpg"]); (1, [PStr "http://a/1.jpg"])]
    2 None None (0, Some "abc"%string, None) c
  = (print_failure 0 (Exception "decoder crashed") c,
     Some (Exception "decoder crashed")).
Proof. reflexivity. Qed.

(** ** Pipeline coordinator *)

Lemma length_set_nth {A} (i : nat) (x : A) (l : list A) :
  List.length (set_nth i x l) = List.length l.
Proof.
  revert i; induction l as [|y l IH]; intros [|i]; simpl; auto.
Qed.

Lemma forallb_nth_error {A} (f : A -> bool) (l : list A) (i : nat) (x : A) :
  forallb f l = true -> nth_error l i = Some x -> f x = true.
Proof.
  intros Hall Hi. rewrite forallb_forall in Hall.
  apply Hall. eapply nth_error_In; eassumption.
Qed.

Lemma queue_keys_app (q q' : list item) :
  queue_keys (q ++ q') = queue_keys q ++ queue_keys q'.
Proof.
  induction q as [|[o|] q IH]; simpl; [reflexivity| |assumption].
  now rewrite IH.
Qed.

Lemma open_keys_start (rows : list (Z * pyval)) :
  open_keys (map (fun _ => Waiting) rows) rows = map fst rows.
Proof. induction rows as [|r rows IH]; simpl; congruence. Qed.

Lemma open_keys_finished (ts : list task_state) (rows : list (Z * pyval)) :
  forallb is_finished ts = true -> open_keys ts rows = [].
Proof.
  revert rows; induction ts as [|t ts IH]; intros [|r rows] H; simpl in *;
    try reflexivity.
  apply andb_true_iff in H. destruct H as [-> H]. now apply IH.
Qed.

(** A coroutine that moves between states in which it has put nothing. *)
Lemma open_keys_set_open (ts : list task_state) (rows : list (Z * pyval))
    (i : nat) (t t' : task_state) :
  nth_error ts i = Some t -> is_finished t = false -> is_finished t' = false ->
  open_keys (set_nth i t' ts) rows = open_keys ts rows.
Proof.
  revert rows i; induction ts as [|t0 ts IH]; intros rows [|i] Hi Ht Ht';
    simpl in *; try discriminate.
  - injection Hi as ->. destruct rows; [reflexivity|]. now rewrite Ht, Ht'.
  - destruct rows as [|r rows]; [reflexivity|].
    now rewrite (IH rows i Hi Ht Ht').
Qed.

(** The coroutine of row [i] returns: its key is no longer open. *)
Lemma open_keys_set_finished (ts : list task_state)
    (rows : list (Z * pyval)) (i : nat) (t : task_state) (row : Z * pyval) :
  nth_error ts i = Some t -> is_finished t = false ->
  nth_error rows i = Some row ->
  Permutation (open_keys ts rows)
    (fst row :: open_keys (set_nth i Finished ts) rows).
Proof.
  revert rows i; induction ts as [|t0 ts IH]; intros rows [|i] Hi Ht Hr;
    simpl in *; try discriminate.
  - injection Hi as ->. destruct rows as [|r rows]; [discriminate|].
    simpl in Hr. injection Hr as ->. now rewrite Ht.
  - destruct rows as [|r rows]; [discriminate|]. simpl in Hr.
    specialize (IH rows i Hi Ht Hr).
    destruct (is_finished t0); [assumption|].
    rewrite perm_swap. now apply perm_skip.
Qed.

Section LoopFacts.

Context {W : Type}.
Variable self : AsyncDownloader W.
Variable world : World.
Variable loc : shard_locals W.

(** The triple a coroutine puts on the queue has the key of its row. *)
Lemma fetch_key (row : Z * pyval) (o : outcome) :
  fetch self world row = Ok o -> fst (fst o) = fst row.
Proof.
  unfold fetch, download_image_with_retry.
  pose proof (retry_loop_spec row (http world (fst row))
                (user_agent_token self) (disallowed_header_directives self)
                (Z.to_nat (retries self + 1)) 0 None) as H.
  cbn zeta in H.
  destruct (retry_loop _ _ _ _ _ _ _) as [[o'|] calls]; cbn [fst snd] in *;
    [|discriminate].
  intros E; injection E as <-.
  destruct H as (_ & _ & Hsame & Hmore).
  destruct calls as [|calls].
  - destruct (Hsame eq_refl) as [? _]. discriminate.
  - destruct Hmore as [E _]; [lia|]. injection E as ->.
    apply download_image_key.
Qed.

Lemma loop_start_invariant :
  loop_invariant loc (loop_start self loc).
Proof.
  unfold loop_invariant, loop_start, queue_shape; cbn.
  split; [apply length_map|]. split; [reflexivity|].
  split; [split; [reflexivity|auto]|].
  exists []. cbn. rewrite open_keys_start. split; [reflexivity|].
  intros ? [].
Qed.

Local Ltac fields :=
  cbn [tasks semaphore data_queue unfinished_tasks download_task
       save_task_returned cons].

Lemma sentinel_head (q q0 : list item) :
  Sentinel :: q = q0 ++ [Sentinel] -> ~ In Sentinel q0 -> q = [].
Proof.
  destruct q0 as [|x q0]; simpl; intros E Hn.
  - now injection E.
  - injection E as <- _. exfalso. apply Hn. now left.
Qed.

Lemma fetched_head (o : outcome) (q q0 : list item) :
  Fetched o :: q = q0 ++ [Sentinel] -> ~ In Sentinel q0 ->
  exists q1, q = q1 ++ [Sentinel] /\ ~ In Sentinel q1.
Proof.
  destruct q0 as [|x q0]; simpl; intros E Hn; [discriminate|].
  injection E as <- ->. exists q0. split; [reflexivity|].
  intros H. apply Hn. now right.
Qed.

(** Every step keeps the invariant. *)
Lemma step_invariant (ev : event) (l l' : loop W) :
  loop_invariant loc l -> step self world loc ev l = Some l' ->
  loop_invariant loc l'.
Proof.
  intros (Hlen & Hcnt & Hshape & skipped & Hperm & Hincl) Hstep.
  unfold loop_invariant, queue_shape in *.
  destruct ev as [i|i| | |]; cbn [step] in Hstep.
  - (* Acquire *)
    destruct (nth_error (tasks l) i) as [[| | |]|] eqn:Hi;
      try discriminate.
    destruct (0 <? semaphore l); [|discriminate].
    injection Hstep as <-. fields.
    split; [now rewrite length_set_nth|]. split; [exact Hcnt|]. split.
    + destruct (download_task l); try exact Hshape.
      destruct Hshape as [Hall _].
      now pose proof (forallb_nth_error _ _ _ _ Hall Hi).
    + exists skipped.
      rewrite (open_keys_set_open _ _ _ Waiting Running Hi) by reflexivity.
      now split.
  - (* Complete *)
    destruct (nth_error (tasks l) i) as [[| | |]|] eqn:Hi;
      try discriminate.
    destruct (nth_error (l_key_url_list loc) i) as [row|] eqn:Hrow;
      [|discriminate].
    destruct (fetch self world row) as [o|e] eqn:Hf;
      injection Hstep as <-; fields.
    + split; [now rewrite length_set_nth|]. split.
      { rewrite length_app. cbn [List.length]. lia. }
      split.
      * destruct (download_task l); try exact Hshape.
        -- destruct Hshape as [Hr Hn]. split; [exact Hr|].
           intros Hin. apply in_app_or in Hin.
           destruct Hin as [Hin|[Hin|[]]]; [now apply Hn|discriminate].
        -- destruct Hshape as [Hall _].
           now pose proof (forallb_nth_error _ _ _ _ Hall Hi).
        -- destruct Hshape as [Hr Hn]. split; [exact Hr|].
           intros Hin. apply in_app_or in Hin.
           destruct Hin as [Hin|[Hin|[]]]; [now apply Hn|discriminate].
      * exists skipped. split; [|exact Hincl].
        rewrite queue_keys_app. cbn [queue_keys].
        rewrite (fetch_key row o Hf).
        rewrite <- Hperm. apply Permutation_app_head, Permutation_app_head.
        rewrite <- app_assoc. apply Permutation_app_head. cbn [app].
        symmetry. now apply (open_keys_set_finished _ _ _ Running).
    + split; [now rewrite length_set_nth|]. split; [exact Hcnt|]. split.
      * destruct (download_task l); try exact Hshape.
        destruct Hshape as [Hall _].
        now pose proof (forallb_nth_error _ _ _ _ Hall Hi).
      * exists skipped.
        rewrite (open_keys_set_open _ _ _ Running Crashed Hi)
          by reflexivity.
        now split.
  - (* PutSentinel *)
    destruct (download_task l) eqn:Hd; try discriminate.
    destruct (forallb is_finished (tasks l)) eqn:Hall; [|discriminate].
    injection Hstep as <-. fields. destruct Hshape as [Hr Hn].
    split; [exact Hlen|]. split.
    { rewrite length_app. cbn [List.length]. lia. }
    split.
    * split; [exact Hall|]. rewrite Hr. now exists (data_queue l).
    * exists skipped. split; [|exact Hincl].
      rewrite queue_keys_app. cbn [queue_keys]. now rewrite app_nil_r.
  - (* JoinReturns *)
    destruct (download_task l) eqn:Hd; try discriminate.
    destruct (Z.eqb_spec (unfinished_tasks l) 0) as [Hz|]; [|discriminate].
    exfalso. destruct Hshape as [_ Hq].
    destruct (save_task_returned l); [lia|].
    destruct Hq as (q & Hq & _). rewrite Hq, length_app in Hcnt.
    cbn [List.length] in Hcnt. lia.
  - (* Get *)
    destruct (save_task_returned l) eqn:Hr; [discriminate|].
    destruct (data_queue l) as [|[o|] q] eqn:Hq; [discriminate| |];
      injection Hstep as <-; fields.
    + destruct (save_item self world (l_shard_id loc) (l_shard_to_dl loc)
                  (l_oom_sample_per_shard loc) (l_caption_indice loc)
                  (l_bbox_indice loc) o (cons l)) as [c' x] eqn:E.
      apply save_item_effect in E.
      destruct E as (Hp & (ws & Hw & Hl & Hk & H1) & _).
      cbn [fst]. split; [exact Hlen|]. split.
      { cbn [List.length] in Hcnt. lia. }
      split.
      * destruct (download_task l); try exact Hshape.
        -- destruct Hshape as [_ Hn]. split; [reflexivity|].
           intros Hin. apply Hn. now right.
        -- destruct Hshape as [Hall (q0 & E0 & Hn)]. split; [exact Hall|].
           exact (fetched_head o q q0 E0 Hn).
        -- destruct Hshape as [_ Hn]. split; [reflexivity|].
           intros Hin. apply Hn. now right.
      * cbn [queue_keys] in Hperm. rewrite Hw, Hp, !map_app.
        destruct ws as [|w [|w' ws]]; cbn [List.length] in Hl; [| |lia].
        -- (* the writer was not called: the key is skipped *)
           destruct x as [err|]; [|specialize (H1 eq_refl); discriminate].
           exists (fst (fst o) :: skipped). cbn [map app].
           rewrite app_nil_r. split.
           ++ rewrite <- Hperm. apply Permutation_app_head. cbn [app].
              apply Permutation_middle.
           ++ intros k [<-|Hin]; apply in_or_app;
                [right; now left|left; now apply Hincl].
        -- exists skipped. cbn [map].
               rewrite (proj1 (Hk w (or_introl eq_refl))).
           split.
           ++ rewrite <- Hperm, <- app_assoc.
              apply Permutation_app_head. cbn [app].
              apply Permutation_middle.
           ++ intros k Hin. apply in_or_app. left. now apply Hincl.
    + destruct (download_task l).
      * exfalso. destruct Hshape as [_ Hn]. apply Hn. now left.
      * destruct Hshape as [Hall (q0 & E0 & Hn)].
        pose proof (sentinel_head q q0 E0 Hn) as ->.
        split; [exact Hlen|]. split; [cbn [List.length] in *; lia|].
        split; [now split|].
        exists skipped. now split.
      * destruct Hshape.
      * exfalso. destruct Hshape as [_ Hn]. apply Hn. now left.
Qed.

Lemma exec_invariant (sched : list event) :
  forall l l', loop_invariant loc l ->
               exec self world loc sched l = Some l' ->
               loop_invariant loc l'.
Proof.
  induction sched as [|ev sched IH]; intros l l' Hinv; cbn [exec].
  - now intros [= <-].
  - destruct (step self world loc ev l) as [l1|] eqn:Hs; [|discriminate].
    apply IH. exact (step_invariant ev l l1 Hinv Hs).
Qed.

Lemma reachable_invariant (l : loop W) :
  reachable self world loc l -> loop_invariant loc l.
Proof.
  intros [sched Hs].
  exact (exec_invariant sched _ _ loop_start_invariant Hs).
Qed.

End LoopFacts.

(** ** Shard runner *)

Lemma enumerate_from_keys {A} (l : list A) :
  forall i, map fst (enumerate_from i l)
            = map (fun k => i + Z.of_nat k) (seq 0 (List.length l)).
Proof.
  induction l as [|x l IH]; intros i; [reflexivity|].
  cbn [enumerate_from map fst List.length seq]. f_equal; [lia|].
  rewrite IH, <- seq_shift, map_map. apply map_ext. intros k. lia.
Qed.

Lemma length_enumerate {A} (l : list A) :
  List.length (enumerate l) = List.length l.
Proof.
  unfold enumerate. generalize 0.
  induction l as [|x l IH]; intros i; simpl; auto.
Qed.

Lemma enumerate_keys {A} (l : list A) :
  map fst (enumerate l) = map Z.of_nat (seq 0 (List.length l)).
Proof.
  unfold enumerate. rewrite enumerate_from_keys. apply map_ext.
  intros k. lia.
Qed.

Lemma traverse_urls (url_indice : Z) (rows : list (Z * list pyval)) :
  forall work,
    traverse (fun kx => bind (py_index (snd kx) url_indice)
                          (fun url => Ok (fst kx, url))) rows = Ok work ->
    map fst work = map fst rows.
Proof.
  induction rows as [|r rows IH]; intros work; cbn [traverse].
  - now intros [= <-].
  - destruct (py_index (snd r) url_indice) as [url|]; cbn [bind];
      [|discriminate].
    destruct (traverse _ rows) as [work'|]; cbn [bind]; [|discriminate].
    intros [= <-]. cbn [map fst]. now rewrite (IH work' eq_refl).
Qed.

(** The work list of a loaded shard has the local keys [0 .. count - 1], in
    order. *)
Lemma prepare_work_list {W} (self : AsyncDownloader W) (world : World)
    (row : Z * string) (loc : shard_locals W) :
  prepare self world row = Ok loc ->
  map fst (l_key_url_list loc)
  = map Z.of_nat (seq 0 (List.length (l_shard_to_dl loc)))
  /\ l_count loc = Z.of_nat (List.length (l_shard_to_dl loc))
  /\ l_shard_id loc = fst row /\ l_shard_path loc = snd row.
Proof.
  unfold prepare. destruct row as [shard_id shard_file].
  destruct (read_shard world shard_file) as [table|]; cbn [bind];
    [|discriminate].
  destruct (traverse _ (column_list self)) as [cols|]; cbn [bind];
    [|discriminate].
  destruct (list_index "url" (column_list self)) as [url_indice|];
    cbn [bind]; [|discriminate].
  destruct (match blurring_bbox_col self with
            | Some col => _
            | None => _
            end) as [bbox_indice|]; cbn [bind]; [|discriminate].
  destruct (traverse _ (enumerate (zip_star cols))) as [work|] eqn:Hw;
    cbn [bind]; [|discriminate].
  destruct (sw_new _ _ _ _ _ _ _) as [w|]; cbn [bind]; [|discriminate].
  destruct (ceil_log10 world _) as [oom|]; cbn [bind]; [|discriminate].
  intros [= <-]. cbn.
  rewrite (traverse_urls _ _ _ Hw), enumerate_keys, length_enumerate. auto.
Qed.

Lemma local_keys_NoDup (n : nat) : NoDup (map Z.of_nat (seq 0 n)).
Proof.
  apply Injective_map_NoDup; [|apply seq_NoDup].
  intros a b. apply Nat2Z.inj.
Qed.

Section RunFacts.

Context {W : Type}.
Variable self : AsyncDownloader W.
Variable world : World.
Variable loc : shard_locals W.

(** Before, during and after the loop of [save_task], the keys passed to
    the writer, with those on the queue and those not yet fetched, are
    keys of the work list, each as often as the work list has it. *)
Lemma written_keys (l : loop W) :
  reachable self world loc l ->
  exists rest,
    Permutation (map fst (writes (cons l)) ++ rest)
      (map fst (l_key_url_list loc)).
Proof.
  intros Hr. apply reachable_invariant in Hr.
  destruct Hr as (_ & _ & _ & skipped & Hperm & _).
  eexists. exact Hperm.
Qed.

(** Only [save_task] touches the consumer's variables. *)
Lemma step_cons (ev : event) (l l' : loop W) :
  step self world loc ev l = Some l' ->
  cons l' = cons l
  \/ exists o,
      cons l' = fst (save_item self world (l_shard_id loc) (l_shard_to_dl loc)
                      (l_oom_sample_per_shard loc) (l_caption_indice loc)
                      (l_bbox_indice loc) o (cons l)).
Proof.
  destruct ev as [i|i| | |]; cbn [step].
  - destruct (nth_error (tasks l) i) as [[| | |]|]; try discriminate.
    destruct (0 <? semaphore l); [|discriminate]. intros [= <-]. now left.
  - destruct (nth_error (tasks l) i) as [[| | |]|]; try discriminate.
    destruct (nth_error (l_key_url_list loc) i) as [row|]; [|discriminate].
    destruct (fetch self world row); intros [= <-]; now left.
  - destruct (download_task l); try discriminate.
    destruct (forallb is_finished (tasks l)); [|discriminate].
    intros [= <-]. now left.
  - destruct (download_task l); try discriminate.
    destruct (unfinished_tasks l =? 0); [|discriminate].
    intros [= <-]. now left.
  - destruct (save_task_returned l); [discriminate|].
    destruct (data_queue l) as [|[o|] q]; [discriminate| |];
      intros [= <-]; [right; now exists o|now left].
Qed.


(** When [save_task] has returned, the queue is empty, only the sentinel
    is unacknowledged, and [download_task] is still waiting on [join]. *)
Lemma save_task_returned_state (l : loop W) :
  reachable self world loc l -> save_task_returned l = true ->
  data_queue l = [] /\ unfinished_tasks l = 1 /\ download_task l = Joining
  /\ forallb is_finished (tasks l) = true.
Proof.
  intros Hr Hret. apply reachable_invariant in Hr.
  destruct Hr as (_ & Hcnt & Hshape & _). unfold queue_shape in Hshape.
  rewrite Hret in *.
  destruct (download_task l);
    try (destruct Hshape as [? _]; discriminate); [|destruct Hshape].
  destruct Hshape as [Hall Hq]. rewrite Hq in *. cbn in Hcnt. auto.
Qed.

(** The wait of [download_task] on [join] never ends. *)
Lemma join_never_returns (l : loop W) :
  reachable self world loc l -> download_task l <> Returned.
Proof.
  intros Hr. apply reachable_invariant in Hr.
  destruct Hr as (_ & _ & Hshape & _). unfold queue_shape in Hshape.
  intros E. now rewrite E in Hshape.
Qed.

(** After [save_task] has returned no step is enabled. *)
Lemma save_task_returned_final (l : loop W) (ev : event) :
  reachable self world loc l -> save_task_returned l = true ->
  step self world loc ev l = None.
Proof.
  intros Hr Hret.
  destruct (save_task_returned_state l Hr Hret) as (Hq & Hu & Hd & Hall).
  destruct ev as [i|i| | |]; cbn [step].
  - destruct (nth_error (tasks l) i) as [t|] eqn:Hi; [|reflexivity].
    pose proof (forallb_nth_error _ _ _ _ Hall Hi). now destruct t.
  - destruct (nth_error (tasks l) i) as [t|] eqn:Hi; [|reflexivity].
    pose proof (forallb_nth_error _ _ _ _ Hall Hi). now destruct t.
  - now rewrite Hd.
  - now rewrite Hd, Hu.
  - now rewrite Hret.
Qed.

End RunFacts.

(** No key is passed to the writer twice, whatever is raised on the way. *)
Lemma no_row_written_twice {W : Type} (self : AsyncDownloader W)
    (world : World) (row : Z * string) (loc : shard_locals W) (l : loop W) :
  prepare self world row = Ok loc ->
  reachable self world loc l ->
  NoDup (map fst (writes (cons l))).
Proof.
  intros Hprep Hreach.
  destruct (prepare_work_list self world row loc Hprep) as (Hkeys & _).
  destruct (written_keys self world loc l Hreach) as (rest & Hperm).
  assert (Hnd : NoDup (map fst (writes (cons l)) ++ rest)).
  { eapply Permutation_NoDup; [symmetry; exact Hperm|].
    rewrite Hkeys. apply local_keys_NoDup. }
  now apply NoDup_app_remove_r in Hnd.
Qed.

(** C2. The shard with no row: [download_task] puts the sentinel,
    [save_task] takes it and leaves its loop before the [try] statement,
    so without [task_done]; [run] closes the writer and returns; the
    statistics are written and the shard file is removed. The counter of the
    queue is still 1 and the wait on [join] has not ended. *)
Theorem sentinel_is_not_acknowledged :
  let run := download_shard (Demo.downloader Demo.writer 2) Demo.world
               [PutSentinel; Get] (4, "empty.feather"%string) in
  outcome_of run = Returns tt
  /\ In WriterClosed (effects run)
  /\ In (ShardRemoved "empty.feather") (effects run)
  /\ exists l, last_loop run = Some l
               /\ save_task_returned l = true
               /\ unfinished_tasks l = 1
               /\ download_task l = Joining.
Proof.
  vm_compute. repeat split; auto.
  eexists. repeat split; reflexivity.
Qed.

(** The same with the two rows of [Demo.world]: the two triples are
    acknowledged, the sentinel is not. *)
Example two_rows_leave_sentinel :
  let run := download_shard (Demo.downloader Demo.writer 2) Demo.world
               Demo.out_of_turn (3, "two.feather"%string) in
  outcome_of run = Returns tt
  /\ exists l, last_loop run = Some l /\ unfinished_tasks l = 1
               /\ download_task l = Joining.
Proof. vm_compute. split; [reflexivity|]. eexists. repeat split; reflexivity. Qed.

(** C9. A run of [download_shard] that returns has seen, in this order,
    [save_task] return, the writer closed without an exception, the
    statistics written and the shard file removed. A run that raises, in the
    prologue, in [asyncio.run] (the close of the writer included), in
    [write_stats] or in [fs.rm], and a run whose event loop has not ended,
    have not removed the shard file. *)
Theorem shard_removed_last {W : Type} (self : AsyncDownloader W)
    (world : World) (sched : list event) (row : Z * string) :
  let run := download_shard self world sched row in
  match outcome_of run with
  | Returns _ =>
      exists loc l,
        prepare self world row = Ok loc
        /\ exec self world loc sched (loop_start self loc) = Some l
        /\ save_task_returned l = true
        /\ snd (sw_close (sample_writer_class self) (sample_writer (cons l)))
           = None
        /\ write_stats world (shard_stats self loc (cons l)) = None
        /\ effects run = [SaveTaskReturned; WriterClosed;
                          StatsWritten (shard_stats self loc (cons l));
                          ShardRemoved (snd row)]
  | Raises _ | Pending =>
      forall path, ~ In (ShardRemoved path) (effects run)
  end.
Proof.
  cbn zeta. unfold download_shard.
  destruct (prepare self world row) as [loc|e] eqn:Hprep;
    [|cbn; intros path []].
  destruct (prepare_work_list self world row loc Hprep) as (_ & _ & _ & Hpath).
  unfold asyncio_run.
  destruct (thread_count self <? 0); [cbn; intros path []|].
  destruct (exec self world loc sched (loop_start self loc)) as [l|] eqn:He;
    [|cbn; intros path []].
  destruct (save_task_returned l) eqn:Hret; [|cbn; intros path []].
  destruct (sw_close (sample_writer_class self) (sample_writer (cons l)))
    as [w' [e|]] eqn:Hc.
  - cbn. intros path [H|[]]. discriminate.
  - destruct (write_stats world (shard_stats self loc (cons l))) as [e|] eqn:Hs.
    + cbn. intros path [H|[H|[]]]; discriminate.
    + destruct (fs_rm world (l_shard_path loc)) as [e|].
      * cbn. intros path [H|[H|[H|[]]]]; discriminate.
      * cbn [outcome_of effects app]. exists loc, l.
        rewrite Hpath. repeat split; auto. now rewrite Hc.
Qed.

(** Examples: the writer fails to close, and the file stays. *)
Example close_failure_keeps_shard :
  let w := {| sw_new := sw_new Demo.writer;
              sw_write := sw_write Demo.writer;
              sw_close := fun w => (w, Some (Exception "flush failed")) |} in
  let run := download_shard (Demo.downloader w 2) Demo.world Demo.in_turn
               (3, "two.feather"%string) in
  outcome_of run = Raises (Exception "flush failed")
  /\ effects run = [SaveTaskReturned].
Proof. split; reflexivity. Qed.

(** *** The event loop can end *)

Lemma nth_error_middle {A} (a b : list A) (y : A) :
  nth_error (a ++ y :: b) (List.length a) = Some y.
Proof. induction a as [|x a IH]; simpl; auto. Qed.

Lemma set_nth_middle {A} (a b : list A) (x y : A) :
  set_nth (List.length a) x (a ++ y :: b) = a ++ x :: b.
Proof. induction a as [|z a IH]; simpl; [reflexivity|now rewrite IH]. Qed.

Section Progress.

Context {W : Type}.
Variable self : AsyncDownloader W.
Variable world : World.
Variable loc : shard_locals W.

Hypothesis retries_nonneg : 0 <= retries self.

Lemma exec_app (a b : list event) (l : loop W) :
  exec self world loc (a ++ b) l =
    match exec self world loc a l with
    | Some l1 => exec self world loc b l1
    | None => None
    end.
Proof.
  revert l; induction a as [|ev a IH]; intros l; cbn [app exec];
    [reflexivity|].
  destruct (step self world loc ev l); [apply IH|reflexivity].
Qed.

(** With [retries >= 0] every coroutine puts a triple. *)
Lemma fetch_ok (row : Z * pyval) : exists o, fetch self world row = Ok o.
Proof.
  unfold fetch. now apply retry_puts.
Qed.

Lemma step_acquire (i : nat) (l : loop W) :
  nth_error (tasks l) i = Some Waiting -> 0 < semaphore l ->
  step self world loc (Acquire i) l = Some (acquired i l).
Proof.
  intros Hi Hsem. cbn [step]. rewrite Hi.
  destruct (Z.ltb_spec 0 (semaphore l)); [reflexivity|lia].
Qed.

Lemma step_complete (i : nat) (row : Z * pyval) (o : outcome)
    (l : loop W) :
  nth_error (tasks l) i = Some Running ->
  nth_error (l_key_url_list loc) i = Some row ->
  fetch self world row = Ok o ->
  step self world loc (Complete i) l = Some (completed i o l).
Proof. intros Hi Hrow Ho. cbn [step]. now rewrite Hi, Hrow, Ho. Qed.

Lemma fetch_all_exec (todo : list (Z * pyval)) :
  forall (done : list (Z * pyval)) (l : loop W),
    l_key_url_list loc = done ++ todo ->
    tasks l = map (fun _ => Finished) done ++ map (fun _ => Waiting) todo ->
    0 < semaphore l ->
    download_task l = Gathering ->
    exists l' outs,
      exec self world loc
        (fetch_all (List.length done) (List.length todo)) l = Some l'
      /\ tasks l' = map (fun _ => Finished) (done ++ todo)
      /\ download_task l' = Gathering
      /\ save_task_returned l' = save_task_returned l
      /\ data_queue l' = data_queue l ++ map Fetched outs
      /\ List.length outs = List.length todo.
Proof.
  induction todo as [|row todo IH]; intros done l Hrows Ht Hsem Hd.
  - exists l, []. cbn [fetch_all List.length exec map].
    rewrite !app_nil_r in *. repeat split; auto.
  - cbn [List.length fetch_all exec map] in *.
    pose proof (length_map (fun _ : Z * pyval => Finished) done) as Hlen.
    assert (Hi : nth_error (tasks l) (List.length done) = Some Waiting).
    { rewrite Ht, <- Hlen. apply nth_error_middle. }
    rewrite (step_acquire _ l Hi Hsem).
    assert (Ht1 : tasks (acquired (List.length done) l)
                  = map (fun _ => Finished) done
                      ++ Running :: map (fun _ => Waiting) todo).
    { unfold acquired; cbn [tasks]. rewrite Ht, <- Hlen.
      apply set_nth_middle. }
    assert (Hi1 : nth_error (tasks (acquired (List.length done) l))
                    (List.length done) = Some Running).
    { rewrite Ht1, <- Hlen. apply nth_error_middle. }
    assert (Hrow : nth_error (l_key_url_list loc) (List.length done)
                   = Some row).
    { rewrite Hrows. apply nth_error_middle. }
    destruct (fetch_ok row) as [o Ho].
    rewrite (step_complete _ row o _ Hi1 Hrow Ho).
    destruct (IH (done ++ [row])
                (completed (List.length done) o
                   (acquired (List.length done) l)))
      as (l' & outs & He & Ht' & Hd' & Hr' & Hq' & Hl').
    + now rewrite <- app_assoc.
    + unfold completed; cbn [tasks]. rewrite Ht1, <- Hlen, set_nth_middle.
      rewrite map_app, <- app_assoc. reflexivity.
    + unfold completed, acquired; cbn [semaphore]. lia.
    + exact Hd.
    + exists l', (o :: outs). rewrite length_app in He.
      cbn [List.length] in He. rewrite Nat.add_1_r in He. rewrite He.
      unfold completed, acquired in Hr', Hq'.
      cbn [save_task_returned data_queue] in *.
      rewrite <- app_assoc in Ht', Hq'.
      repeat split; auto. cbn [List.length]. now rewrite Hl'.
Qed.

Lemma consume_exec (outs : list outcome) :
  forall l : loop W,
    save_task_returned l = false ->
    data_queue l = map Fetched outs ++ [Sentinel] ->
    exists l',
      exec self world loc (repeat Get (S (List.length outs))) l = Some l'
      /\ save_task_returned l' = true.
Proof.
  induction outs as [|o outs IH]; intros l Hr Hq;
    cbn [List.length repeat exec step map app] in *; rewrite Hr, Hq.
  - eexists. split; reflexivity.
  - apply IH; reflexivity.
Qed.

(** With a semaphore that admits one coroutine and [retries >= 0], the
    sequential schedule brings [save_task] to its end. *)
Lemma sequential_completes :
  0 < thread_count self ->
  exists l,
    exec self world loc (sequential (List.length (l_key_url_list loc)))
      (loop_start self loc) = Some l
    /\ save_task_returned l = true.
Proof.
  intros Hsem. unfold sequential. rewrite exec_app.
  destruct (fetch_all_exec (l_key_url_list loc) [] (loop_start self loc))
    as (l1 & outs & He & Ht & Hd & Hr & Hq & Hl); try reflexivity.
  { exact Hsem. }
  cbn [List.length] in He. rewrite He. cbn [exec step].
  rewrite Hd, Ht. cbn [app].
  assert (Hall : forallb is_finished
                   (map (fun _ : Z * pyval => Finished) (l_key_url_list loc))
                 = true).
  { generalize (l_key_url_list loc) as rows.
    induction rows; simpl; auto. }
  rewrite Hall. rewrite <- Hl.
  apply consume_exec; cbn [save_task_returned data_queue].
  - exact Hr.
  - rewrite Hq. reflexivity.
Qed.

End Progress.

(** C8. [__call__] returns in every case in which [download_shard] returns
    or raises: [(True, row)] when it returns, [(False, row)], with the shard
    id and the error printed, when it raises, in the prologue, in the event
    loop or after it. It raises nothing itself. *)
Theorem call_isolates_shard {W : Type} (self : AsyncDownloader W)
    (world : World) (sched : list event) (row : Z * string) :
  match outcome_of (download_shard self world sched row) with
  | Returns _ => call self world sched row = (Returns (true, row), None)
  | Raises err =>
      call self world sched row = (Returns (false, row), Some (fst row, err))
  | Pending => call self world sched row = (Pending, None)
  end
  /\ forall e, fst (call self world sched row) <> Raises e.
Proof.
  unfold call.
  destruct (outcome_of (download_shard self world sched row));
    split; try reflexivity; intros e' H; discriminate.
Qed.

(** Whenever the semaphore admits a coroutine (or is refused for a negative
    value) and [retries >= 0], there is a schedule under which [__call__]
    returns: the pair is [(True, row)] or [(False, row)]. *)
Lemma call_returns {W : Type} (self : AsyncDownloader W) (world : World)
    (row : Z * string) :
  thread_count self <> 0 -> 0 <= retries self ->
  exists sched b, fst (call self world sched row) = Returns (b, row).
Proof.
  intros Hsem Hr.
  destruct (prepare self world row) as [loc|e] eqn:Hprep.
  - exists (sequential (List.length (l_key_url_list loc))).
    unfold call, download_shard, asyncio_run. rewrite Hprep.
    destruct (Z.ltb_spec (thread_count self) 0) as [Hneg|Hpos].
    + exists false. reflexivity.
    + destruct (sequential_completes self world loc Hr) as (l & He & Hret);
        [lia|].
      rewrite He, Hret.
      destruct (sw_close _ _) as [w' [e|]]; [exists false; reflexivity|].
      destruct (write_stats world _) as [e|]; [exists false; reflexivity|].
      destruct (fs_rm world _) as [e|]; [exists false|exists true];
        reflexivity.
  - exists [], false. unfold call, download_shard. now rewrite Hprep.
Qed.

(** A shard file that cannot be read, a shard without a [url] column and a
    negative semaphore value all give [(False, row)]; the shard of two rows
    gives [(True, row)]. *)
Example call_unreadable_shard :
  call (Demo.downloader Demo.writer 2) Demo.world Demo.in_turn
    (7, "missing.feather"%string)
  = (Returns (false, (7, "missing.feather"%string)),
     Some (7, Exception "No such file or directory")).
Proof. reflexivity. Qed.

Example call_two_rows :
  call (Demo.downloader Demo.writer 2) Demo.world Demo.in_turn
    (3, "two.feather"%string)
  = (Returns (true, (3, "two.feather"%string)), None).
Proof. reflexivity. Qed.

Example call_close_fails :
  let w := {| sw_new := sw_new Demo.writer;
              sw_write := sw_write Demo.writer;
              sw_close := fun w => (w, Some (Exception "flush failed")) |} in
  call (Demo.downloader w 2) Demo.world Demo.in_turn (3, "two.feather"%string)
  = (Returns (false, (3, "two.feather"%string)),
     Some (3, Exception "flush failed")).
Proof. reflexivity. Qed.

(** With [retries = -1] the coroutines raise, the sentinel is never put and
    [save_task] waits for ever: no step is enabled after the two coroutines
    have ended. *)
Example negative_retries_blocks :
  exists l,
    exec (Demo.downloader Demo.writer (-1)) Demo.world
      (Demo.locals Demo.writer) [Acquire 0; Complete 0; Acquire 1; Complete 1]
      (loop_start (Demo.downloader Demo.writer (-1)) (Demo.locals Demo.writer))
    = Some l
    /\ download_task l = Died
    /\ data_queue l = []
    /\ step (Demo.downloader Demo.writer (-1)) Demo.world
         (Demo.locals Demo.writer) PutSentinel l = None
    /\ step (Demo.downloader Demo.writer (-1)) Demo.world
         (Demo.locals Demo.writer) Get l = None.
Proof. eexists. repeat split; reflexivity. Qed.

(** * Further properties *)

(** ** Lower-casing and trimming *)

Module NormalFacts.
Import PyStr.

Lemma lower_char_idem (c : ascii) : lower_char (lower_char c) = lower_char c.
Proof. destruct c as [[] [] [] [] [] [] [] []]; reflexivity. Qed.

Lemma isspace_lower_char (c : ascii) : isspace (lower_char c) = isspace c.
Proof. destruct c as [[] [] [] [] [] [] [] []]; reflexivity. Qed.

Lemma colon_lower_char (c : ascii) :
  Ascii.eqb (lower_char c) ":" = Ascii.eqb c ":".
Proof. destruct c as [[] [] [] [] [] [] [] []]; reflexivity. Qed.

Lemma comma_lower_char (c : ascii) :
  Ascii.eqb (lower_char c) "," = Ascii.eqb c ",".
Proof. destruct c as [[] [] [] [] [] [] [] []]; reflexivity. Qed.

Lemma lower_idem (s : string) : lower (lower s) = lower s.
Proof.
  induction s as [|c s IH]; simpl; [reflexivity|].
  now rewrite lower_char_idem, IH.
Qed.

Lemma lower_empty (s : string) : lower s = EmptyString -> s = EmptyString.
Proof. destruct s; [reflexivity|discriminate]. Qed.

Lemma lstrip_lower (s : string) : lstrip (lower s) = lower (lstrip s).
Proof.
  induction s as [|c s IH]; simpl; [reflexivity|].
  rewrite isspace_lower_char. now destruct (isspace c).
Qed.

Lemma rstrip_lower (s : string) : rstrip (lower s) = lower (rstrip s).
Proof.
  induction s as [|c s IH]; simpl; [reflexivity|].
  rewrite IH, isspace_lower_char.
  destruct (rstrip s) as [|c' r]; simpl; [|reflexivity].
  now destruct (isspace c).
Qed.

(** Trimming and lower-casing can be done in either order. *)
Lemma strip_lower (s : string) : strip (lower s) = lower (strip s).
Proof. unfold strip. now rewrite lstrip_lower, rstrip_lower. Qed.

Lemma lstrip_clean (s : string) : clean_start (lstrip s) = true.
Proof.
  induction s as [|c s IH]; simpl; [reflexivity|].
  destruct (isspace c) eqn:E; [exact IH|]. simpl. now rewrite E.
Qed.

Lemma lstrip_of_clean (s : string) : clean_start s = true -> lstrip s = s.
Proof.
  destruct s as [|c s]; simpl; [reflexivity|].
  now destruct (isspace c).
Qed.

Lemma rstrip_clean (s : string) :
  clean_start s = true -> clean_start (rstrip s) = true.
Proof.
  destruct s as [|c s]; simpl; [reflexivity|]. intros Hc.
  destruct (rstrip s); simpl; [|exact Hc].
  destruct (isspace c) eqn:E; [reflexivity|]. simpl. now rewrite E.
Qed.

Lemma rstrip_idem (s : string) : rstrip (rstrip s) = rstrip s.
Proof.
  induction s as [|c s IH]; simpl; [reflexivity|].
  destruct (rstrip s) as [|c' r] eqn:E.
  - destruct (isspace c) eqn:Hc; simpl; [reflexivity|now rewrite Hc].
  - cbn [rstrip] in *. now rewrite IH.
Qed.

Lemma strip_idem (s : string) : strip (strip s) = strip s.
Proof.
  unfold strip.
  rewrite (lstrip_of_clean (rstrip (lstrip s)))
    by apply rstrip_clean, lstrip_clean.
  apply rstrip_idem.
Qed.

(** The normal form of [__init__] is a fixed point of the normalisation. *)
Lemma normal_idem (s : string) :
  lower (strip (lower (strip s))) = lower (strip s).
Proof. now rewrite strip_lower, strip_idem, lower_idem. Qed.

Lemma partition_lower (s : string) :
  partition ":" (lower s)
  = (lower (fst (partition ":" s)), option_map lower (snd (partition ":" s))).
Proof.
  induction s as [|c s IH]; simpl; [reflexivity|].
  rewrite colon_lower_char. destruct (Ascii.eqb c ":"); [reflexivity|].
  rewrite IH. now destruct (partition ":" s).
Qed.

Lemma split_lower (s : string) :
  split "," (lower s) = map lower (split "," s).
Proof.
  induction s as [|c s IH]; simpl; [reflexivity|].
  rewrite comma_lower_char, IH.
  destruct (Ascii.eqb c ","); [reflexivity|].
  now destruct (split "," s).
Qed.

End NormalFacts.

(** ** Policy filter, further *)

Section PolicyFacts.

Variable tok : option string.
Variable dis : list string.

(** The scan as a test on every header. *)
Lemma is_disallowed_existsb (headers : headers_t) :
  is_disallowed headers tok dis =
    existsb (fun kv => String.eqb (PyStr.lower (fst kv)) "x-robots-tag"
                       && value_disallowed tok dis (snd kv)) headers.
Proof.
  unfold is_disallowed. rewrite scan_values_existsb. unfold getall.
  change (PyStr.lower "X-Robots-Tag") with "x-robots-tag"%string.
  induction headers as [|kv headers IH]; simpl; [reflexivity|].
  destruct (String.eqb (PyStr.lower (fst kv)) "x-robots-tag"); simpl;
    now rewrite IH.
Qed.

End PolicyFacts.

(** X1. The headers are scanned one by one: a collection is disallowed when
    one of its parts is. *)
Theorem is_disallowed_app (headers1 headers2 : headers_t)
    (tok : option string) (dis : list string) :
  is_disallowed (headers1 ++ headers2) tok dis
  = is_disallowed headers1 tok dis || is_disallowed headers2 tok dis.
Proof. rewrite !is_disallowed_existsb. apply existsb_app. Qed.

(** X2. With no directive to refuse, nothing is disallowed. *)
Theorem is_disallowed_no_directive (headers : headers_t)
    (tok : option string) :
  is_disallowed headers tok [] = false.
Proof.
  rewrite is_disallowed_existsb.
  induction headers as [|kv headers IH]; simpl; [reflexivity|].
  rewrite IH, orb_false_r. apply andb_false_iff. right.
  unfold value_disallowed. apply andb_false_iff. right.
  induction (map _ _) as [|d ds IHd]; simpl; auto.
Qed.

Lemma value_disallowed_lower (tok : option string) (dis : list string)
    (v : string) :
  value_disallowed tok dis (PyStr.lower v) = value_disallowed tok dis v.
Proof.
  rewrite !value_disallowed_rule, NormalFacts.partition_lower.
  destruct (PyStr.partition ":" v) as [first [rest|]]; cbn [fst snd option_map].
  - rewrite NormalFacts.lower_idem, NormalFacts.split_lower, map_map.
    f_equal. f_equal. apply map_ext. intros x.
    now rewrite NormalFacts.strip_lower, NormalFacts.lower_idem.
  - rewrite NormalFacts.split_lower, map_map.
    f_equal. f_equal. apply map_ext. intros x.
    now rewrite NormalFacts.strip_lower, NormalFacts.lower_idem.
Qed.

(** X3. For header names and values of code points below 256, which are
    the strings of this embedding, neither the case of a header's name nor
    the case of its value matters: there [str.lower] acts character by
    character and keeps the colon and the comma, so it goes through the
    splits of the scan. *)
Theorem is_disallowed_case (headers : headers_t) (tok : option string)
    (dis : list string) :
  is_disallowed
    (map (fun kv => (PyStr.lower (fst kv), PyStr.lower (snd kv))) headers)
    tok dis
  = is_disallowed headers tok dis.
Proof.
  rewrite !is_disallowed_existsb.
  induction headers as [|kv headers IH]; simpl; [reflexivity|].
  now rewrite IH, NormalFacts.lower_idem, value_disallowed_lower.
Qed.

(** X4. A downloader with no token takes into account only the values that
    name no token. *)
Theorem is_disallowed_without_token (headers : headers_t)
    (dis : list string) :
  is_disallowed headers None dis
  = is_disallowed (filter (fun kv => names_no_token (snd kv)) headers)
      None dis.
Proof.
  rewrite !is_disallowed_existsb.
  induction headers as [|kv headers IH]; simpl; [reflexivity|].
  unfold names_no_token at 1.
  destruct (snd (PyStr.partition ":" (snd kv))) as [rest|] eqn:E.
  - rewrite <- IH. rewrite value_disallowed_rule.
    destruct (PyStr.partition ":" (snd kv)) as [first r]. cbn [snd] in E.
    subst r. cbn [token_eqb]. now rewrite andb_false_r.
  - simpl. now rewrite IH.
Qed.

(** X5. What is disallowed for a downloader with no token is disallowed for
    every token. *)
Theorem is_disallowed_any_token (headers : headers_t) (tok : option string)
    (dis : list string) :
  is_disallowed headers None dis = true ->
  is_disallowed headers tok dis = true.
Proof.
  rewrite !is_disallowed_existsb, !existsb_exists.
  intros (kv & Hin & H). exists kv. split; [exact Hin|].
  apply andb_true_iff in H. destruct H as [Hn Hv].
  rewrite Hn. cbn [andb]. rewrite value_disallowed_rule in *.
  destruct (PyStr.partition ":" (snd kv)) as [first [rest|]];
    [discriminate|exact Hv].
Qed.

Lemma is_disallowed_any_token_witness :
  is_disallowed [("X-Robots-Tag", "noai, noindex")]%string
    (Some "mybot"%string) ["noindex"%string] = true.
Proof.
  apply (is_disallowed_any_token [("X-Robots-Tag", "noai, noindex")]%string
           (Some "mybot"%string) ["noindex"%string]).
  reflexivity.
Defined.

(** X6. A larger set of directives disallows at least as much. *)
Theorem is_disallowed_more_directives (headers : headers_t)
    (tok : option string) (dis dis' : list string) :
  incl dis dis' ->
  is_disallowed headers tok dis = true ->
  is_disallowed headers tok dis' = true.
Proof.
  intros Hincl. rewrite !is_disallowed_existsb, !existsb_exists.
  intros (kv & Hin & H). exists kv. split; [exact Hin|].
  apply andb_true_iff in H. destruct H as [Hn Hv]. rewrite Hn. cbn [andb].
  unfold value_disallowed in *. apply andb_true_iff in Hv.
  destruct Hv as [Ht Hd]. rewrite Ht. cbn [andb].
  rewrite existsb_exists in *. destruct Hd as (d & Hdin & Hmem).
  exists d. split; [exact Hdin|].
  unfold PyStr.mem in *. rewrite existsb_exists in *.
  destruct Hmem as (x & Hx & E). exists x. split; [now apply Hincl|exact E].
Qed.

Lemma is_disallowed_more_directives_witness :
  is_disallowed [("X-Robots-Tag", "mybot: noai")]%string
    (Some "mybot"%string) ["noindex"; "noai"]%string = true.
Proof.
  apply (is_disallowed_more_directives
           [("X-Robots-Tag", "mybot: noai")]%string (Some "mybot"%string)
           ["noai"%string] ["noindex"; "noai"]%string).
  - intros x [<-|[]]. right. now left.
  - reflexivity.
Defined.

(** The code and the rule of the specification agree on a value that
    names no token, and on one whose token has no white space around it. *)
Lemma value_disallowed_token_is_trimmed (tok : option string)
    (dis : list string) (v : string) :
  token_is_trimmed v = true ->
  value_disallowed tok dis v = spec_value_matches tok dis v.
Proof.
  unfold token_is_trimmed. intros Ht.
  rewrite value_disallowed_rule. unfold spec_value_matches.
  destruct (PyStr.partition ":" v) as [first [rest|]]; [|reflexivity].
  apply String.eqb_eq in Ht. now rewrite Ht.
Qed.

(** X7. When no value of an [X-Robots-Tag] header has white space around
    its token, the scan is the rule that trims the token as well. Nothing
    is asked of the values that name no token, nor of the other headers. *)
Theorem is_disallowed_trimmed_tokens (headers : headers_t)
    (tok : option string) (dis : list string) :
  forallb token_is_trimmed (getall "X-Robots-Tag" headers) = true ->
  is_disallowed headers tok dis = spec_is_disallowed headers tok dis.
Proof.
  unfold is_disallowed, spec_is_disallowed.
  rewrite scan_values_existsb.
  induction (getall "X-Robots-Tag" headers) as [|v vs IH];
    cbn [existsb forallb]; [reflexivity|].
  intros Hall. apply andb_true_iff in Hall. destruct Hall as [Hv Hall].
  now rewrite (IH Hall), (value_disallowed_token_is_trimmed tok dis v Hv).
Qed.

(** A response with a header of another name that has a space before a
    colon, a value with no token that begins with a space, and a value
    whose token is trimmed. *)
Lemma is_disallowed_trimmed_tokens_witness :
  is_disallowed
    [("Server-Timing", "cache;desc=a :b"); ("X-Robots-Tag", " noai");
     ("x-robots-tag", "MyBot: NoIndex , nofollow")]%string
    (Some "mybot"%string) ["noindex"%string]
  = spec_is_disallowed
      [("Server-Timing", "cache;desc=a :b"); ("X-Robots-Tag", " noai");
       ("x-robots-tag", "MyBot: NoIndex , nofollow")]%string
      (Some "mybot"%string) ["noindex"%string].
Proof.
  apply (is_disallowed_trimmed_tokens
           [("Server-Timing", "cache;desc=a :b"); ("X-Robots-Tag", " noai");
            ("x-robots-tag", "MyBot: NoIndex , nofollow")]%string
           (Some "mybot"%string) ["noindex"%string]).
  reflexivity.
Defined.

(** ** [__init__] and [make_headers] *)

(** X8. Building a downloader from the fields of a downloader gives the
    same downloader: the token and the directives are in normal form. *)
Theorem init_idempotent {W : Type} (args : AsyncDownloader W) :
  init (init args) = init args.
Proof.
  unfold init.
  cbn [sample_writer_class resizer thread_count save_caption extract_exif
       output_folder column_list timeout number_sample_per_shard
       oom_shard_count compute_hash encode_format retries user_agent_token
       disallowed_header_directives blurring_bbox_col].
  f_equal.
  - unfold init_user_agent_token.
    destruct (user_agent_token args) as [t|]; cbn [option_map];
      [|reflexivity].
    now rewrite NormalFacts.normal_idem.
  - unfold init_disallowed_header_directives.
    destruct (disallowed_header_directives args) as [ds|]; cbn [option_map];
      [|reflexivity].
    rewrite map_map. f_equal. apply map_ext. intros d.
    apply NormalFacts.normal_idem.
Qed.

Lemma prefix_append (s t : string) : String.prefix s (String.append s t) = true.
Proof.
  induction s as [|c s IH]; simpl; [now destruct t|].
  destruct (ascii_dec c c); [exact IH|congruence].
Qed.

(** X9. The request headers are one [User-Agent] header that begins with
    the browser's product string; it is the product string alone exactly
    when the token is [None] or empty. *)
Theorem make_headers_user_agent (user_agent_token : option string) :
  exists ua,
    make_headers user_agent_token = [("User-Agent"%string, ua)]
    /\ String.prefix user_agent_product ua = true
    /\ (ua = user_agent_product
        <-> user_agent_token = None \/ user_agent_token = Some EmptyString).
Proof.
  unfold make_headers.
  destruct user_agent_token as [[|c t]|].
  - exists user_agent_product. split; [reflexivity|].
    split; [reflexivity|]. split; auto.
  - eexists. split; [reflexivity|]. split; [apply prefix_append|].
    split.
    + intros E. apply (f_equal String.length) in E.
      rewrite PyStrFacts.length_append in E. simpl in E. lia.
    + intros [H|H]; discriminate.
  - exists user_agent_product. split; [reflexivity|].
    split; [reflexivity|]. split; auto.
Qed.

(** ** Fetcher, further *)

(** X10. [download_image] returns a payload exactly when the response is
    not refused by the policy filter, its body is read and it is released
    without an exception. *)
Theorem download_image_payload (row : Z * pyval) (session : session_behaviour)
    (tok : option string) (dis : option (list string)) :
  has_payload (fst (download_image row session tok dis)) = true
  <-> exists headers body,
        session = Responds headers (Ok body) None
        /\ truthy dis && is_disallowed headers tok (directive_set dis) = false.
Proof.
  destruct row as [key url]. unfold download_image.
  destruct session as [err|headers [body|e1] [e2|]]; cbn [fst has_payload].
  - split; [discriminate|]. intros (h & b & H & _). discriminate.
  - destruct (truthy dis); [destruct (is_disallowed _ _ _)|];
      (split; [discriminate|]); intros (h & b & H & _); discriminate.
  - destruct (truthy dis); [destruct (is_disallowed headers tok _) eqn:E|];
      cbn [fst has_payload andb].
    + split; [discriminate|]. intros (h & b & H & Hd).
      injection H as <- <-. rewrite E in Hd. discriminate.
    + split; [|reflexivity]. intros _. exists headers, body. now rewrite E.
    + split; [|reflexivity]. intros _. now exists headers, body.
  - destruct (truthy dis); [destruct (is_disallowed _ _ _)|];
      (split; [discriminate|]); intros (h & b & H & _); discriminate.
  - destruct (truthy dis); [destruct (is_disallowed _ _ _)|];
      (split; [discriminate|]); intros (h & b & H & _); discriminate.
Qed.

(** X11. A response that the policy filter refuses is not read: the body
    is left alone and no payload is returned; the error is the fixed
    message unless the release of the response raises. *)
Theorem download_image_refused (key : Z) (url : pyval) (headers : headers_t)
    (read : result string) (aexit : option exn) (tok : option string)
    (dis : option (list string)) :
  truthy dis = true ->
  is_disallowed headers tok (directive_set dis) = true ->
  let run := download_image (key, url) (Responds headers read aexit) tok dis in
  ~ In BodyRead (snd run)
  /\ fst run = (key, None,
                Some (match aexit with
                      | None => rejected_message
                      | Some err => str err
                      end)).
Proof.
  intros Ht Hd. cbn zeta. unfold download_image. rewrite Ht, Hd.
  destruct aexit; cbn [fst snd]; (split; [|reflexivity]);
    intros [H|[]]; discriminate.
Qed.

Lemma download_image_refused_witness :
  let run := download_image (5, PStr "http://a/5.jpg")
               (Responds [("X-Robots-Tag", "noai")]%string (Ok "abc"%string)
                  None)
               None (Some ["noai"%string]) in
  ~ In BodyRead (snd run)
  /\ fst run = (5, None, Some rejected_message).
Proof.
  apply (download_image_refused 5 (PStr "http://a/5.jpg")
           [("X-Robots-Tag", "noai")]%string (Ok "abc"%string) None None
           (Some ["noai"%string])); reflexivity.
Defined.

(** X12. The stream made from the body is closed by [download_image]
    exactly when it is not returned: a stream is closed when, and only
    when, the body was read and the release of the response raised. *)
Theorem download_image_stream (row : Z * pyval) (session : session_behaviour)
    (tok : option string) (dis : option (list string)) :
  In StreamClosed (snd (download_image row session tok dis))
  <-> exists headers body err,
        session = Responds headers (Ok body) (Some err)
        /\ In BodyRead (snd (download_image row session tok dis))
        /\ has_payload (fst (download_image row session tok dis)) = false.
Proof.
  destruct row as [key url]. unfold download_image.
  destruct session as [err|headers [body|e1] [e2|]].
  - cbn. split; [intros []|]. intros (h & b & e & H & _). discriminate.
  - destruct (truthy dis); [destruct (is_disallowed _ _ _)|]; cbn.
    + split; [intros [H|[]]; discriminate|]. intros (h & b & e & _ & H & _).
      destruct H as [H|[]]. discriminate.
    + split; [|intuition].
      intros _. exists headers, body, e2. intuition.
    + split; [|intuition].
      intros _. exists headers, body, e2. intuition.
  - destruct (truthy dis); [destruct (is_disallowed _ _ _)|]; cbn;
      (split; [intros H; intuition discriminate|]);
      intros (h & b & e & H & _); discriminate.
  - destruct (truthy dis); [destruct (is_disallowed _ _ _)|]; cbn;
      (split; [intros H; intuition discriminate|]);
      intros (h & b & e & H & _); discriminate.
  - destruct (truthy dis); [destruct (is_disallowed _ _ _)|]; cbn;
      (split; [intros H; intuition discriminate|]);
      intros (h & b & e & H & _); discriminate.
Qed.

Section RetryFacts.

Variable row : Z * pyval.
Variable session : nat -> session_behaviour.
Variable tok : option string.
Variable dis : option (list string).

(** A loop that has stopped on a payload stops at the same request when it
    is given more iterations. *)
Lemma retry_loop_more (n : nat) :
  forall i last o calls k,
    match last with
    | Some o' => has_payload o' = false
    | None => True
    end ->
    retry_loop n i last row session tok dis = (Some o, calls) ->
    has_payload o = true ->
    retry_loop (n + k) i last row session tok dis = (Some o, calls).
Proof.
  induction n as [|n IH]; intros i last o calls k Hlast E Hp.
  - cbn [retry_loop] in E. injection E as -> _. rewrite Hp in Hlast.
    discriminate.
  - cbn [retry_loop Nat.add] in *.
    destruct (fst (download_image row (session i) tok dis))
      as [[key [b|]] e] eqn:Ei.
    + exact E.
    + apply IH; [reflexivity|exact E|exact Hp].
Qed.

(** Any triple the loop binds has the key of the row. *)
Lemma retry_loop_key (n : nat) :
  forall i last o calls,
    match last with
    | Some o' => fst (fst o') = fst row
    | None => True
    end ->
    retry_loop n i last row session tok dis = (Some o, calls) ->
    fst (fst o) = fst row.
Proof.
  induction n as [|n IH]; intros i last o calls Hlast E.
  - cbn [retry_loop] in E. injection E as -> _. exact Hlast.
  - cbn [retry_loop] in E.
    pose proof (download_image_key row (session i) tok dis) as Hk.
    destruct (fst (download_image row (session i) tok dis))
      as [[key [b|]] e] eqn:Ei.
    + injection E as <- _. exact Hk.
    + eapply IH; [|exact E]. exact Hk.
Qed.

(** With [retries < 0] no request is made and the coroutine raises before
    it puts anything on the queue. *)
Lemma download_image_with_retry_negative (retries : Z) :
  retries < 0 ->
  exists e,
    download_image_with_retry row session retries tok dis = (Raise e, 0%nat).
Proof.
  intros Hr. unfold download_image_with_retry.
  replace (Z.to_nat (retries + 1)) with 0%nat by lia.
  eexists. reflexivity.
Qed.

(** X14. A row that is fetched with [retries] retries is fetched, with the
    same payload and after the same number of requests, with any larger
    number of retries. *)
Theorem download_image_with_retry_more (retries retries' : Z) (o : outcome)
    (calls : nat) :
  retries <= retries' ->
  download_image_with_retry row session retries tok dis = (Ok o, calls) ->
  has_payload o = true ->
  download_image_with_retry row session retries' tok dis = (Ok o, calls).
Proof.
  intros Hle E Hp. unfold download_image_with_retry in *.
  destruct (retry_loop (Z.to_nat (retries + 1)) 0 None row session tok dis)
    as [[o'|] calls'] eqn:El; [|discriminate].
  injection E as -> ->.
  replace (Z.to_nat (retries' + 1))
    with (Z.to_nat (retries + 1) + (Z.to_nat (retries' + 1)
                                    - Z.to_nat (retries + 1)))%nat by lia.
  now rewrite (retry_loop_more _ 0 None o calls _ I El Hp).
Qed.

(** X15. The triple put on the queue has the key of the row, whatever the
    session does. *)
Theorem download_image_with_retry_key (retries : Z) (o : outcome) :
  fst (download_image_with_retry row session retries tok dis) = Ok o ->
  fst (fst o) = fst row.
Proof.
  unfold download_image_with_retry.
  destruct (retry_loop (Z.to_nat (retries + 1)) 0 None row session tok dis)
    as [[o'|] calls] eqn:El; cbn [fst]; [|discriminate].
  intros [= <-]. exact (retry_loop_key _ 0 None o' calls I El).
Qed.

End RetryFacts.

Lemma download_image_with_retry_more_witness :
  download_image_with_retry (0, PStr "http://a/0.jpg") (Demo.sessions 0) 5
    None None = (Ok (0, Some "abc"%string, None), 3%nat).
Proof.
  apply (download_image_with_retry_more (0, PStr "http://a/0.jpg")
           (Demo.sessions 0) None None 2 5); [lia|reflexivity|reflexivity].
Defined.

Lemma download_image_with_retry_key_witness :
  fst (fst (1, @None string, Some "Connection reset"%string)) = fst (1, PStr "http://a/1.jpg").
Proof.
  apply (download_image_with_retry_key (1, PStr "http://a/1.jpg")
           (Demo.sessions 1) None None 2).
  reflexivity.
Defined.

(** ** Key codec, further *)

(** X16. Nothing is cut: for a local key that fits its width and any shard
    id, however large, the sample key has at least [ws + wc] characters
    and reads back as the shard id and the local key. *)
Theorem compute_key_decodes (key shard_id ws wc : Z) :
  0 <= ws -> 0 <= ws + wc -> 0 <= shard_id -> 0 <= key < 10 ^ ws ->
  exists s,
    compute_key key shard_id ws wc = Ok s
    /\ ws + wc <= Z.of_nat (String.length s)
    /\ decode_key ws s = Some (shard_id, key).
Proof.
  intros Hws Hw Hs Hk. unfold compute_key.
  destruct (Z.ltb_spec ws 0) as [?|_]; [lia|].
  destruct (Z.ltb_spec (ws + wc) 0) as [?|_]; [lia|].
  assert (Hp : 0 < 10 ^ ws) by (apply Z.pow_pos_nonneg; lia).
  assert (Ht : 0 <= 10 ^ ws * shard_id + key).
  { assert (0 <= 10 ^ ws * shard_id) by (apply Z.mul_nonneg_nonneg; lia).
    lia. }
  eexists. split; [reflexivity|]. split.
  - rewrite PyStrFacts.format_0d_nonneg by assumption.
    rewrite PyStrFacts.length_append, PyStrFacts.length_zeros. lia.
  - unfold decode_key. rewrite PyStrFacts.format_0d_value by assumption.
    f_equal. f_equal.
    + rewrite Z.mul_comm, Z.div_add_l by lia.
      rewrite Z.div_small by lia. lia.
    + rewrite Z.add_comm, Z.mul_comm, Z.mod_add by lia.
      apply Z.mod_small. lia.
Qed.

Lemma compute_key_decodes_witness :
  exists s,
    compute_key 7 123 2 1 = Ok s
    /\ 2 + 1 <= Z.of_nat (String.length s)
    /\ decode_key 2 s = Some (123, 7).
Proof.
  apply (compute_key_decodes 7 123 2 1); simpl; lia.
Defined.

(** [compute_key] raises exactly when the row width is negative or the two
    widths sum below zero. *)
Lemma compute_key_raises (key shard_id ws wc : Z) :
  (exists e, compute_key key shard_id ws wc = Raise e)
  <-> ws < 0 \/ ws + wc < 0.
Proof.
  unfold compute_key.
  destruct (Z.ltb_spec ws 0) as [H1|H1].
  - split; [auto|]. intros _. eexists. reflexivity.
  - destruct (Z.ltb_spec (ws + wc) 0) as [H2|H2].
    + split; [auto|]. intros _. eexists. reflexivity.
    + split; [intros [e H]; discriminate|lia].
Qed.

(** X17. A local key that does not fit its width collides: a key [10^ws]
    too large has the sample key of the same row of the next shard. *)
Theorem compute_key_overflow (key shard_id ws wc : Z) :
  0 <= ws ->
  compute_key (key + 10 ^ ws) shard_id ws wc
  = compute_key key (shard_id + 1) ws wc.
Proof.
  intros Hws. unfold compute_key.
  destruct (ws <? 0); [reflexivity|].
  destruct (ws + wc <? 0); [reflexivity|].
  f_equal. f_equal. ring.
Qed.

Lemma compute_key_overflow_witness :
  compute_key (0 + 10 ^ 2) 0 2 1 = compute_key 0 (0 + 1) 2 1.
Proof. apply (compute_key_overflow 0 0 2 1). lia. Defined.

(** ** Event loop, further *)

Lemma count_tasks_set_nth (p : task_state -> bool) (ts : list task_state)
    (i : nat) (t t' : task_state) :
  nth_error ts i = Some t ->
  count_tasks p (set_nth i t' ts)
  = count_tasks p ts - Z.b2z (p t) + Z.b2z (p t').
Proof.
  unfold count_tasks. revert i.
  induction ts as [|t0 ts IH]; intros [|i] Hi;
    cbn [set_nth filter nth_error] in *; try discriminate.
  - injection Hi as ->.
    destruct (p t), (p t'); cbn [List.length Z.b2z]; lia.
  - specialize (IH i Hi). destruct (p t0); cbn [List.length]; lia.
Qed.

Lemma count_tasks_nonneg (p : task_state -> bool) (ts : list task_state) :
  0 <= count_tasks p ts <= Z.of_nat (List.length ts).
Proof.
  unfold count_tasks. pose proof (filter_length_le p ts). lia.
Qed.

Lemma count_tasks_start (p : task_state -> bool) (rows : list (Z * pyval)) :
  count_tasks p (map (fun _ => Waiting) rows)
  = if p Waiting then Z.of_nat (List.length rows) else 0.
Proof.
  unfold count_tasks.
  induction rows as [|r rows IH]; cbn [map filter List.length].
  - now destruct (p Waiting).
  - destruct (p Waiting); cbn [List.length] in *; lia.
Qed.

(** A coroutine in a state that some coroutine is in. *)
Lemma count_tasks_pos (p : task_state -> bool) (ts : list task_state) :
  0 < count_tasks p ts ->
  exists i t, nth_error ts i = Some t /\ p t = true.
Proof.
  unfold count_tasks.
  induction ts as [|t ts IH]; cbn [filter List.length]; [lia|].
  destruct (p t) eqn:E.
  - intros _. now exists 0%nat, t.
  - intros H. destruct (IH H) as (i & t' & Hi & Hp). now exists (S i), t'.
Qed.

Lemma count_tasks_zero (p : task_state -> bool) (ts : list task_state) :
  count_tasks p ts = 0 -> forallb (fun t => negb (p t)) ts = true.
Proof.
  unfold count_tasks.
  induction ts as [|t ts IH]; cbn [filter List.length forallb];
    [reflexivity|].
  destruct (p t); cbn [List.length negb andb]; [lia|exact IH].
Qed.

Section SchedulerFacts.

Context {W : Type}.
Variable self : AsyncDownloader W.
Variable world : World.
Variable loc : shard_locals W.

(** The semaphore and the coroutines that hold it. *)
Lemma step_semaphore (ev : event) (l l' : loop W) :
  step self world loc ev l = Some l' ->
  count_tasks is_running (tasks l) + semaphore l = thread_count self ->
  0 <= semaphore l ->
  count_tasks is_running (tasks l') + semaphore l' = thread_count self
  /\ 0 <= semaphore l'.
Proof.
  intros Hstep Hsum Hpos.
  destruct ev as [i|i| | |]; cbn [step] in Hstep.
  - destruct (nth_error (tasks l) i) as [[| | |]|] eqn:Hi; try discriminate.
    destruct (Z.ltb_spec 0 (semaphore l)); [|discriminate].
    injection Hstep as <-. cbn [tasks semaphore].
    rewrite (count_tasks_set_nth _ _ _ _ _ Hi). cbn. lia.
  - destruct (nth_error (tasks l) i) as [[| | |]|] eqn:Hi; try discriminate.
    destruct (nth_error (l_key_url_list loc) i) as [row|]; [|discriminate].
    destruct (fetch self world row); injection Hstep as <-;
      cbn [tasks semaphore];
      rewrite (count_tasks_set_nth _ _ _ _ _ Hi); cbn; lia.
  - destruct (download_task l); try discriminate.
    destruct (forallb is_finished (tasks l)); [|discriminate].
    now injection Hstep as <-.
  - destruct (download_task l); try discriminate.
    destruct (unfinished_tasks l =? 0); [|discriminate].
    now injection Hstep as <-.
  - destruct (save_task_returned l); [discriminate|].
    destruct (data_queue l) as [|[o|] q]; [discriminate| |];
      now injection Hstep as <-.
Qed.

Lemma exec_semaphore (sched : list event) :
  forall l l',
    exec self world loc sched l = Some l' ->
    count_tasks is_running (tasks l) + semaphore l = thread_count self ->
    0 <= semaphore l ->
    count_tasks is_running (tasks l') + semaphore l' = thread_count self
    /\ 0 <= semaphore l'.
Proof.
  induction sched as [|ev sched IH]; intros l l'; cbn [exec].
  - intros [= <-]. auto.
  - destruct (step self world loc ev l) as [l1|] eqn:Hs; [|discriminate].
    intros He Hsum Hpos.
    destruct (step_semaphore ev l l1 Hs Hsum Hpos) as [Hsum1 Hpos1].
    exact (IH l1 l' He Hsum1 Hpos1).
Qed.

Lemma reachable_semaphore (l : loop W) :
  0 <= thread_count self ->
  reachable self world loc l ->
  count_tasks is_running (tasks l) + semaphore l = thread_count self
  /\ 0 <= semaphore l.
Proof.
  intros Hpos [sched Hs].
  apply (exec_semaphore sched _ _ Hs).
  - cbn [loop_start tasks semaphore]. rewrite count_tasks_start. cbn. lia.
  - exact Hpos.
Qed.

(** Every step uses up at least one of the steps left. *)
Lemma step_steps_left (ev : event) (l l' : loop W) :
  step self world loc ev l = Some l' ->
  steps_left l' + 1 <= steps_left l.
Proof.
  intros Hstep. unfold steps_left.
  destruct ev as [i|i| | |]; cbn [step] in Hstep.
  - destruct (nth_error (tasks l) i) as [[| | |]|] eqn:Hi; try discriminate.
    destruct (0 <? semaphore l); [|discriminate].
    injection Hstep as <-. cbn [tasks data_queue download_task].
    rewrite !(count_tasks_set_nth _ _ _ _ _ Hi).
    cbn [is_waiting is_running Z.b2z]. destruct (download_task l); lia.
  - destruct (nth_error (tasks l) i) as [[| | |]|] eqn:Hi; try discriminate.
    destruct (nth_error (l_key_url_list loc) i) as [row|]; [|discriminate].
    destruct (fetch self world row); injection Hstep as <-;
      cbn [tasks data_queue download_task];
      rewrite !(count_tasks_set_nth _ _ _ _ _ Hi);
      cbn [is_waiting is_running Z.b2z].
    + rewrite length_app. cbn [List.length]. destruct (download_task l); lia.
    + destruct (download_task l); lia.
  - destruct (download_task l); try discriminate.
    destruct (forallb is_finished (tasks l)); [|discriminate].
    injection Hstep as <-. cbn [tasks data_queue download_task].
    rewrite length_app. cbn [List.length]. lia.
  - destruct (download_task l); try discriminate.
    destruct (unfinished_tasks l =? 0); [|discriminate].
    injection Hstep as <-. cbn [tasks data_queue download_task]. lia.
  - destruct (save_task_returned l); [discriminate|].
    destruct (data_queue l) as [|[o|] q]; [discriminate| |];
      injection Hstep as <-; cbn [tasks data_queue download_task List.length];
      lia.
Qed.

Lemma steps_left_nonneg (l : loop W) : 0 <= steps_left l.
Proof.
  unfold steps_left.
  pose proof (count_tasks_nonneg is_waiting (tasks l)).
  pose proof (count_tasks_nonneg is_running (tasks l)).
  destruct (download_task l); lia.
Qed.

Lemma exec_steps_left (sched : list event) :
  forall l l',
    exec self world loc sched l = Some l' ->
    steps_left l' + Z.of_nat (List.length sched) <= steps_left l.
Proof.
  induction sched as [|ev sched IH]; intros l l'; cbn [exec List.length].
  - intros [= <-]. lia.
  - destruct (step self world loc ev l) as [l1|] eqn:Hs; [|discriminate].
    intros He. pose proof (IH l1 l' He).
    pose proof (step_steps_left ev l l1 Hs). lia.
Qed.

(** With [retries >= 0] no coroutine raises and [download_task] goes on. *)
Lemma exec_no_crash (sched : list event) :
  0 <= retries self ->
  forall l l',
    exec self world loc sched l = Some l' ->
    count_tasks is_crashed (tasks l) = 0 -> download_task l <> Died ->
    count_tasks is_crashed (tasks l') = 0 /\ download_task l' <> Died.
Proof.
  intros Hr. induction sched as [|ev sched IH]; intros l l'; cbn [exec].
  - intros [= <-]. auto.
  - destruct (step self world loc ev l) as [l1|] eqn:Hstep; [|discriminate].
    intros He Hc Hd. apply (IH l1 l' He).
    + destruct ev as [i|i| | |]; cbn [step] in Hstep.
      * destruct (nth_error (tasks l) i) as [[| | |]|] eqn:Hi;
          try discriminate.
        destruct (0 <? semaphore l); [|discriminate].
        injection Hstep as <-. cbn [tasks].
        rewrite (count_tasks_set_nth _ _ _ _ _ Hi). cbn. lia.
      * destruct (nth_error (tasks l) i) as [[| | |]|] eqn:Hi;
          try discriminate.
        destruct (nth_error (l_key_url_list loc) i) as [row|];
          [|discriminate].
        destruct (fetch_ok self world Hr row) as [o Ho]. rewrite Ho in Hstep.
        injection Hstep as <-. cbn [tasks].
        rewrite (count_tasks_set_nth _ _ _ _ _ Hi). cbn. lia.
      * destruct (download_task l); try discriminate.
        destruct (forallb is_finished (tasks l)); [|discriminate].
        now injection Hstep as <-.
      * destruct (download_task l); try discriminate.
        destruct (unfinished_tasks l =? 0); [|discriminate].
        now injection Hstep as <-.
      * destruct (save_task_returned l); [discriminate|].
        destruct (data_queue l) as [|[o|] q]; [discriminate| |];
          now injection Hstep as <-.
    + destruct ev as [i|i| | |]; cbn [step] in Hstep.
      * destruct (nth_error (tasks l) i) as [[| | |]|]; try discriminate.
        destruct (0 <? semaphore l); [|discriminate].
        now injection Hstep as <-.
      * destruct (nth_error (tasks l) i) as [[| | |]|]; try discriminate.
        destruct (nth_error (l_key_url_list loc) i) as [row|];
          [|discriminate].
        destruct (fetch_ok self world Hr row) as [o Ho]. rewrite Ho in Hstep.
        now injection Hstep as <-.
      * destruct (download_task l); try discriminate.
        destruct (forallb is_finished (tasks l)); [|discriminate].
        injection Hstep as <-. discriminate.
      * destruct (download_task l); try discriminate.
        destruct (unfinished_tasks l =? 0); [|discriminate].
        injection Hstep as <-. discriminate.
      * destruct (save_task_returned l); [discriminate|].
        destruct (data_queue l) as [|[o|] q]; [discriminate| |];
          now injection Hstep as <-.
Qed.

End SchedulerFacts.

(** X19. The semaphore bounds the fetches in flight: in every state of the
    event loop the coroutines that hold the semaphore are at most
    [thread_count], and the semaphore counts the free places. *)
Theorem fetches_in_flight {W : Type} (self : AsyncDownloader W)
    (world : World) (loc : shard_locals W) (l : loop W) :
  0 <= thread_count self ->
  reachable self world loc l ->
  count_tasks is_running (tasks l) <= thread_count self
  /\ semaphore l = thread_count self - count_tasks is_running (tasks l).
Proof.
  intros Hpos Hr.
  destruct (reachable_semaphore self world loc l Hpos Hr) as [Hsum Hs]. lia.
Qed.

Lemma fetches_in_flight_witness :
  count_tasks is_running (tasks (Demo.row1_queued Demo.full_writer))
  <= thread_count (Demo.downloader Demo.full_writer 2)
  /\ semaphore (Demo.row1_queued Demo.full_writer)
     = thread_count (Demo.downloader Demo.full_writer 2)
       - count_tasks is_running (tasks (Demo.row1_queued Demo.full_writer)).
Proof.
  apply (fetches_in_flight (Demo.downloader Demo.full_writer 2) Demo.world
           (Demo.locals Demo.full_writer)).
  - cbn. lia.
  - exists [Acquire 1; Complete 1]. reflexivity.
Defined.

(** X20. The event loop takes at most three steps for each row and three
    more: whatever the scheduler chooses, after that many steps no step is
    left. *)
Theorem schedule_bound {W : Type} (self : AsyncDownloader W) (world : World)
    (loc : shard_locals W) (sched : list event) (l : loop W) :
  exec self world loc sched (loop_start self loc) = Some l ->
  Z.of_nat (List.length sched)
  <= 3 * Z.of_nat (List.length (l_key_url_list loc)) + 3.
Proof.
  intros He. pose proof (exec_steps_left self world loc sched _ _ He) as H.
  pose proof (steps_left_nonneg l) as Hl.
  unfold steps_left at 2 in H.
  cbn [loop_start tasks data_queue download_task List.length] in H.
  rewrite !count_tasks_start in H. cbn [is_waiting is_running] in H. lia.
Qed.

Lemma schedule_bound_witness :
  Z.of_nat (List.length Demo.in_turn)
  <= 3 * Z.of_nat (List.length (l_key_url_list (Demo.locals Demo.writer))) + 3.
Proof.
  apply (schedule_bound (Demo.downloader Demo.writer 2) Demo.world
           (Demo.locals Demo.writer) Demo.in_turn Demo.after_in_turn).
  reflexivity.
Defined.

Lemma all_finished (ts : list task_state) :
  count_tasks is_waiting ts = 0 -> count_tasks is_running ts = 0 ->
  count_tasks is_crashed ts = 0 ->
  forallb is_finished ts = true.
Proof.
  intros Hw Hr Hc. apply count_tasks_zero in Hw, Hr, Hc.
  rewrite forallb_forall in *. intros t Hin.
  specialize (Hw t Hin). specialize (Hr t Hin). specialize (Hc t Hin).
  now destruct t.
Qed.

(** With [retries >= 0] and a semaphore that admits a coroutine, a step is
    enabled in every state in which [save_task] has not returned: a
    coroutine that holds the semaphore can put its triple; failing that, a
    coroutine that waits can enter; failing that, the sentinel can be put
    or the head of the queue taken. *)
Lemma step_enabled {W : Type} (self : AsyncDownloader W) (world : World)
    (loc : shard_locals W) (l : loop W) :
  0 <= retries self -> 0 < thread_count self ->
  reachable self world loc l ->
  save_task_returned l = false ->
  exists ev l', step self world loc ev l = Some l'.
Proof.
  intros Hr Ht Hreach Hrun.
  destruct (reachable_semaphore self world loc l (Z.lt_le_incl _ _ Ht) Hreach)
    as [Hsum Hsem].
  pose proof (reachable_invariant self world loc l Hreach)
    as (Hlen & _ & Hshape & _).
  assert (Hnc : count_tasks is_crashed (tasks l) = 0
                /\ download_task l <> Died).
  { destruct Hreach as [sched Hs].
    apply (exec_no_crash self world loc sched Hr _ _ Hs).
    - cbn [loop_start tasks]. now rewrite count_tasks_start.
    - discriminate. }
  destruct Hnc as [Hcr Hnd].
  destruct (Z.lt_ge_cases 0 (count_tasks is_running (tasks l))) as [Hrn|Hrn].
  - (* a coroutine holds the semaphore: it can put its triple *)
    destruct (count_tasks_pos _ _ Hrn) as (i & t & Hi & Hp).
    destruct t; try discriminate.
    assert (Hrow : exists row, nth_error (l_key_url_list loc) i = Some row).
    { destruct (nth_error (l_key_url_list loc) i) as [row|] eqn:E;
        [now exists row|].
      apply nth_error_None in E.
      assert (i < List.length (tasks l))%nat
        by (apply nth_error_Some; congruence).
      lia. }
    destruct Hrow as [row Hrow].
    destruct (fetch_ok self world Hr row) as [o Ho].
    exists (Complete i). eexists.
    exact (step_complete self world loc i row o l Hi Hrow Ho).
  - pose proof (count_tasks_nonneg is_running (tasks l)) as Hn0.
    assert (Hr0 : count_tasks is_running (tasks l) = 0) by lia.
    destruct (Z.lt_ge_cases 0 (count_tasks is_waiting (tasks l))) as [Hw|Hw].
    + (* a coroutine waits and the semaphore is free *)
      destruct (count_tasks_pos _ _ Hw) as (i & t & Hi & Hp).
      destruct t; try discriminate.
      exists (Acquire i). eexists.
      apply (step_acquire self world loc i l Hi). lia.
    + pose proof (count_tasks_nonneg is_waiting (tasks l)) as Hw0.
      assert (Hall : forallb is_finished (tasks l) = true)
        by (apply all_finished; lia).
      unfold queue_shape in Hshape.
      destruct (download_task l) eqn:Hd.
      * exists PutSentinel. eexists. cbn [step]. rewrite Hd, Hall.
        reflexivity.
      * destruct Hshape as [_ Hq]. rewrite Hrun in Hq.
        destruct Hq as (q & Hq & _).
        exists Get. cbn [step]. rewrite Hrun, Hq.
        destruct q as [|[o|] q]; cbn [app]; eexists; reflexivity.
      * destruct Hshape.
      * now destruct Hnd.
Qed.

(** X21. With [retries >= 0] and a semaphore that admits a coroutine, the
    event loop cannot block before [save_task] has returned: in every
    state it can be in, a step is enabled. *)
Theorem no_deadlock {W : Type} (self : AsyncDownloader W) (world : World)
    (loc : shard_locals W) (l : loop W) :
  0 <= retries self -> 0 < thread_count self ->
  reachable self world loc l ->
  save_task_returned l = false ->
  exists ev l', step self world loc ev l = Some l'.
Proof. apply step_enabled. Qed.

Lemma no_deadlock_witness :
  exists ev l',
    step (Demo.downloader Demo.full_writer 2) Demo.world
      (Demo.locals Demo.full_writer) ev (Demo.row1_queued Demo.full_writer)
    = Some l'.
Proof.
  apply (no_deadlock (Demo.downloader Demo.full_writer 2) Demo.world
           (Demo.locals Demo.full_writer)
           (Demo.row1_queued Demo.full_writer)).
  - cbn. lia.
  - cbn. lia.
  - exists [Acquire 1; Complete 1]. reflexivity.
  - reflexivity.
Defined.

(** X22. In every run the items put on the queue and not yet taken, plus
    the sentinel once it is taken, are the unacknowledged items: the
    counter of the queue is never below one when a triple is taken, so
    [task_done] is never called once too often; and as the sentinel is
    never acknowledged, the wait of [download_task] on [join] never ends. *)
Theorem queue_acknowledgements {W : Type} (self : AsyncDownloader W)
    (world : World) (loc : shard_locals W) (l : loop W) :
  reachable self world loc l ->
  unfinished_tasks l
  = Z.of_nat (List.length (data_queue l))
    + (if save_task_returned l then 1 else 0)
  /\ download_task l <> Returned
  /\ (save_task_returned l = true -> data_queue l = []).
Proof.
  intros Hreach. split; [|split].
  - now destruct (reachable_invariant self world loc l Hreach) as (_ & H & _).
  - now apply (join_never_returns self world loc).
  - intros Hret.
    now destruct (save_task_returned_state self world loc l Hreach Hret).
Qed.

Lemma queue_acknowledgements_witness :
  unfinished_tasks Demo.after_in_turn
  = Z.of_nat (List.length (data_queue Demo.after_in_turn))
    + (if save_task_returned Demo.after_in_turn then 1 else 0)
  /\ download_task Demo.after_in_turn <> Returned
  /\ (save_task_returned Demo.after_in_turn = true ->
      data_queue Demo.after_in_turn = []).
Proof.
  apply (queue_acknowledgements (Demo.downloader Demo.writer 2) Demo.world
           (Demo.locals Demo.writer)).
  exists Demo.in_turn. reflexivity.
Defined.

(** *** Every row is written once *)


Section WriterFacts.

Context {W : Type}.
Variable self : AsyncDownloader W.
Variable world : World.
Variable shard_id : Z.
Variable shard_to_dl : list (Z * list pyval).
Variable oom_sample_per_shard : Z.
Variable caption_indice : option Z.
Variable bbox_indice : option Z.





End WriterFacts.




(** The run of the witness, fetched in turn: the two rows are written, in
    the order of their arrival, and the writer holds the two records. *)
Example two_rows_written :
  save_task_returned Demo.after_in_turn = true
  /\ printed (cons Demo.after_in_turn) = []
  /\ map fst (writes (cons Demo.after_in_turn)) = [0; 1]
  /\ sample_writer (cons Demo.after_in_turn)
     = map snd (writes (cons Demo.after_in_turn)).
Proof. repeat split. Qed.


(** ** Tallies and statistics *)

Section TallyFacts.

Context {W : Type}.
Variable self : AsyncDownloader W.
Variable world : World.
Variable loc : shard_locals W.

(** One pass of the loop counts the row at most once. *)
Lemma save_item_counted (o : outcome) (c c' : consumer W) (x : option exn) :
  save_item self world (l_shard_id loc) (l_shard_to_dl loc)
    (l_oom_sample_per_shard loc) (l_caption_indice loc) (l_bbox_indice loc)
    o c = (c', x) ->
  tallies_sound c ->
  tallies_sound c' /\ counted c <= counted c' <= counted c + 1.
Proof.
  intros E (Hl & Hw & Hs & Hd & Hr).
  apply save_item_effect in E.
  destruct E as (_ & (ws & Hws & Hlen & _ & _) & Hcl).
  unfold tallies_sound, counted in *.
  destruct (classify _ _ _ _ _ _ _ _) as [[st label]|e].
  - destruct Hcl as [Ht Hsd]. unfold tallies, bump in Ht.
    rewrite Hsd, Hws, !length_app. cbn [List.length].
    destruct st; injection Ht as -> -> ->; repeat split; lia.
  - destruct Hcl as (_ & Ht & Hsd & Hwr). unfold tallies in Ht.
    injection Ht as -> -> ->. rewrite Hsd, Hwr. repeat split; lia.
Qed.

Lemma exec_tallies (sched : list event) :
  forall l l',
    exec self world loc sched l = Some l' ->
    tallies_sound (cons l) ->
    counted (cons l) + Z.of_nat (List.length (queue_keys (data_queue l)))
    <= count_tasks is_finished (tasks l) ->
    tallies_sound (cons l')
    /\ counted (cons l') + Z.of_nat (List.length (queue_keys (data_queue l')))
       <= count_tasks is_finished (tasks l').
Proof.
  induction sched as [|ev sched IH]; intros l l'; cbn [exec].
  - intros [= <-]. auto.
  - destruct (step self world loc ev l) as [l1|] eqn:Hstep; [|discriminate].
    intros He Hs Hk. apply (IH l1 l' He); clear IH He.
    + destruct (step_cons self world loc ev l l1 Hstep) as [->|[o Ho]];
        [exact Hs|].
      rewrite Ho.
      destruct (save_item self world (l_shard_id loc) (l_shard_to_dl loc)
                  (l_oom_sample_per_shard loc) (l_caption_indice loc)
                  (l_bbox_indice loc) o (cons l)) as [c' x] eqn:E.
      exact (proj1 (save_item_counted o _ c' x E Hs)).
    + destruct ev as [i|i| | |]; cbn [step] in Hstep.
      * destruct (nth_error (tasks l) i) as [[| | |]|] eqn:Hi;
          try discriminate.
        destruct (0 <? semaphore l); [|discriminate].
        injection Hstep as <-. cbn [tasks data_queue cons].
        rewrite (count_tasks_set_nth _ _ _ _ _ Hi). cbn [is_finished Z.b2z].
        lia.
      * destruct (nth_error (tasks l) i) as [[| | |]|] eqn:Hi;
          try discriminate.
        destruct (nth_error (l_key_url_list loc) i) as [row|];
          [|discriminate].
        destruct (fetch self world row); injection Hstep as <-;
          cbn [tasks data_queue cons];
          rewrite (count_tasks_set_nth _ _ _ _ _ Hi); cbn [is_finished Z.b2z].
        -- rewrite queue_keys_app, length_app. cbn [queue_keys List.length].
           lia.
        -- lia.
      * destruct (download_task l); try discriminate.
        destruct (forallb is_finished (tasks l)); [|discriminate].
        injection Hstep as <-. cbn [tasks data_queue cons].
        rewrite queue_keys_app, length_app. cbn [queue_keys List.length]. lia.
      * destruct (download_task l); try discriminate.
        destruct (unfinished_tasks l =? 0); [|discriminate].
        now injection Hstep as <-.
      * destruct (save_task_returned l); [discriminate|].
        destruct (data_queue l) as [|[o|] q]; [discriminate| |];
          injection Hstep as <-; cbn [tasks data_queue cons queue_keys] in *;
          [|exact Hk].
        destruct (save_item self world (l_shard_id loc) (l_shard_to_dl loc)
                    (l_oom_sample_per_shard loc) (l_caption_indice loc)
                    (l_bbox_indice loc) o (cons l)) as [c' x] eqn:E.
        destruct (save_item_counted o _ c' x E Hs) as [_ Hc].
        cbn [fst List.length] in *. lia.
Qed.

Lemma reachable_tallies (l : loop W) :
  reachable self world loc l ->
  tallies_sound (cons l)
  /\ counted (cons l) + Z.of_nat (List.length (queue_keys (data_queue l)))
     <= count_tasks is_finished (tasks l).
Proof.
  intros [sched Hs]. apply (exec_tallies sched _ _ Hs).
  - unfold tallies_sound, counted. cbn. lia.
  - unfold counted. cbn [loop_start cons data_queue tasks successes
                         failed_to_download failed_to_resize queue_keys
                         List.length].
    pose proof (count_tasks_nonneg is_finished
                  (map (fun _ => Waiting) (l_key_url_list loc))). lia.
Qed.

(** When [save_task] has returned and nothing was printed, the writer was
    called as many times as there are rows. *)
Lemma writes_at_end (l : loop W) :
  reachable self world loc l -> save_task_returned l = true ->
  printed (cons l) = [] ->
  List.length (writes (cons l)) = List.length (l_key_url_list loc).
Proof.
  intros Hreach Hret Hquiet.
  destruct (save_task_returned_state self world loc l Hreach Hret)
    as (Hq & _ & _ & Hall).
  apply reachable_invariant in Hreach.
  destruct Hreach as (_ & _ & _ & skipped & Hperm & Hincl).
  rewrite Hq, Hquiet, (open_keys_finished _ _ Hall) in *.
  cbn [queue_keys map app] in *.
  assert (skipped = []) as ->.
  { destruct skipped as [|k ?]; [reflexivity|].
    destruct (Hincl k (or_introl eq_refl)). }
  rewrite !app_nil_r in Hperm. apply Permutation_length in Hperm.
  now rewrite !length_map in Hperm.
Qed.

End TallyFacts.

(** X23. At every moment of a run the three tallies are non-negative,
    their sum is the number of labels given to the status counter, it is at
    least the number of calls of the writer and at most the number of rows
    of the shard. *)
Theorem tallies_bounded {W : Type} (self : AsyncDownloader W) (world : World)
    (loc : shard_locals W) (l : loop W) :
  reachable self world loc l ->
  0 <= successes (cons l) /\ 0 <= failed_to_download (cons l)
  /\ 0 <= failed_to_resize (cons l)
  /\ counted (cons l) = Z.of_nat (List.length (status_dict (cons l)))
  /\ Z.of_nat (List.length (writes (cons l))) <= counted (cons l)
  /\ counted (cons l) <= Z.of_nat (List.length (l_key_url_list loc)).
Proof.
  intros Hreach.
  destruct (reachable_tallies self world loc l Hreach)
    as [(Hl & Hw & Hs & Hd & Hr) Hk].
  pose proof (reachable_invariant self world loc l Hreach) as (Hlen & _).
  pose proof (count_tasks_nonneg is_finished (tasks l)).
  repeat split; try assumption. lia.
Qed.

Lemma tallies_bounded_witness :
  0 <= successes (cons Demo.after_in_turn)
  /\ 0 <= failed_to_download (cons Demo.after_in_turn)
  /\ 0 <= failed_to_resize (cons Demo.after_in_turn)
  /\ counted (cons Demo.after_in_turn)
     = Z.of_nat (List.length (status_dict (cons Demo.after_in_turn)))
  /\ Z.of_nat (List.length (writes (cons Demo.after_in_turn)))
     <= counted (cons Demo.after_in_turn)
  /\ counted (cons Demo.after_in_turn)
     <= Z.of_nat (List.length (l_key_url_list (Demo.locals Demo.writer))).
Proof.
  apply (tallies_bounded (Demo.downloader Demo.writer 2) Demo.world
           (Demo.locals Demo.writer)).
  exists Demo.in_turn. reflexivity.
Defined.

(** X24. The statistics of a shard run that returns: the count is the
    number of rows, the three tallies are non-negative and sum to at most
    the count, and to the count itself when no pass of the loop printed a
    failure. *)
Theorem shard_stats_totals {W : Type} (self : AsyncDownloader W)
    (world : World) (sched : list event) (row : Z * string) :
  outcome_of (download_shard self world sched row) = Returns tt ->
  exists loc l s,
    prepare self world row = Ok loc
    /\ last_loop (download_shard self world sched row) = Some l
    /\ In (StatsWritten s) (effects (download_shard self world sched row))
    /\ st_count s = Z.of_nat (List.length (l_shard_to_dl loc))
    /\ 0 <= st_successes s /\ 0 <= st_failed_to_download s
    /\ 0 <= st_failed_to_resize s
    /\ st_successes s + st_failed_to_download s + st_failed_to_resize s
       <= st_count s
    /\ (printed (cons l) = [] ->
        st_successes s + st_failed_to_download s + st_failed_to_resize s
        = st_count s).
Proof.
  unfold download_shard.
  destruct (prepare self world row) as [loc|e] eqn:Hprep; [|discriminate].
  destruct (prepare_work_list self world row loc Hprep) as (Hkeys & Hc & _).
  assert (Hn : List.length (l_key_url_list loc)
               = List.length (l_shard_to_dl loc)).
  { apply (f_equal (@List.length Z)) in Hkeys.
    now rewrite !length_map, length_seq in Hkeys. }
  unfold asyncio_run.
  destruct (thread_count self <? 0); [discriminate|].
  destruct (exec self world loc sched (loop_start self loc)) as [l|] eqn:He;
    [|discriminate].
  destruct (save_task_returned l) eqn:Hret; [|discriminate].
  destruct (sw_close _ _) as [w' [e|]]; [discriminate|].
  destruct (write_stats world _) as [e|]; [discriminate|].
  destruct (fs_rm world _) as [e|]; [discriminate|].
  intros _. exists loc, l, (shard_stats self loc (cons l)).
  assert (Hreach : reachable self world loc l) by (now exists sched).
  destruct (reachable_tallies self world loc l Hreach)
    as [(Hl & Hw & Hs & Hd & Hr) Hk].
  pose proof (reachable_invariant self world loc l Hreach) as (Hlen & _).
  pose proof (count_tasks_nonneg is_finished (tasks l)) as Hf.
  unfold counted in *.
  cbn [last_loop effects shard_stats st_count st_successes
       st_failed_to_download st_failed_to_resize].
  split; [reflexivity|]. split; [reflexivity|].
  split; [cbn; auto|]. split; [exact Hc|].
  split; [exact Hs|]. split; [exact Hd|]. split; [exact Hr|].
  split; [lia|].
  intros Hquiet.
  pose proof (writes_at_end self world loc l Hreach Hret Hquiet). lia.
Qed.

Lemma shard_stats_totals_witness :
  exists loc l s,
    prepare (Demo.downloader Demo.writer 2) Demo.world
      (3, "two.feather"%string) = Ok loc
    /\ last_loop (download_shard (Demo.downloader Demo.writer 2) Demo.world
                    Demo.out_of_turn (3, "two.feather"%string)) = Some l
    /\ In (StatsWritten s)
         (effects (download_shard (Demo.downloader Demo.writer 2) Demo.world
                     Demo.out_of_turn (3, "two.feather"%string)))
    /\ st_count s = Z.of_nat (List.length (l_shard_to_dl loc))
    /\ 0 <= st_successes s /\ 0 <= st_failed_to_download s
    /\ 0 <= st_failed_to_resize s
    /\ st_successes s + st_failed_to_download s + st_failed_to_resize s
       <= st_count s
    /\ (printed (cons l) = [] ->
        st_successes s + st_failed_to_download s + st_failed_to_resize s
        = st_count s).
Proof.
  apply (shard_stats_totals (Demo.downloader Demo.writer 2) Demo.world
           Demo.out_of_turn (3, "two.feather"%string)).
  reflexivity.
Defined.

(** ** Outcome processor, further *)

Section OutcomeFacts.

Context {W : Type}.
Variable self : AsyncDownloader W.
Variable world : World.
Variable shard_id : Z.
Variable shard_to_dl : list (Z * list pyval).
Variable oom_sample_per_shard : Z.
Variable caption_indice : option Z.
Variable bbox_indice : option Z.

(** X25. A triple with neither payload nor error is dropped: the pass
    raises before the row is counted, a failure is printed, the writer is
    not called and no tally changes. *)
Theorem save_item_no_result (key : Z) (c : consumer W) :
  exists e,
    save_item self world shard_id shard_to_dl oom_sample_per_shard
      caption_indice bbox_indice (key, None, None) c
    = (print_failure key e c, Some e).
Proof.
  unfold save_item.
  destruct (save_body self world shard_id shard_to_dl oom_sample_per_shard
              caption_indice bbox_indice key None None c) as [c' r] eqn:E.
  apply save_body_effect in E. destruct E as (_ & _ & Hcl).
  unfold classify in Hcl.
  destruct (py_index shard_to_dl key) as [entry|e]; cbn [bind] in Hcl.
  - destruct (compute_key key shard_id oom_sample_per_shard
                (oom_shard_count self)) as [str_key|e]; cbn [bind] in Hcl.
    + destruct (new_meta self (snd entry) str_key None) as [meta|e];
        cbn [bind] in Hcl; destruct Hcl as [-> ->]; eexists; reflexivity.
    + destruct Hcl as [-> ->]. eexists; reflexivity.
  - destruct Hcl as [-> ->]. eexists; reflexivity.
Qed.

(** A failed download is recorded without the resizer, the hash or
    the EXIF reader: the pass is the same whatever they are. *)
Lemma failed_download_skips_resizer (world' : World)
    (r : string -> pyval -> result resized) (key : Z)
    (img_stream : option string) (msg : string) (c : consumer W) :
  save_item (with_resizer r self) world' shard_id shard_to_dl
    oom_sample_per_shard caption_indice bbox_indice
    (key, img_stream, Some msg) c
  = save_item self world shard_id shard_to_dl oom_sample_per_shard
      caption_indice bbox_indice (key, img_stream, Some msg) c.
Proof. reflexivity. Qed.

End OutcomeFacts.

(** *** The records given to the writer *)

Lemma dict_get_set_same (k : string) (v : pyval) (d : dict) :
  dict_get k (dict_set k v d) = Ok v.
Proof.
  induction d as [|[k' v'] d IH]; cbn [dict_set dict_get].
  - now rewrite String.eqb_refl.
  - destruct (String.eqb k' k) eqn:E; cbn [dict_get].
    + now rewrite String.eqb_refl.
    + now rewrite E.
Qed.

Lemma dict_get_set_other (k k' : string) (v : pyval) (d : dict) :
  k' <> k -> dict_get k (dict_set k' v d) = dict_get k d.
Proof.
  intros Hne. induction d as [|[k0 v0] d IH]; cbn [dict_set dict_get].
  - destruct (String.eqb_spec k' k); [contradiction|reflexivity].
  - destruct (String.eqb_spec k0 k') as [->|Hn]; cbn [dict_get].
    + destruct (String.eqb_spec k' k); [contradiction|reflexivity].
    + destruct (String.eqb k0 k); [reflexivity|exact IH].
Qed.

Section RecordFacts.

Context {W : Type}.
Variable self : AsyncDownloader W.
Variable world : World.
Variable shard_id : Z.
Variable shard_to_dl : list (Z * list pyval).
Variable oom_sample_per_shard : Z.
Variable caption_indice : option Z.
Variable bbox_indice : option Z.

Local Ltac other_keys :=
  repeat (rewrite dict_get_set_other by (discriminate || congruence)).

(** The [key] field of a new record. *)
Lemma new_meta_key (sample_data : list pyval) (str_key : string)
    (error_message : option string) (meta : dict) :
  new_meta self sample_data str_key error_message = Ok meta ->
  compute_hash self <> Some "key"%string ->
  dict_get "key" meta = Ok (PStr str_key).
Proof.
  unfold new_meta.
  destruct (row_dict (column_list self) 0 sample_data []) as [d|];
    cbn [bind]; [|discriminate].
  intros [= <-] Hh.
  destruct (compute_hash self) as [name|] eqn:Hn;
    destruct (extract_exif self); other_keys; apply dict_get_set_same.
Qed.

(** What [write] hands to the writer. *)
Lemma write_record (key : Z) (img_str : pyval) (str_key : string)
    (sample_data : list pyval) (meta : dict) (c c' : consumer W)
    (r : result unit) :
  write self caption_indice key img_str str_key sample_data meta c = (c', r) ->
  exists ws, writes c' = writes c ++ ws
             /\ forall w, In w ws ->
                          w_img (snd w) = img_str
                          /\ w_key (snd w) = str_key
                          /\ w_meta (snd w) = meta.
Proof.
  unfold write. rewrite bindM_lift.
  destruct (caption_of caption_indice sample_data) as [caption|e].
  - destruct (sw_write _ _ _) as [w' x]. intros [= <- _]. cbn [writes].
    eexists. split; [reflexivity|]. intros w [<-|[]]. now cbn.
  - intros [= <- _]. exists []. rewrite app_nil_r. split; [reflexivity|].
    intros w [].
Qed.

Local Ltac nothing_written E :=
  injection E as <- _; exists []; rewrite app_nil_r;
  split; [reflexivity|intros ? []].

Local Ltac written E st Hkey :=
  apply write_record in E; cbn [writes] in E;
  destruct E as (ws & Hw & Hrec);
  exists ws; split; [exact Hw|];
  let w := fresh "w" in
  let Hin := fresh "Hin" in
  intros w Hin; destruct (Hrec w Hin) as (Hi & Hk & Hm);
  exists st; rewrite Hi, Hk, Hm;
  split; [other_keys; apply dict_get_set_same|];
  split; [try reflexivity; intros Hne; now destruct Hne|];
  let Hh := fresh "Hh" in
  intros Hh; other_keys; exact (Hkey Hh).

(** Every record the [try] block gives to the writer is well formed. *)
Lemma save_body_records (key : Z) (img_stream error_message : option string)
    (c c' : consumer W) (r : result unit) :
  save_body self world shard_id shard_to_dl oom_sample_per_shard
    caption_indice bbox_indice key img_stream error_message c = (c', r) ->
  exists ws, writes c' = writes c ++ ws
             /\ forall w, In w ws -> record_ok self (snd w).
Proof.
  unfold save_body, record_ok. intros E.
  rewrite bindM_lift in E.
  destruct (py_index shard_to_dl key) as [entry|e]; [|nothing_written E].
  rewrite bindM_lift in E.
  destruct (compute_key key shard_id oom_sample_per_shard
              (oom_shard_count self)) as [str_key|e]; [|nothing_written E].
  rewrite bindM_lift in E.
  destruct (new_meta self (snd entry) str_key error_message) as [meta|e]
    eqn:Hmeta; [|nothing_written E].
  pose proof (new_meta_key _ _ _ _ Hmeta) as Hkey.
  destruct error_message as [msg|].
  - unfold bindM at 1 in E. cbn [add_failed_to_download] in E.
    unfold bindM at 1 in E. cbn [status_increment] in E.
    written E FailedToDownload Hkey.
  - rewrite bindM_lift in E.
    destruct img_stream as [stream|]; [|nothing_written E].
    rewrite bindM_lift in E.
    destruct (match bbox_indice with
              | Some i => py_index (snd entry) i
              | None => Ok PNone
              end) as [bbox_list|e]; [|nothing_written E].
    rewrite bindM_lift in E.
    destruct (resizer self stream bbox_list) as [rs|e]; [|nothing_written E].
    destruct (resize_error rs) as [msg|].
    + unfold bindM at 1 in E. cbn [add_failed_to_resize] in E.
      unfold bindM at 1 in E. cbn [status_increment] in E.
      written E FailedToResize Hkey.
    + unfold bindM at 1 in E. cbn [add_successes] in E.
      unfold bindM at 1 in E. cbn [status_increment] in E.
      destruct (compute_hash self) as [name|] eqn:Hname.
      * destruct (hashlib world name) as [digest|].
        -- unfold bindM at 1 in E. cbn [ret] in E.
           destruct (extract_exif self); written E Success Hkey.
        -- unfold bindM at 1 in E. cbn [raise] in E. nothing_written E.
      * unfold bindM at 1 in E. cbn [ret] in E.
        destruct (extract_exif self); written E Success Hkey.
Qed.

End RecordFacts.

(** X26. Every record given to the writer in a run is well formed: the
    status is [success], [failed_to_download] or [failed_to_resize], the
    payload is null unless the status is [success], and the [key] field is
    the sample key the writer is called with, provided the hash is not
    stored under the name [key]. *)
Theorem written_records {W : Type} (self : AsyncDownloader W) (world : World)
    (loc : shard_locals W) (l : loop W) :
  reachable self world loc l ->
  forall w, In w (writes (cons l)) -> record_ok self (snd w).
Proof.
  intros [sched Hs]. revert l Hs.
  assert (Hgen : forall l0 l1,
             (forall w, In w (writes (cons l0)) -> record_ok self (snd w)) ->
             exec self world loc sched l0 = Some l1 ->
             forall w, In w (writes (cons l1)) -> record_ok self (snd w)).
  { induction sched as [|ev sched IH]; intros l0 l1 H0; cbn [exec].
    - now intros [= <-].
    - destruct (step self world loc ev l0) as [l2|] eqn:Hstep;
        [|discriminate].
      apply IH. destruct (step_cons self world loc ev l0 l2 Hstep)
        as [->|[o Ho]]; [exact H0|].
      rewrite Ho. unfold save_item. destruct o as [[key img_stream] msg].
      destruct (save_body self world (l_shard_id loc) (l_shard_to_dl loc)
                  (l_oom_sample_per_shard loc) (l_caption_indice loc)
                  (l_bbox_indice loc) key img_stream msg (cons l0))
        as [c' r] eqn:E.
      apply save_body_records in E. destruct E as (ws & Hw & Hrec).
      assert (Hc' : forall w, In w (writes c') -> record_ok self (snd w)).
      { rewrite Hw. intros w Hin. apply in_app_or in Hin.
        destruct Hin as [Hin|Hin]; [now apply H0|now apply Hrec]. }
      destruct r; cbn [fst]; [exact Hc'|].
      unfold print_failure; cbn [writes]. exact Hc'. }
  intros l Hs. apply (Hgen (loop_start self loc) l); [|exact Hs].
  intros w [].
Qed.

Lemma written_records_witness :
  Forall (fun w => record_ok (Demo.downloader Demo.writer 2) (snd w))
    (writes (cons Demo.after_in_turn)).
Proof.
  apply Forall_forall.
  apply (written_records (Demo.downloader Demo.writer 2) Demo.world
           (Demo.locals Demo.writer)).
  exists Demo.in_turn. reflexivity.
Defined.

(** With the hash stored under the name [key], the record of a failed
    download has no sample key in its [key] field. *)
Example hash_named_key :
  let d := Demo.downloader Demo.writer 2 in
  let d' :=
    {| sample_writer_class := sample_writer_class d; resizer := resizer d;
       thread_count := 1; save_caption := false; extract_exif := false;
       output_folder := "out"; column_list := ["url"%string]; timeout := 10;
       number_sample_per_shard := 100; oom_shard_count := 1;
       compute_hash := Some "key"%string; encode_format := "jpg";
       retries := 2; user_agent_token := None;
       disallowed_header_directives := None; blurring_bbox_col := None |} in
  let c := cons (Demo.row1_queued Demo.writer) in
  let r := save_item d' Demo.world 3
             [(0, [PStr "http://a/0.jpg"]); (1, [PStr "http://a/1.jpg"])]
             2 None None (1, None, Some "Connection reset"%string) c in
  map (fun w => (w_key (snd w), dict_get "key" (w_meta (snd w))))
    (writes (fst r))
  = [("301"%string, Ok PNone)].
Proof. reflexivity. Qed.

(** ** Shard runner, further *)

Lemma index_from_missing (x : string) (l : list string) :
  ~ In x l -> forall i, exists e, index_from x l i = Raise e.
Proof.
  induction l as [|y l IH]; intros Hn i; cbn [index_from].
  - eexists. reflexivity.
  - destruct (String.eqb_spec y x) as [->|Hne].
    + exfalso. apply Hn. now left.
    + apply IH. intros H. apply Hn. now right.
Qed.

Lemma traverse_length {A B} (f : A -> result B) (l : list A) :
  forall l', traverse f l = Ok l' -> List.length l' = List.length l.
Proof.
  induction l as [|x l IH]; intros l'; cbn [traverse].
  - now intros [= <-].
  - destruct (f x); cbn [bind]; [|discriminate].
    destruct (traverse f l) as [ys|]; cbn [bind]; [|discriminate].
    intros [= <-]. cbn [List.length]. now rewrite (IH ys eq_refl).
Qed.

Lemma traverse_In {A B} (f : A -> result B) (l : list A) :
  forall l' y, traverse f l = Ok l' -> In y l' ->
               exists x, In x l /\ f x = Ok y.
Proof.
  induction l as [|x l IH]; intros l' y; cbn [traverse].
  - intros [= <-] [].
  - destruct (f x) as [y0|] eqn:Ex; cbn [bind]; [|discriminate].
    destruct (traverse f l) as [ys|]; cbn [bind]; [|discriminate].
    intros [= <-] [<-|Hin].
    + exists x. split; [now left|exact Ex].
    + destruct (IH ys y eq_refl Hin) as (x' & Hx & Hf).
      exists x'. split; [now right|exact Hf].
Qed.

(** Every row made from the columns has a cell for each column. *)
Lemma zip_star_width {A} (cols : list (list A)) :
  forall row, In row (zip_star cols) ->
              List.length row = List.length cols.
Proof.
  induction cols as [|c cs IH]; intros row; cbn [zip_star]; [intros []|].
  destruct cs as [|c' cs].
  - intros Hin. apply in_map_iff in Hin. destruct Hin as (x & <- & _).
    reflexivity.
  - intros Hin. apply in_map_iff in Hin. destruct Hin as ([x r] & <- & Hin).
    apply in_combine_r in Hin. cbn [fst snd List.length].
    now rewrite (IH r Hin).
Qed.

Lemma enumerate_from_In {A} (l : list A) :
  forall i k x, In (k, x) (enumerate_from i l) ->
                i <= k < i + Z.of_nat (List.length l)
                /\ nth_error (enumerate_from i l) (Z.to_nat (k - i))
                   = Some (k, x)
                /\ In x l.
Proof.
  induction l as [|y l IH]; intros i k x; cbn [enumerate_from List.length];
    [intros []|].
  intros [E|Hin].
  - injection E as <- <-. rewrite Z.sub_diag. split; [lia|].
    split; [reflexivity|now left].
  - destruct (IH _ _ _ Hin) as (Hb & Hn & Hx). split; [lia|].
    replace (Z.to_nat (k - i)) with (S (Z.to_nat (k - (i + 1)))) by lia.
    split; [exact Hn|now right].
Qed.

Lemma py_index_nth {A} (l : list A) (k : Z) (x : A) :
  0 <= k -> nth_error l (Z.to_nat k) = Some x -> py_index l k = Ok x.
Proof.
  intros Hk Hn. unfold py_index.
  assert (Z.to_nat k < List.length l)%nat
    by (apply nth_error_Some; congruence).
  destruct (Z.ltb_spec k 0); [lia|].
  destruct (Z.leb_spec 0 k); [|lia].
  destruct (Z.ltb_spec k (Z.of_nat (List.length l))); [|lia].
  cbn [andb]. now rewrite Hn.
Qed.

Lemma row_dict_ok (sample_data : list pyval) (cols : list string) :
  forall i d,
    0 <= i ->
    i + Z.of_nat (List.length cols) <= Z.of_nat (List.length sample_data) ->
    exists d', row_dict cols i sample_data d = Ok d'.
Proof.
  induction cols as [|col cols IH]; intros i d Hi Hb;
    cbn [row_dict List.length] in *.
  - now exists d.
  - destruct (nth_error sample_data (Z.to_nat i)) as [v|] eqn:Hn.
    + rewrite (py_index_nth _ _ _ Hi Hn). cbn [bind]. apply IH; lia.
    + apply nth_error_None in Hn. lia.
Qed.

(** X27. The rows of a loaded shard: the work list pairs every local key
    with the [url] cell of its row, and for these keys the lookups of
    [save_task] do not raise: the row is found under its key, it has a cell
    for every column, and its metadata record can be built. *)
Theorem prepared_rows {W : Type} (self : AsyncDownloader W) (world : World)
    (row : Z * string) (loc : shard_locals W) (key : Z) (url : pyval) :
  prepare self world row = Ok loc ->
  In (key, url) (l_key_url_list loc) ->
  exists sample_data url_indice,
    py_index (l_shard_to_dl loc) key = Ok (key, sample_data)
    /\ List.length sample_data = List.length (column_list self)
    /\ list_index "url" (column_list self) = Ok url_indice
    /\ py_index sample_data url_indice = Ok url
    /\ forall str_key error_message,
        exists meta,
          new_meta self sample_data str_key error_message = Ok meta.
Proof.
  unfold prepare. destruct row as [shard_id shard_file].
  destruct (read_shard world shard_file) as [table|]; cbn [bind];
    [|discriminate].
  destruct (traverse _ (column_list self)) as [cols|] eqn:Hcols; cbn [bind];
    [|discriminate].
  destruct (list_index "url" (column_list self)) as [url_indice|] eqn:Hurl;
    cbn [bind]; [|discriminate].
  destruct (match blurring_bbox_col self with
            | Some col => _
            | None => _
            end) as [bbox_indice|]; cbn [bind]; [|discriminate].
  destruct (traverse _ (enumerate (zip_star cols))) as [work|] eqn:Hw;
    cbn [bind]; [|discriminate].
  destruct (sw_new _ _ _ _ _ _ _) as [w|]; cbn [bind]; [|discriminate].
  destruct (ceil_log10 world _) as [oom|]; cbn [bind]; [|discriminate].
  intros [= <-]. cbn [l_key_url_list l_shard_to_dl]. intros Hin.
  destruct (traverse_In _ _ _ _ Hw Hin) as ([k sd] & Hk & Hf).
  cbn [fst snd] in Hf.
  destruct (py_index sd url_indice) as [u|] eqn:Hu; cbn [bind] in Hf;
    [|discriminate].
  injection Hf as -> ->.
  unfold enumerate in Hk |- *.
  destruct (enumerate_from_In _ _ _ _ Hk) as (Hb & Hn & Hsd).
  rewrite Z.sub_0_r in Hn.
  pose proof (zip_star_width _ _ Hsd) as Hwid.
  rewrite (traverse_length _ _ _ Hcols) in Hwid.
  exists sd, url_indice. split; [apply py_index_nth; [lia|exact Hn]|].
  split; [exact Hwid|]. split; [reflexivity|]. split; [exact Hu|].
  intros str_key error_message. unfold new_meta.
  destruct (row_dict_ok sd (column_list self) 0 []) as [d Hd]; [lia|lia|].
  rewrite Hd. cbn [bind]. eexists. reflexivity.
Qed.

Lemma prepared_rows_witness :
  exists sample_data url_indice,
    py_index (l_shard_to_dl (Demo.locals Demo.writer)) 1
    = Ok (1, sample_data)
    /\ List.length sample_data
       = List.length (column_list (Demo.downloader Demo.writer 2))
    /\ list_index "url" (column_list (Demo.downloader Demo.writer 2))
       = Ok url_indice
    /\ py_index sample_data url_indice = Ok (PStr "http://a/1.jpg")
    /\ forall str_key error_message,
        exists meta,
          new_meta (Demo.downloader Demo.writer 2) sample_data str_key
            error_message = Ok meta.
Proof.
  apply (prepared_rows (Demo.downloader Demo.writer 2) Demo.world
           (3, "two.feather"%string) (Demo.locals Demo.writer) 1
           (PStr "http://a/1.jpg")).
  - reflexivity.
  - right. left. reflexivity.
Defined.

(** *** The records and the schema given to the writer *)

Lemma dict_set_keys (k : string) (v : pyval) (d : dict)
    (names : list string) :
  In k names -> incl (map fst d) names ->
  incl (map fst (dict_set k v d)) names.
Proof.
  intros Hk. induction d as [|[k' v'] d IH]; cbn [dict_set map fst];
    intros Hd.
  - intros x [<-|[]]. exact Hk.
  - destruct (String.eqb k' k); cbn [map fst].
    + intros x [<-|Hx]; [exact Hk|]. apply Hd. now right.
    + intros x [<-|Hx]; [apply Hd; now left|]. apply IH; [|exact Hx].
      intros y Hy. apply Hd. now right.
Qed.

Lemma dict_get_In {V} (k : string) (d : list (string * V)) (v : V) :
  dict_get k d = Ok v -> In k (map fst d).
Proof.
  induction d as [|[k' v'] d IH]; cbn [dict_get map fst]; [discriminate|].
  destruct (String.eqb_spec k' k) as [->|]; [now left|].
  intros H. right. now apply IH.
Qed.

Lemma traverse_all {A B} (f : A -> result B) (l : list A) :
  forall l', traverse f l = Ok l' ->
             forall x, In x l -> exists y, f x = Ok y.
Proof.
  induction l as [|x0 l IH]; intros l'; cbn [traverse]; [intros _ x []|].
  destruct (f x0) as [y0|] eqn:Ex; cbn [bind]; [|discriminate].
  destruct (traverse f l) as [ys|]; cbn [bind]; [|discriminate].
  intros _ x [<-|Hin]; [now exists y0|]. exact (IH ys eq_refl x Hin).
Qed.

Lemma row_dict_keys (sample_data : list pyval) (names cols : list string) :
  incl cols names ->
  forall i d d',
    incl (map fst d) names ->
    row_dict cols i sample_data d = Ok d' ->
    incl (map fst d') names.
Proof.
  induction cols as [|col cols IH]; intros Hc i d d' Hd; cbn [row_dict].
  - now intros [= <-].
  - destruct (py_index sample_data i) as [v|]; cbn [bind]; [|discriminate].
    apply IH.
    + intros x Hx. apply Hc. now right.
    + apply dict_set_keys; [apply Hc; now left|exact Hd].
Qed.

(** The names of the fields of the output schema. *)
Lemma output_schema_names {W} (self : AsyncDownloader W)
    (schema : list (string * string)) :
  map fst (output_schema self schema)
  = map fst schema
    ++ ["key"; "status"; "error_message"; "width"; "height";
        "original_width"; "original_height"]%string
    ++ (if extract_exif self then ["exif"%string] else [])
    ++ match compute_hash self with
       | Some name => [name]
       | None => []
       end.
Proof.
  unfold output_schema.
  destruct (compute_hash self), (extract_exif self);
    repeat rewrite map_app; cbn [map fst]; repeat rewrite <- app_assoc;
    cbn [app]; try rewrite app_nil_r; reflexivity.
Qed.

(** What the loop of [save_task] writes, when every pass writes records
    with the property [P]. *)
Lemma reachable_writes {W} (self : AsyncDownloader W) (world : World)
    (loc : shard_locals W) (P : write_args -> Prop) :
  (forall key img_stream msg c c' r,
      save_body self world (l_shard_id loc) (l_shard_to_dl loc)
        (l_oom_sample_per_shard loc) (l_caption_indice loc)
        (l_bbox_indice loc) key img_stream msg c = (c', r) ->
      exists ws, writes c' = writes c ++ ws
                 /\ forall w, In w ws -> P (snd w)) ->
  forall l, reachable self world loc l ->
            forall w, In w (writes (cons l)) -> P (snd w).
Proof.
  intros Hbody l [sched Hs]. revert l Hs.
  assert (Hgen : forall l0 l1,
             (forall w, In w (writes (cons l0)) -> P (snd w)) ->
             exec self world loc sched l0 = Some l1 ->
             forall w, In w (writes (cons l1)) -> P (snd w)).
  { induction sched as [|ev sched IH]; intros l0 l1 H0; cbn [exec].
    - now intros [= <-].
    - destruct (step self world loc ev l0) as [l2|] eqn:Hstep;
        [|discriminate].
      apply IH. destruct (step_cons self world loc ev l0 l2 Hstep)
        as [->|[o Ho]]; [exact H0|].
      rewrite Ho. unfold save_item. destruct o as [[key img_stream] msg].
      destruct (save_body self world (l_shard_id loc) (l_shard_to_dl loc)
                  (l_oom_sample_per_shard loc) (l_caption_indice loc)
                  (l_bbox_indice loc) key img_stream msg (cons l0))
        as [c' r] eqn:E.
      apply Hbody in E. destruct E as (ws & Hw & Hrec).
      assert (Hc' : forall w, In w (writes c') -> P (snd w)).
      { rewrite Hw. intros w Hin. apply in_app_or in Hin.
        destruct Hin as [Hin|Hin]; [now apply H0|now apply Hrec]. }
      destruct r; cbn [fst]; [exact Hc'|].
      unfold print_failure; cbn [writes]. exact Hc'. }
  intros l Hs. apply (Hgen (loop_start self loc) l); [|exact Hs].
  intros w [].
Qed.

Section SchemaFacts.

Context {W : Type}.
Variable self : AsyncDownloader W.
Variable world : World.
Variable shard_id : Z.
Variable shard_to_dl : list (Z * list pyval).
Variable oom_sample_per_shard : Z.
Variable caption_indice : option Z.
Variable bbox_indice : option Z.
Variable schema : list (string * string).
Hypothesis selected : incl (column_list self) (map fst schema).

Local Ltac field :=
  rewrite output_schema_names; apply in_or_app; right;
  repeat match goal with
         | H : extract_exif self = _ |- _ => rewrite H; clear H
         | H : compute_hash self = _ |- _ => rewrite H; clear H
         end;
  cbn [app In]; tauto.

Local Ltac fields :=
  repeat (apply dict_set_keys; [field|]).

Lemma new_meta_fields (sample_data : list pyval) (str_key : string)
    (error_message : option string) (meta : dict) :
  new_meta self sample_data str_key error_message = Ok meta ->
  incl (map fst meta) (map fst (output_schema self schema)).
Proof.
  unfold new_meta.
  destruct (row_dict (column_list self) 0 sample_data []) as [d|] eqn:Hd;
    cbn [bind]; [|discriminate].
  intros [= <-].
  assert (Hrow : incl (map fst d) (map fst (output_schema self schema))).
  { apply (row_dict_keys sample_data _ (column_list self)) with (i := 0)
      (d := []); [|intros x []|exact Hd].
    intros x Hx. rewrite output_schema_names. apply in_or_app. left.
    now apply selected. }
  destruct (compute_hash self) as [name|] eqn:Hname;
    destruct (extract_exif self) eqn:Hexif; fields; exact Hrow.
Qed.

Local Ltac no_write E :=
  injection E as <- _; exists []; rewrite app_nil_r;
  split; [reflexivity|intros ? []].

Local Ltac one_write E :=
  apply write_record in E; cbn [writes] in E;
  destruct E as (ws & Hw & Hrec);
  exists ws; split; [exact Hw|];
  let w := fresh "w" in
  let Hin := fresh "Hin" in
  intros w Hin; destruct (Hrec w Hin) as (_ & _ & ->).

(** The fields of every record the [try] block gives to the writer are
    fields of the output schema. *)
Lemma save_body_fields (key : Z) (img_stream error_message : option string)
    (c c' : consumer W) (r : result unit) :
  save_body self world shard_id shard_to_dl oom_sample_per_shard
    caption_indice bbox_indice key img_stream error_message c = (c', r) ->
  exists ws, writes c' = writes c ++ ws
             /\ forall w, In w ws ->
                          incl (map fst (w_meta (snd w)))
                            (map fst (output_schema self schema)).
Proof.
  unfold save_body. intros E.
  rewrite bindM_lift in E.
  destruct (py_index shard_to_dl key) as [entry|e]; [|no_write E].
  rewrite bindM_lift in E.
  destruct (compute_key key shard_id oom_sample_per_shard
              (oom_shard_count self)) as [str_key|e]; [|no_write E].
  rewrite bindM_lift in E.
  destruct (new_meta self (snd entry) str_key error_message) as [meta|e]
    eqn:Hmeta; [|no_write E].
  apply new_meta_fields in Hmeta.
  destruct error_message as [msg|].
  - unfold bindM at 1 in E. cbn [add_failed_to_download] in E.
    unfold bindM at 1 in E. cbn [status_increment] in E.
    one_write E. fields. exact Hmeta.
  - rewrite bindM_lift in E.
    destruct img_stream as [stream|]; [|no_write E].
    rewrite bindM_lift in E.
    destruct (match bbox_indice with
              | Some i => py_index (snd entry) i
              | None => Ok PNone
              end) as [bbox_list|e]; [|no_write E].
    rewrite bindM_lift in E.
    destruct (resizer self stream bbox_list) as [rs|e]; [|no_write E].
    destruct (resize_error rs) as [msg|].
    + unfold bindM at 1 in E. cbn [add_failed_to_resize] in E.
      unfold bindM at 1 in E. cbn [status_increment] in E.
      one_write E. fields. exact Hmeta.
    + unfold bindM at 1 in E. cbn [add_successes] in E.
      unfold bindM at 1 in E. cbn [status_increment] in E.
      destruct (compute_hash self) as [name|] eqn:Hname.
      * destruct (hashlib world name) as [digest|].
        -- unfold bindM at 1 in E. cbn [ret] in E.
           destruct (extract_exif self) eqn:Hexif; one_write E; fields;
             exact Hmeta.
        -- unfold bindM at 1 in E. cbn [raise] in E. no_write E.
      * unfold bindM at 1 in E. cbn [ret] in E.
        destruct (extract_exif self) eqn:Hexif; one_write E; fields;
          exact Hmeta.
Qed.

End SchemaFacts.

(** X29. The records fit the schema: when the columns of the shard read are
    fields of its schema, every field of every record given to the writer
    in a run is a field of the schema the writer was made with. *)
Theorem records_fit_schema {W : Type} (self : AsyncDownloader W)
    (world : World) (row : Z * string) (loc : shard_locals W) (l : loop W) :
  (forall table, read_shard world (snd row) = Ok table ->
                 incl (map fst (snd table)) (map fst (fst table))) ->
  prepare self world row = Ok loc ->
  reachable self world loc l ->
  forall w, In w (writes (cons l)) ->
            incl (map fst (w_meta (snd w))) (map fst (l_schema loc)).
Proof.
  intros Htable Hp.
  assert (Hs : exists schema,
             l_schema loc = output_schema self schema
             /\ incl (column_list self) (map fst schema)).
  { revert Hp. unfold prepare. destruct row as [shard_id shard_file].
    cbn [snd] in Htable.
    destruct (read_shard world shard_file) as [table|] eqn:Ht; cbn [bind];
      [|discriminate].
    destruct (traverse _ (column_list self)) as [cols|] eqn:Hcols;
      cbn [bind]; [|discriminate].
    destruct (list_index "url" (column_list self)) as [url_indice|];
      cbn [bind]; [|discriminate].
    destruct (match blurring_bbox_col self with
              | Some col => _
              | None => _
              end) as [bbox_indice|]; cbn [bind]; [|discriminate].
    destruct (traverse _ (enumerate (zip_star cols))) as [work|];
      cbn [bind]; [|discriminate].
    destruct (sw_new _ _ _ _ _ _ _) as [w|]; cbn [bind]; [|discriminate].
    destruct (ceil_log10 world _) as [oom|]; cbn [bind]; [|discriminate].
    intros [= <-]. cbn [l_schema]. exists (fst table).
    split; [reflexivity|]. intros col Hin.
    destruct (traverse_all _ _ _ Hcols col Hin) as [v Hv].
    apply (Htable table eq_refl). exact (dict_get_In _ _ _ Hv). }
  destruct Hs as (schema & -> & Hsel).
  apply (reachable_writes self world loc
           (fun a => incl (map fst (w_meta a))
                       (map fst (output_schema self schema)))).
  intros key img_stream msg c c' r.
  now apply save_body_fields.
Qed.

Lemma records_fit_schema_witness :
  Forall (fun w => incl (map fst (w_meta (snd w)))
                     (map fst (l_schema (Demo.locals Demo.writer))))
    (writes (cons Demo.after_in_turn)).
Proof.
  apply Forall_forall.
  apply (records_fit_schema (Demo.downloader Demo.writer 2) Demo.world
           (3, "two.feather"%string) (Demo.locals Demo.writer)).
  - intros table. cbn. intros [= <-]. cbn. intros x Hx. exact Hx.
  - reflexivity.
  - exists Demo.in_turn. reflexivity.
Defined.

(** X28. A shard whose column list has no [url] column is a failed shard
    under every schedule: [download_shard] raises in its prologue, before
    the event loop, nothing is written or removed, and [__call__] returns
    [(False, row)]. *)
Theorem shard_without_url {W : Type} (self : AsyncDownloader W)
    (world : World) (sched : list event) (row : Z * string) :
  ~ In "url"%string (column_list self) ->
  (exists e, outcome_of (download_shard self world sched row) = Raises e)
  /\ effects (download_shard self world sched row) = []
  /\ fst (call self world sched row) = Returns (false, row).
Proof.
  intros Hn.
  assert (Hp : exists e, prepare self world row = Raise e).
  { unfold prepare. destruct row as [shard_id shard_file].
    destruct (read_shard world shard_file) as [table|e]; cbn [bind];
      [|now exists e].
    destruct (traverse _ (column_list self)) as [cols|e]; cbn [bind];
      [|now exists e].
    destruct (index_from_missing "url" (column_list self) Hn 0) as [e He].
    unfold list_index. rewrite He. cbn [bind]. now exists e. }
  destruct Hp as [e Hp]. unfold call, download_shard. rewrite Hp.
  cbn [outcome_of effects fst]. split; [now exists e|]. now split.
Qed.

Lemma shard_without_url_witness :
  let d := with_resizer Demo.resize (Demo.downloader Demo.writer 2) in
  let d' :=
    {| sample_writer_class := sample_writer_class d; resizer := resizer d;
       thread_count := 1; save_caption := false; extract_exif := false;
       output_folder := "out"; column_list := ["caption"%string];
       timeout := 10; number_sample_per_shard := 100; oom_shard_count := 1;
       compute_hash := None; encode_format := "jpg";
       retries := 2; user_agent_token := None;
       disallowed_header_directives := None; blurring_bbox_col := None |} in
  (exists e,
      outcome_of (download_shard d' Demo.world Demo.in_turn
                    (3, "two.feather"%string)) = Raises e)
  /\ effects (download_shard d' Demo.world Demo.in_turn
                (3, "two.feather"%string)) = []
  /\ fst (call d' Demo.world Demo.in_turn (3, "two.feather"%string))
     = Returns (false, (3, "two.feather"%string)).
Proof.
  cbn zeta.
  apply (shard_without_url
           {| sample_writer_class := Demo.writer; resizer := Demo.resize;
              thread_count := 1; save_caption := false;
              extract_exif := false; output_folder := "out";
              column_list := ["caption"%string]; timeout := 10;
              number_sample_per_shard := 100; oom_shard_count := 1;
              compute_hash := None; encode_format := "jpg";
              retries := 2; user_agent_token := None;
              disallowed_header_directives := None;
              blurring_bbox_col := None |}
           Demo.world Demo.in_turn (3, "two.feather"%string)).
  intros [H|[]]. discriminate.
Defined.

(** ** Sample keys in order *)

Module OrderFacts.
Import PyStr.

Lemma value_from_split (s : string) :
  forall v, value_from v s
            = v * 10 ^ Z.of_nat (String.length s) + value_from 0 s.
Proof.
  induction s as [|c s IH]; intros v; cbn [value_from String.length].
  - cbn. lia.
  - rewrite IH, (IH (10 * 0 + _)), Nat2Z.inj_succ, Z.pow_succ_r by lia. ring.
Qed.

Lemma value_from_bound (s : string) :
  all_digits s = true ->
  0 <= value_from 0 s < 10 ^ Z.of_nat (String.length s).
Proof.
  induction s as [|c s IH]; cbn [all_digits value_from String.length].
  - intros _. cbn. lia.
  - intros H. apply andb_true_iff in H. destruct H as [Hc Hs].
    specialize (IH Hs). rewrite value_from_split.
    rewrite Nat2Z.inj_succ, Z.pow_succ_r by lia.
    unfold is_digit in Hc. apply andb_true_iff in Hc.
    destruct Hc as [H1 H2]. apply Nat.leb_le in H1, H2. nia.
Qed.

Lemma ascii_compare_code (c d : ascii) :
  Ascii.compare c d
  = Z.compare (Z.of_nat (nat_of_ascii c)) (Z.of_nat (nat_of_ascii d)).
Proof.
  unfold Ascii.compare, nat_of_ascii.
  now rewrite !N_nat_Z, N2Z.inj_compare.
Qed.

(** Strings of digits of the same length compare as their values do. *)
Lemma compare_digits (s : string) :
  forall t,
    String.length s = String.length t ->
    all_digits s = true -> all_digits t = true ->
    String.compare s t = Z.compare (value_from 0 s) (value_from 0 t).
Proof.
  induction s as [|c s IH]; intros [|d t] Hlen Hs Ht;
    cbn [String.length] in Hlen; try discriminate; [reflexivity|].
  injection Hlen as Hlen.
  cbn [all_digits] in Hs, Ht. apply andb_true_iff in Hs, Ht.
  destruct Hs as [_ Hs], Ht as [_ Ht].
  pose proof (value_from_bound s Hs) as Bs.
  pose proof (value_from_bound t Ht) as Bt.
  rewrite <- Hlen in Bt.
  cbn [String.compare value_from].
  rewrite (value_from_split s (10 * 0 + _)), (value_from_split t (10 * 0 + _)).
  rewrite <- Hlen, ascii_compare_code, (IH t Hlen Hs Ht).
  set (P := 10 ^ Z.of_nat (String.length s)) in *.
  set (a := Z.of_nat (nat_of_ascii c)). set (b := Z.of_nat (nat_of_ascii d)).
  set (vs := value_from 0 s) in *. set (vt := value_from 0 t) in *.
  destruct (Z.compare_spec a b) as [E|L|G].
  - rewrite E. symmetry.
    destruct (Z.compare_spec vs vt).
    + apply Z.compare_eq_iff. lia.
    + apply Z.compare_lt_iff. lia.
    + apply Z.compare_gt_iff. lia.
  - symmetry. apply Z.compare_lt_iff. nia.
  - symmetry. apply Z.compare_gt_iff. nia.
Qed.

End OrderFacts.

(** X18. Sample keys sort as their rows do: for shard ids and local keys
    that fit the widths, comparing two sample keys as strings is comparing
    the numbers [10^ws * shard_id + key], that is the shard ids first and
    the local keys next. *)
Theorem compute_key_order (key shard_id key' shard_id' ws wc : Z)
    (s s' : string) :
  0 <= ws -> 0 <= wc ->
  0 <= shard_id < 10 ^ wc -> 0 <= key < 10 ^ ws ->
  0 <= shard_id' < 10 ^ wc -> 0 <= key' < 10 ^ ws ->
  compute_key key shard_id ws wc = Ok s ->
  compute_key key' shard_id' ws wc = Ok s' ->
  String.compare s s'
  = match Z.compare shard_id shard_id' with
    | Eq => Z.compare key key'
    | c => c
    end.
Proof.
  intros Hws Hwc Hs Hk Hs' Hk'.
  pose proof (true_key_bounds key shard_id ws wc Hws Hwc Hs Hk) as Ht.
  pose proof (true_key_bounds key' shard_id' ws wc Hws Hwc Hs' Hk') as Ht'.
  unfold compute_key.
  destruct (Z.ltb_spec ws 0) as [?|_]; [lia|].
  destruct (Z.ltb_spec (ws + wc) 0) as [?|_]; [lia|].
  intros [= <-] [= <-].
  assert (Hd : forall n, 0 <= n ->
                 PyStr.all_digits (PyStr.format_0d n (ws + wc)) = true
                 /\ PyStr.value_from 0 (PyStr.format_0d n (ws + wc)) = n).
  { intros n Hn. pose proof (PyStrFacts.format_0d_value n (ws + wc) Hn) as Hv.
    unfold PyStr.decimal_value in Hv.
    destruct (PyStr.format_0d n (ws + wc)); [discriminate|].
    destruct (PyStr.all_digits _); [|discriminate].
    injection Hv as Hv. auto. }
  destruct (Hd _ (proj1 Ht)) as [Ha Hv]. destruct (Hd _ (proj1 Ht')) as [Ha' Hv'].
  rewrite OrderFacts.compare_digits, Hv, Hv'; try assumption.
  - assert (HP : 0 < 10 ^ ws) by (apply Z.pow_pos_nonneg; lia).
    destruct (Z.compare_spec shard_id shard_id') as [E|L|G].
    + subst shard_id'.
      destruct (Z.compare_spec key key').
      * apply Z.compare_eq_iff. lia.
      * apply Z.compare_lt_iff. lia.
      * apply Z.compare_gt_iff. lia.
    + apply Z.compare_lt_iff. nia.
    + apply Z.compare_gt_iff. nia.
  - apply Nat2Z.inj.
    rewrite !format_0d_length_max by lia. reflexivity.
Qed.

Lemma compute_key_order_witness :
  String.compare "307" "412"
  = match Z.compare 3 4 with
    | Eq => Z.compare 7 12
    | c => c
    end.
Proof.
  apply (compute_key_order 7 3 12 4 2 1 "307" "412");
    solve [simpl; lia | reflexivity].
Defined.

(** ** Runs that block *)

Lemma count_tasks_member (p : task_state -> bool) (ts : list task_state)
    (i : nat) (t : task_state) :
  nth_error ts i = Some t -> p t = true -> 0 < count_tasks p ts.
Proof.
  unfold count_tasks. revert i.
  induction ts as [|t0 ts IH]; intros [|i] Hi Hp;
    cbn [nth_error filter] in *; try discriminate.
  - injection Hi as ->. rewrite Hp. cbn [List.length]. lia.
  - specialize (IH i Hi Hp). destruct (p t0); cbn [List.length]; lia.
Qed.

Lemma forallb_finished_count (ts : list task_state) :
  forallb is_finished ts = true ->
  count_tasks is_finished ts = Z.of_nat (List.length ts).
Proof.
  unfold count_tasks.
  induction ts as [|t ts IH]; cbn [forallb filter List.length];
    [reflexivity|].
  intros H. apply andb_true_iff in H. destruct H as [-> H].
  cbn [List.length]. specialize (IH H). lia.
Qed.

Section BlockedFacts.

Context {W : Type}.
Variable self : AsyncDownloader W.
Variable world : World.
Variable loc : shard_locals W.

Hypothesis blocked : retries self < 0 \/ thread_count self = 0.
Hypothesis some_row : l_key_url_list loc <> [].

(** No coroutine ever returns, so the sentinel is never put. *)
Lemma exec_blocked (sched : list event) :
  forall l l',
    exec self world loc sched l = Some l' ->
    List.length (tasks l) = List.length (l_key_url_list loc) ->
    count_tasks is_finished (tasks l) = 0 ->
    download_task l = Gathering \/ download_task l = Died ->
    (thread_count self = 0 ->
     count_tasks is_running (tasks l) = 0 /\ semaphore l = 0) ->
    download_task l' = Gathering \/ download_task l' = Died.
Proof.
  induction sched as [|ev sched IH]; intros l l'; cbn [exec].
  - intros [= <-]. auto.
  - destruct (step self world loc ev l) as [l1|] eqn:Hstep; [|discriminate].
    intros He Hlen Hf Hd Hz.
    assert (H1 : List.length (tasks l1) = List.length (l_key_url_list loc)
                 /\ count_tasks is_finished (tasks l1) = 0
                 /\ (download_task l1 = Gathering \/ download_task l1 = Died)
                 /\ (thread_count self = 0 ->
                     count_tasks is_running (tasks l1) = 0
                     /\ semaphore l1 = 0)).
    { destruct ev as [i|i| | |]; cbn [step] in Hstep.
      - destruct (nth_error (tasks l) i) as [[| | |]|] eqn:Hi;
          try discriminate.
        destruct (Z.ltb_spec 0 (semaphore l)) as [Hs|]; [|discriminate].
        injection Hstep as <-. cbn [tasks semaphore download_task].
        rewrite length_set_nth, (count_tasks_set_nth _ _ _ _ _ Hi).
        cbn [is_finished Z.b2z].
        split; [assumption|]. split; [lia|]. split; [assumption|].
        intros H0. destruct (Hz H0). lia.
      - destruct (nth_error (tasks l) i) as [[| | |]|] eqn:Hi;
          try discriminate.
        destruct (nth_error (l_key_url_list loc) i) as [row|];
          [|discriminate].
        pose proof (count_tasks_member is_running _ _ _ Hi eq_refl) as Hrun.
        assert (Hneg : retries self < 0).
        { destruct blocked as [H|H]; [exact H|]. destruct (Hz H). lia. }
        unfold fetch in Hstep.
        destruct (download_image_with_retry_negative row
                    (http world (fst row)) (user_agent_token self)
                    (disallowed_header_directives self) (retries self) Hneg)
          as [e He']. rewrite He' in Hstep. cbn [fst] in Hstep.
        injection Hstep as <-. cbn [tasks semaphore download_task].
        rewrite length_set_nth, (count_tasks_set_nth _ _ _ _ _ Hi).
        cbn [is_finished Z.b2z].
        split; [assumption|]. split; [lia|].
        split; [destruct Hd as [->| ->]; auto|].
        intros H0. destruct (Hz H0). lia.
      - destruct Hd as [Hd|Hd]; rewrite Hd in Hstep; [|discriminate].
        destruct (forallb is_finished (tasks l)) eqn:Hall; [|discriminate].
        exfalso. apply forallb_finished_count in Hall.
        destruct (l_key_url_list loc); [now apply some_row|].
        cbn [List.length] in Hlen. lia.
      - destruct Hd as [Hd|Hd]; rewrite Hd in Hstep; discriminate.
      - destruct (save_task_returned l); [discriminate|].
        destruct (data_queue l) as [|[o|] q]; [discriminate| |];
          injection Hstep as <-; cbn [tasks semaphore download_task];
          auto. }
    destruct H1 as (Hlen1 & Hf1 & Hd1 & Hz1).
    exact (IH l1 l' He Hlen1 Hf1 Hd1 Hz1).
Qed.

Lemma reachable_blocked (l : loop W) :
  reachable self world loc l ->
  save_task_returned l = false /\ ~ In Sentinel (data_queue l).
Proof.
  intros Hreach.
  pose proof (reachable_invariant self world loc l Hreach)
    as (_ & _ & Hshape & _).
  destruct Hreach as [sched Hs].
  assert (Hd : download_task l = Gathering \/ download_task l = Died).
  { apply (exec_blocked sched _ _ Hs).
    - cbn [loop_start tasks]. apply length_map.
    - cbn [loop_start tasks]. now rewrite count_tasks_start.
    - now left.
    - intros H0. cbn [loop_start tasks semaphore].
      rewrite count_tasks_start. now split. }
  unfold queue_shape in Hshape.
  destruct Hd as [Hd|Hd]; rewrite Hd in Hshape; exact Hshape.
Qed.

End BlockedFacts.

(** X13. For a semaphore size that [asyncio.Semaphore] accepts
    ([thread_count >= 0]; a negative size raises instead), a shard with a
    row, run with [retries < 0] or with [thread_count = 0], never
    finishes: in every state of the event loop [save_task] has not
    returned and the sentinel is not on the queue, so that under every
    schedule [download_shard] neither returns nor raises and nothing is
    closed, written or removed. *)
Theorem blocked_shard {W : Type} (self : AsyncDownloader W) (world : World)
    (sched : list event) (row : Z * string) (loc : shard_locals W) :
  retries self < 0 \/ thread_count self = 0 ->
  0 <= thread_count self ->
  prepare self world row = Ok loc ->
  l_key_url_list loc <> [] ->
  (forall l, reachable self world loc l ->
             save_task_returned l = false /\ ~ In Sentinel (data_queue l))
  /\ outcome_of (download_shard self world sched row) = Pending
  /\ effects (download_shard self world sched row) = [].
Proof.
  intros Hb Ht Hprep Hrows.
  split; [exact (reachable_blocked self world loc Hb Hrows)|].
  unfold download_shard, asyncio_run. rewrite Hprep.
  destruct (Z.ltb_spec (thread_count self) 0); [lia|].
  destruct (exec self world loc sched (loop_start self loc)) as [l|] eqn:He;
    [|now split].
  assert (Hreach : reachable self world loc l) by (now exists sched).
  destruct (reachable_blocked self world loc Hb Hrows l Hreach) as [-> _].
  now split.
Qed.

(** The shard of two rows with a semaphore of size 0, under the schedule
    that brings the same shard to its end when the size is 1. *)
Lemma blocked_shard_witness :
  let self := with_thread_count 0 (Demo.downloader Demo.writer 2) in
  (forall l, reachable self Demo.world (Demo.locals Demo.writer) l ->
             save_task_returned l = false /\ ~ In Sentinel (data_queue l))
  /\ outcome_of (download_shard self Demo.world Demo.in_turn
                   (3, "two.feather"%string)) = Pending
  /\ effects (download_shard self Demo.world Demo.in_turn
                (3, "two.feather"%string)) = [].
Proof.
  apply (blocked_shard (with_thread_count 0 (Demo.downloader Demo.writer 2))
           Demo.world Demo.in_turn (3, "two.feather"%string)
           (Demo.locals Demo.writer)).
  - right. reflexivity.
  - cbn. lia.
  - reflexivity.
  - discriminate.
Defined.

(** With a negative size the semaphore is refused and the shard fails. *)
Example negative_thread_count_raises :
  outcome_of
    (download_shard
       (with_thread_count (-1) (Demo.downloader Demo.writer (-1)))
       Demo.world Demo.in_turn (3, "two.feather"%string))
  = Raises (Exception "Semaphore initial value must be >= 0").
Proof. reflexivity. Qed.
